(** * Interpreto: attribution pipeline, shallow embedding

    The Python sources are embedded as pure functions over explicit state.
    Exceptions are values of [result]; generators are lists of the values
    still to be yielded; tensors are a shape with row-major data. *)

From stdpp Require Import pretty.
From Stdlib Require Import List ZArith String Ascii Lia Bool Arith QArith Qcanon.
From Stdlib Require Import SpecFloat.
From stdpp Require Import gmap strings list numbers.
Import ListNotations.


(** ** Python exceptions and results *)

Inductive exn : Type :=
| StopIteration
| IndexError
| ValueError (message : string)
| TypeError (message : string)
| RuntimeError
| OverflowError
| AssertionError
| NotImplementedError.

Inductive result (A : Type) : Type :=
| Ok (a : A)
| Raise (e : exn).

Arguments Ok {A} a.
Arguments Raise {A} e.

Definition bind {A B : Type} (r : result A) (k : A -> result B) : result B :=
  match r with
  | Ok a => k a
  | Raise e => Raise e
  end.

Notation "x <- r ;; k" := (bind r (fun x => k))
  (at level 100, r at next level, right associativity).

(** ** interpreto/commons/generator_tools.py *)

Module GeneratorTools.

Section Tuples.
Context {V : Type}.
Local Open Scope Z_scope.

(** A Python tuple of values. *)
Definition tuple : Type := list V.

(** The subscript given to [get_subgenerator]: [int | slice]. *)
Inductive position : Type :=
| PInt (i : Z)
| PSlice (start stop step : option Z).

(** What a subscript of a tuple evaluates to: one component, or a tuple. *)
Inductive item : Type :=
| Elem (v : V)
| Sub (t : tuple).

(** [slice.indices(len)]: the clamped start and stop, and the step. *)
Definition clamp (len : Z) (backwards : bool) (i : Z) : Z :=
  let i' := if i <? 0 then i + len else i in
  if i <? 0 then
    (if i' <? 0 then (if backwards then -1 else 0) else i')
  else
    (if len <=? i then (if backwards then len - 1 else len) else i).

Definition slice_indices (len : Z) (start stop step : option Z)
  : result (Z * Z * Z) :=
  let st := match step with Some s => s | None => 1 end in
  if st =? 0 then Raise (ValueError "slice step cannot be zero")
  else
    let backwards := st <? 0 in
    let lo := match start with
              | Some s => clamp len backwards s
              | None => if backwards then len - 1 else 0
              end in
    let hi := match stop with
              | Some s => clamp len backwards s
              | None => if backwards then -1 else len
              end in
    Ok (lo, hi, st).

Definition slice_length (lo hi st : Z) : nat :=
  if st <? 0 then
    (if hi <? lo then Z.to_nat ((lo - hi - 1) / (- st) + 1) else 0%nat)
  else
    (if lo <? hi then Z.to_nat ((hi - lo - 1) / st + 1) else 0%nat).

(** [seq[start:stop:step]] on any Python sequence held as a list. *)
Definition getslice {A : Type} (l : list A) (start stop step : option Z)
  : result (list A) :=
  r <- slice_indices (Z.of_nat (length l)) start stop step ;;
  let '(lo, hi, st) := r in
  Ok (omap (fun k : nat => l !! Z.to_nat (lo + Z.of_nat k * st))
           (seq 0%nat (slice_length lo hi st))).

(** [t[i]] for an integer subscript: negative subscripts count from the end. *)
Definition getindex {A : Type} (l : list A) (i : Z) : result A :=
  let j := if i <? 0 then i + Z.of_nat (length l) else i in
  if j <? 0 then Raise IndexError
  else match l !! Z.to_nat j with
       | Some a => Ok a
       | None => Raise IndexError
       end.

Definition tuple_getitem (t : tuple) (p : position) : result item :=
  match p with
  | PInt i => v <- getindex t i ;; Ok (Elem v)
  | PSlice start stop step => s <- getslice t start stop step ;; Ok (Sub s)
  end.

(** The wrapped generator: the tuples it has yet to yield, and how many
    times [next] has returned one. *)
Record source : Type := {
  pending : list tuple;
  yielded : nat
}.

Definition source_next (g : source) : result tuple * source :=
  match pending g with
  | [] => (Raise StopIteration, g)
  | t :: rest => (Ok t, {| pending := rest; yielded := S (yielded g) |})
  end.

(** [PersistentTupleGeneratorWrapper]. *)
Record wrapper : Type := {
  generator : source;
  index : nat;
  buffer : list tuple
}.

Definition new_wrapper (tuple_generator : source) : wrapper :=
  {| generator := tuple_generator; index := 0%nat; buffer := [] |}.

(** [self.buffer.append(next(self.generator))] *)
Definition complete_buffer (w : wrapper) : result unit * wrapper :=
  match source_next (generator w) with
  | (Ok t, g) =>
      (Ok tt, {| generator := g; index := index w; buffer := buffer w ++ [t] |})
  | (Raise e, g) =>
      (Raise e, {| generator := g; index := index w; buffer := buffer w |})
  end.

(** [PersistentTupleGeneratorWrapper.__next__] *)
Definition wrapper_next (w : wrapper) : result tuple * wrapper :=
  let '(r, w1) :=
    if (length (buffer w) <=? index w)%nat then complete_buffer w else (Ok tt, w) in
  match r with
  | Raise e => (Raise e, w1)
  | Ok _ =>
      match buffer w1 !! index w1 with
      | None => (Raise IndexError, w1)
      | Some t =>
          (Ok t, {| generator := generator w1; index := S (index w1);
                    buffer := buffer w1 |})
      end
  end.

(** [SubGenerator]: the wrapper it reads is shared, so it is passed in and
    handed back by every call. *)
Record subgenerator : Type := {
  sg_position : position;
  sg_index : nat
}.

(** [get_subgenerator] and [__getitem__]. *)
Definition get_subgenerator (p : position) : subgenerator :=
  {| sg_position := p; sg_index := 0%nat |}.

Definition getitem (p : position) : subgenerator := get_subgenerator p.

(** [SubGenerator.__next__] *)
Definition subgenerator_next (c : subgenerator) (w : wrapper)
  : result item * subgenerator * wrapper :=
  let '(r, w1) :=
    if (length (buffer w) <=? sg_index c)%nat then complete_buffer w else (Ok tt, w) in
  match r with
  | Raise e => (Raise e, c, w1)
  | Ok _ =>
      match buffer w1 !! sg_index c with
      | None => (Raise IndexError, c, w1)
      | Some t =>
          match tuple_getitem t (sg_position c) with
          | Raise e => (Raise e, c, w1)
          | Ok res =>
              (Ok res,
               {| sg_position := sg_position c; sg_index := S (sg_index c) |},
               w1)
          end
      end
  end.

(** [list(cursor)]: call [__next__] until it raises; [StopIteration] ends
    the list, any other exception escapes.  The fuel bounds the calls. *)
Fixpoint drain (fuel : nat) (c : subgenerator) (w : wrapper)
  : option (result (list item) * subgenerator * wrapper) :=
  match fuel with
  | O => None
  | S fuel' =>
      match subgenerator_next c w with
      | (Ok v, c1, w1) =>
          match drain fuel' c1 w1 with
          | Some (Ok vs, c2, w2) => Some (Ok (v :: vs), c2, w2)
          | other => other
          end
      | (Raise StopIteration, c1, w1) => Some (Ok [], c1, w1)
      | (Raise e, c1, w1) => Some (Raise e, c1, w1)
      end
  end.

(** Two consumers, one per cursor, each calling [next] on its cursor until
    [StopIteration]; a schedule says whose turn it is. *)
Record consumer : Type := {
  cursor : subgenerator;
  received : list item;
  finished : bool;
  failure : option exn
}.

Definition new_consumer (p : position) : consumer :=
  {| cursor := get_subgenerator p; received := []; finished := false;
     failure := None |}.

Definition consumer_step (k : consumer) (w : wrapper) : consumer * wrapper :=
  if finished k then (k, w)
  else
    match subgenerator_next (cursor k) w with
    | (Ok v, c1, w1) =>
        ({| cursor := c1; received := received k ++ [v]; finished := false;
            failure := None |}, w1)
    | (Raise StopIteration, c1, w1) =>
        ({| cursor := c1; received := received k; finished := true;
            failure := None |}, w1)
    | (Raise e, c1, w1) =>
        ({| cursor := c1; received := received k; finished := true;
            failure := Some e |}, w1)
    end.

Record fanout : Type := {
  shared : wrapper;
  side_a : consumer;
  side_b : consumer
}.

Definition fanout_step (s : fanout) (turn_a : bool) : fanout :=
  if turn_a then
    let '(k, w) := consumer_step (side_a s) (shared s) in
    {| shared := w; side_a := k; side_b := side_b s |}
  else
    let '(k, w) := consumer_step (side_b s) (shared s) in
    {| shared := w; side_a := side_a s; side_b := k |}.

Definition run (schedule : list bool) (s : fanout) : fanout :=
  fold_left fanout_step schedule s.

(** [list(wrapper)]: the wrapper's own [__next__] until it raises;
    [StopIteration] ends the list, any other exception escapes. *)
Fixpoint drain_wrapper (fuel : nat) (w : wrapper)
  : option (result (list tuple) * wrapper) :=
  match fuel with
  | O => None
  | S fuel' =>
      match wrapper_next w with
      | (Ok t, w1) =>
          match drain_wrapper fuel' w1 with
          | Some (Ok ts, w2) => Some (Ok (t :: ts), w2)
          | other => other
          end
      | (Raise StopIteration, w1) => Some (Ok [], w1)
      | (Raise e, w1) => Some (Raise e, w1)
      end
  end.

End Tuples.

Arguments tuple : clear implicits.
Arguments position : clear implicits.
Arguments item : clear implicits.
Arguments source : clear implicits.
Arguments wrapper : clear implicits.
Arguments consumer : clear implicits.
Arguments fanout : clear implicits.

(** A generator of pairs, as a generator of 2-tuples. *)
Definition pair_source {V : Type} (pairs : list (V * V)) : source V :=
  {| pending := map (fun p => [fst p; snd p]) pairs; yielded := 0 |}.

Definition split_pairs {V : Type} (pairs : list (V * V)) : fanout V :=
  {| shared := new_wrapper (pair_source pairs);
     side_a := new_consumer (PInt 0);
     side_b := new_consumer (PInt 1) |}.

End GeneratorTools.

(** ** The tensor operations of torch that the sources call *)

Module Torch.

Record tensor (A : Type) : Type := {
  shape : list nat;
  data : list A
}.

Arguments shape {A} t.
Arguments data {A} t.

Definition numel (s : list nat) : nat := fold_right Nat.mul 1 s.

(** The data of a tensor fills its shape. *)
Definition well_formed {A : Type} (t : tensor A) : Prop :=
  length (data t) = numel (shape t).

Definition dim {A : Type} (t : tensor A) : nat := length (shape t).

(** Row [i] of a list cut into rows of [m] entries. *)
Definition chunk {A : Type} (m i : nat) (d : list A) : list A :=
  take m (drop (i * m) d).

Definition chunks {A : Type} (m n : nat) (d : list A) : list (list A) :=
  map (fun i => chunk m i d) (seq 0 n).

(** A scalar as a 0-D tensor, and [torch.tensor] of a flat list. *)
Definition scalar {A : Type} (a : A) : tensor A :=
  {| shape := []; data := [a] |}.

Definition vector {A : Type} (l : list A) : tensor A :=
  {| shape := [length l]; data := l |}.

(** [t.unsqueeze(d)] *)
Definition unsqueeze {A : Type} (d : Z) (t : tensor A) : result (tensor A) :=
  let n := Z.of_nat (dim t) in
  let d' := (if d <? 0 then d + n + 1 else d)%Z in
  if ((d' <? 0) || (n <? d'))%Z then Raise IndexError
  else
    let k := Z.to_nat d' in
    Ok {| shape := take k (shape t) ++ 1 :: drop k (shape t); data := data t |}.

(** [t.view(sizes)], one size may be [-1]. *)
Definition view {A : Type} (t : tensor A) (sizes : list Z) : result (tensor A) :=
  let n := length (data t) in
  if existsb (fun z => z <? -1)%Z sizes then Raise RuntimeError
  else
    let known := numel (map Z.to_nat (filter (fun z => z <> (-1)%Z) sizes)) in
    match length (filter (fun z => z = (-1)%Z) sizes) with
    | 0 =>
        if known =? n then Ok {| shape := map Z.to_nat sizes; data := data t |}
        else Raise RuntimeError
    | 1 =>
        if (known =? 0) || negb (n mod known =? 0) then Raise RuntimeError
        else
          Ok {| shape := map (fun z => if (z =? -1)%Z then n / known
                                        else Z.to_nat z) sizes;
                data := data t |}
    | _ => Raise RuntimeError
    end.

(** The data of a tensor of shape [from] repeated to fill the shape [to],
    where the two shapes have the same rank and differ only where [from]
    has a 1. *)
Fixpoint expand_data {A : Type} (from to : list nat) (d : list A) : list A :=
  match from, to with
  | f :: from', t :: to' =>
      let m := numel from' in
      if f =? t then
        concat (map (fun row => expand_data from' to' row) (chunks m f d))
      else
        concat (replicate t (expand_data from' to' (chunk m 0 d)))
  | _, _ => d
  end.

(** The shape [t.expand(sizes)] has: [-1] keeps a dimension, a dimension of
    size 1 is stretched, every other one has to agree. *)
Fixpoint expand_shape (from : list nat) (sizes : list Z) : result (list nat) :=
  match from, sizes with
  | [], [] => Ok []
  | f :: from', z :: sizes' =>
      rest <- expand_shape from' sizes' ;;
      if (z =? -1)%Z then Ok (f :: rest)
      else if (z <? -1)%Z then Raise RuntimeError
      else if f =? Z.to_nat z then Ok (f :: rest)
      else if f =? 1 then Ok (Z.to_nat z :: rest)
      else Raise RuntimeError
  | _, _ => Raise RuntimeError
  end.

Definition expand {A : Type} (t : tensor A) (sizes : list Z) : result (tensor A) :=
  let extra := length sizes - dim t in
  if length sizes <? dim t then Raise RuntimeError
  else if existsb (fun z => z <? 0)%Z (take extra sizes) then Raise RuntimeError
  else
    let from := replicate extra 1 ++ shape t in
    to <- expand_shape from sizes ;;
    Ok {| shape := to; data := expand_data from to (data t) |}.

(** The shape two operands broadcast to. *)
Fixpoint broadcast_aligned (s1 s2 : list nat) : result (list nat) :=
  match s1, s2 with
  | [], [] => Ok []
  | a :: s1', b :: s2' =>
      rest <- broadcast_aligned s1' s2' ;;
      if a =? b then Ok (a :: rest)
      else if a =? 1 then Ok (b :: rest)
      else if b =? 1 then Ok (a :: rest)
      else Raise RuntimeError
  | _, _ => Raise RuntimeError
  end.

Definition pad_shape (rank : nat) (s : list nat) : list nat :=
  replicate (rank - length s) 1 ++ s.

(** An elementwise binary operator with broadcasting. *)
Definition pointwise {A : Type} (op : A -> A -> A) (x y : tensor A)
  : result (tensor A) :=
  let rank := Nat.max (dim x) (dim y) in
  let sx := pad_shape rank (shape x) in
  let sy := pad_shape rank (shape y) in
  to <- broadcast_aligned sx sy ;;
  Ok {| shape := to;
        data := zip_with op (expand_data sx to (data x))
                            (expand_data sy to (data y)) |}.

Definition tmap {A B : Type} (f : A -> B) (t : tensor A) : tensor B :=
  {| shape := shape t; data := map f (data t) |}.

(** [torch.stack(ts)] along a new leading dimension. *)
Definition stack {A : Type} (ts : list (tensor A)) : result (tensor A) :=
  match ts with
  | [] => Raise RuntimeError
  | t0 :: _ =>
      if forallb (fun t => bool_decide (shape t = shape t0)) ts then
        Ok {| shape := length ts :: shape t0; data := concat (map data ts) |}
      else Raise RuntimeError
  end.

(** [t[i]] along the leading dimension. *)
Definition select {A : Type} (t : tensor A) (i : Z) : result (tensor A) :=
  match shape t with
  | [] => Raise IndexError
  | n :: rest =>
      let j := (if i <? 0 then i + Z.of_nat n else i)%Z in
      if ((j <? 0) || (Z.of_nat n <=? j))%Z then Raise IndexError
      else Ok {| shape := rest; data := chunk (numel rest) (Z.to_nat j) (data t) |}
  end.

(** [x.gather(-1, index)]: the two tensors have the same rank, the index is
    no larger than [x] along the leading dimensions, and its entries are
    positions along the last one. *)
Fixpoint gather_data {A : Type} (xs ks : list nat) (x : list A) (idx : list Z)
  : result (list A) :=
  match xs, ks with
  | [c], [_] =>
      fold_right (fun (z : Z) (acc : result (list A)) =>
                    rest <- acc ;;
                    if (z <? 0)%Z then Raise RuntimeError
                    else match x !! Z.to_nat z with
                         | Some a => Ok (a :: rest)
                         | None => Raise RuntimeError
                         end)
                 (Ok []) idx
  | n :: xs', k :: ks' =>
      if n <? k then Raise RuntimeError
      else
        fold_right (fun (i : nat) (acc : result (list A)) =>
                      rest <- acc ;;
                      row <- gather_data xs' ks' (chunk (numel xs') i x)
                                         (chunk (numel ks') i idx) ;;
                      Ok (row ++ rest))
                   (Ok []) (seq 0 k)
  | _, _ => Raise RuntimeError
  end.

Definition gather_last {A : Type} (x : tensor A) (index : tensor Z)
  : result (tensor A) :=
  d <- gather_data (shape x) (shape index) (data x) (data index) ;;
  Ok {| shape := shape index; data := d |}.

(** The position of the first largest entry of a non-empty list. *)
Fixpoint argmax_from (best_i : nat) (best : Qc) (i : nat) (l : list Qc) : nat :=
  match l with
  | [] => best_i
  | q :: rest =>
      if bool_decide (best < q)%Qc then argmax_from i q (S i) rest
      else argmax_from best_i best (S i) rest
  end.

Definition argmax_list (l : list Qc) : nat :=
  match l with
  | [] => 0
  | q :: rest => argmax_from 0 q 1 rest
  end.

(** [t.argmax(dim=-1)] *)
Definition argmax_last (t : tensor Qc) : result (tensor Z) :=
  match shape t with
  | [] => Ok {| shape := []; data := [0%Z] |}
  | _ =>
      let c := last (shape t) 0 in
      if c =? 0 then Raise IndexError
      else
        let outer := removelast (shape t) in
        Ok {| shape := outer;
              data := map (fun row => Z.of_nat (argmax_list row))
                          (chunks c (numel outer) (data t)) |}
  end.

(** [torch.eye(n)] *)
Definition eye (n : nat) : tensor Qc :=
  {| shape := [n; n];
     data := flat_map (fun i => map (fun j => if i =? j then 1%Qc else 0%Qc)
                                    (seq 0 n))
                      (seq 0 n) |}.

(** [torch.zeros(shape)], [torch.full(shape, v)], [torch.cat(ts, dim=0)] *)
Definition full {A : Type} (s : list nat) (v : A) : tensor A :=
  {| shape := s; data := replicate (numel s) v |}.

Definition zeros (s : list nat) : tensor Qc := full s 0%Qc.

Definition cat0 {A : Type} (x y : tensor A) : result (tensor A) :=
  match shape x, shape y with
  | n :: sx, m :: sy =>
      if bool_decide (sx = sy) then
        Ok {| shape := (n + m) :: sx; data := data x ++ data y |}
      else Raise RuntimeError
  | _, _ => Raise RuntimeError
  end.

End Torch.

(** ** interpreto/attributions/perturbations/occlusion.py *)

Module Occlusion.

Import Torch.

(** What the perturbator uses of a Hugging Face tokenizer. *)
Record tokenizer : Type := {
  tokenize : string -> list string;
  convert_token_to_id : string -> Z;
  mask_token : string
}.

(** [tokenizer.convert_tokens_to_ids(tokens)] *)
Definition convert_tokens_to_ids (tk : tokenizer) (tokens : list string) : list Z :=
  map (convert_token_to_id tk) tokens.

(** A [torch.nn.Embedding]: each id is looked up as a row of [embedding_dim]
    numbers. *)
Record embedding : Type := {
  embedding_dim : nat;
  weight : Z -> list Qc
}.

(** [inputs_embeddings(torch.tensor(ids))] *)
Definition embed (e : embedding) (ids : list Z) : tensor Qc :=
  {| shape := [length ids; embedding_dim e];
     data := flat_map (weight e) ids |}.

Record TokenOcclusionPerturbator : Type := {
  tokenizer_of : tokenizer;
  inputs_embeddings : embedding;
  mask_value : string
}.

(** [__init__]: [mask_value or tokenizer.mask_token] *)
Definition init (tk : tokenizer) (e : embedding) (mask : option string)
  : TokenOcclusionPerturbator :=
  {| tokenizer_of := tk;
     inputs_embeddings := e;
     mask_value := match mask with
                   | Some (String c s) => String c s
                   | _ => mask_token tk
                   end |}.

(** [tokens[:i] + [mask_value] + tokens[i + 1:]] for [i] in [range(n)] *)
Definition variations (p : TokenOcclusionPerturbator) (tokens : list string)
  : list (list Z) :=
  map (fun i => convert_tokens_to_ids (tokenizer_of p)
                  (take i tokens ++ [mask_value p] ++ drop (i + 1) tokens))
      (seq 0 (length tokens)).

(** [perturb] on a [str]. *)
Definition perturb (p : TokenOcclusionPerturbator) (inputs : string)
  : result (tensor Qc * tensor Qc) :=
  let tokens := tokenize (tokenizer_of p) inputs in
  let n_perturbations := length tokens in
  stacked <- stack (map (embed (inputs_embeddings p)) (variations p tokens)) ;;
  embeddings <- unsqueeze 0 stacked ;;
  Ok (embeddings, eye n_perturbations).

(** [perturb] on an iterable: one call per item, the first exception
    escapes. *)
Fixpoint perturb_all (p : TokenOcclusionPerturbator) (inputs : list string)
  : result (list (tensor Qc * tensor Qc)) :=
  match inputs with
  | [] => Ok []
  | s :: rest =>
      r <- perturb p s ;;
      rs <- perturb_all p rest ;;
      Ok (r :: rs)
  end.

(** Python's [str.isspace] for a character below 256. *)
Definition is_space (c : ascii) : bool :=
  let n := nat_of_ascii c in
  ((9 <=? n) && (n <=? 13)) || ((28 <=? n) && (n <=? 32))
  || (n =? 133) || (n =? 160).

(** [s.split()]: the maximal runs of characters that are not white space;
    [cur] holds the run being read, its last character first. *)
Fixpoint split_from (cur : list ascii) (s : string) : list string :=
  match s with
  | EmptyString =>
      match cur with
      | [] => []
      | _ => [string_of_list_ascii (rev cur)]
      end
  | String c rest =>
      if is_space c then
        match cur with
        | [] => split_from [] rest
        | _ => string_of_list_ascii (rev cur) :: split_from [] rest
        end
      else split_from (c :: cur) rest
  end.

Definition split (s : string) : list string := split_from [] s.

(** [" ".join(words)] *)
Fixpoint join (words : list string) : string :=
  match words with
  | [] => EmptyString
  | [w] => w
  | w :: rest => (w ++ String " " (join rest))%string
  end.

(** [max(l)] of a list of lengths. *)
Definition python_max (l : list nat) : result nat :=
  match l with
  | [] => Raise (ValueError "max() arg is an empty sequence")
  | a :: rest => Ok (fold_left Nat.max rest a)
  end.

(** [WordOcclusionPerturbator]; [pad_token_id] is the tokenizer's. *)
Record WordOcclusionPerturbator : Type := {
  word_tokenizer : tokenizer;
  pad_token_id : Z;
  word_inputs_embeddings : embedding;
  word_mask_value : string
}.

Definition word_init (tk : tokenizer) (pad : Z) (e : embedding)
    (mask : option string) : WordOcclusionPerturbator :=
  {| word_tokenizer := tk;
     pad_token_id := pad;
     word_inputs_embeddings := e;
     word_mask_value := match mask with
                        | Some (String c s) => String c s
                        | _ => mask_token tk
                        end |}.

(** The loop over [enumerate(words)]: the tokens before the word, one mask
    token per token of the word, the tokens after the word. *)
Definition word_variations (p : WordOcclusionPerturbator) (words : list string)
  : list (list Z) :=
  imap (fun index word =>
          let tk := word_tokenizer p in
          let first_part := tokenize tk (join (take index words)) in
          let second_part :=
            tokenize tk (String " " (join (drop (index + 1) words))) in
          convert_tokens_to_ids tk
            (first_part ++ map (fun _ => mask_token tk) (tokenize tk word)
                        ++ second_part))
       words.

(** [WordOcclusionPerturbator.perturb] on a [str]. *)
Definition word_perturb (p : WordOcclusionPerturbator) (inputs : string)
  : result (tensor Qc * tensor Qc) :=
  let words := split inputs in
  let n_perturbations := length words in
  let variations := word_variations p words in
  max_length <- python_max (map (fun tokens => length tokens) variations) ;;
  let padded := map (fun v => v ++ replicate (max_length - length v)
                                              (pad_token_id p)) variations in
  stacked <- stack (map (embed (word_inputs_embeddings p)) padded) ;;
  embeddings <- unsqueeze 0 stacked ;;
  Ok (embeddings, eye n_perturbations).

End Occlusion.

(** ** interpreto/attributions/perturbations/linear_interpolation_perturbation.py *)

Module LinearInterpolation.

Import Torch.

Inductive dtype : Type := Float32 | Float64 | Int64.

Global Instance dtype_eq_dec : EqDecision dtype.
Proof. solve_decision. Defined.

(** The floating-point format of IEEE 754 an operation is carried out in,
    as [SpecFloat] takes it: the bits of the mantissa and the exponent of
    the infinities.  Float32 is also the format int64 entries are converted
    to when they meet a float32 tensor. *)
Definition precision (d : dtype) : Z :=
  match d with Float64 => 53%Z | _ => 24%Z end.

Definition exponent (d : dtype) : Z :=
  match d with Float64 => 1024%Z | _ => 128%Z end.

(** The dtype of the result of an operation between a float32 tensor and a
    tensor of dtype [d]. *)
Definition result_type (d : dtype) : dtype :=
  match d with Float64 => Float64 | _ => Float32 end.

(** An entry of a tensor: a 64-bit integer, or a floating-point number
    with its sign, mantissa and exponent, a signed zero, an infinity or
    NaN. *)
Inductive number : Type :=
| Int (z : Z)
| Float (f : spec_float).

(** A tensor with its element type. *)
Record dtensor : Type := {
  dt_dtype : dtype;
  dt_tensor : tensor number
}.

(** The Python values [adjust_baseline] tells apart; a Python [float] is a
    binary64 number. *)
Inductive pyvalue : Type :=
| PyNone
| PyBool (b : bool)
| PyInt (z : Z)
| PyFloat (f : spec_float)
| PyStr (s : string)
| PyTensor (t : dtensor)
| PyObject.

Definition float_zero : spec_float := S754_zero false.

(** 1.0 in float32 *)
Definition float_one : spec_float := S754_finite false 8388608 (-23).

(** An integer converted to a floating-point format: rounded to nearest,
    ties to even. *)
Definition of_Z (d : dtype) (z : Z) : spec_float :=
  binary_normalize (precision d) (exponent d) z 0 false.

(** A binary64 number converted to float32, rounded likewise. *)
Definition to_float32 (f : spec_float) : spec_float :=
  match f with
  | S754_finite s m e =>
      binary_normalize 24 128 (cond_Zopp s (Zpos m)) e s
  | _ => f
  end.

(** Whether a finite number is beyond the largest float32,
    [(2^24 - 1) * 2^104], in magnitude. *)
Definition beyond_float32 (f : spec_float) : bool :=
  match f with
  | S754_finite _ m e =>
      let low := Z.min e 104 in
      (16777215 * 2 ^ (104 - low) <? Zpos m * 2 ^ (e - low))%Z
  | _ => false
  end.

(** The integer part of a number that is neither an infinity nor NaN. *)
Definition truncate (f : spec_float) : option Z :=
  match f with
  | S754_zero _ => Some 0%Z
  | S754_finite s m e =>
      Some (cond_Zopp s (if (0 <=? e)%Z then Zpos m * 2 ^ e
                         else Zpos m / 2 ^ (- e)))%Z
  | _ => None
  end.

(** Modelled from the library: the entry [torch.full(shape, v, dtype=d)]
    fills with for a Python [int].  The integer is first unpacked into a
    64-bit scalar, signed or unsigned, which raises [OverflowError] when
    neither holds it; an int64 tensor then takes it when it is below
    [2^63], and raises [RuntimeError] otherwise; a float tensor takes it
    rounded. *)
Definition int_fill (d : dtype) (z : Z) : result number :=
  if ((z <? - 2 ^ 63) || (2 ^ 64 <=? z))%Z then Raise OverflowError
  else
    match d with
    | Int64 => if (2 ^ 63 <=? z)%Z then Raise RuntimeError else Ok (Int z)
    | _ => Ok (Float (of_Z d z))
    end.

(** Modelled from the library: the same for a Python [float].  A float64
    tensor takes it as it is; a float32 tensor takes an infinity, NaN and
    every number not beyond the largest float32, rounded; an int64 tensor
    takes the integer part of a number from [-2^63] to [2^63], the
    conversion of [2^63] itself wrapping to [-2^63] on x86-64.  What does
    not fit raises [RuntimeError]. *)
Definition float_fill (d : dtype) (f : spec_float) : result number :=
  match d with
  | Float64 => Ok (Float f)
  | Float32 =>
      if beyond_float32 f then Raise RuntimeError else Ok (Float (to_float32 f))
  | Int64 =>
      match truncate f with
      | None => Raise RuntimeError
      | Some t =>
          if ((t <? - 2 ^ 63) || (2 ^ 63 <? t))%Z then Raise RuntimeError
          else Ok (Int (if (t =? 2 ^ 63)%Z then - 2 ^ 63 else t)%Z)
      end
  end.

(** [torch.full(shape, v, dtype=d)], from the entry the scalar converts
    to. *)
Definition full_as (s : list nat) (v : result number) (d : dtype) : result dtensor :=
  c <- v ;;
  Ok {| dt_dtype := d; dt_tensor := full s c |}.

(** [repr] of a [torch.Size] and of a dtype, as the messages show them. *)
Fixpoint comma_separated (l : list string) : string :=
  match l with
  | [] => ""
  | [a] => a
  | a :: rest => a ++ ", " ++ comma_separated rest
  end.

Definition size_repr (s : list nat) : string :=
  "torch.Size([" ++ comma_separated (map pretty s) ++ "])".

Definition dtype_repr (d : dtype) : string :=
  match d with
  | Float32 => "torch.float32"
  | Float64 => "torch.float64"
  | Int64 => "torch.int64"
  end.

(** [adjust_baseline(baseline, inputs)] *)
Definition adjust_baseline (baseline inputs : pyvalue) : result dtensor :=
  match inputs with
  | PyTensor x =>
      let input_shape := drop 1 (shape (dt_tensor x)) in
      let baseline := match baseline with PyNone => PyInt 0 | b => b end in
      match baseline with
      | PyBool b =>
          full_as input_shape (int_fill (dt_dtype x) (if b then 1 else 0)%Z)
                  (dt_dtype x)
      | PyInt z => full_as input_shape (int_fill (dt_dtype x) z) (dt_dtype x)
      | PyFloat f => full_as input_shape (float_fill (dt_dtype x) f) (dt_dtype x)
      | PyTensor b =>
          if negb (bool_decide (shape (dt_tensor b) = input_shape)) then
            Raise (ValueError ("Baseline shape " ++ size_repr (shape (dt_tensor b))
                               ++ " does not match expected shape "
                               ++ size_repr input_shape ++ "."))
          else if negb (bool_decide (dt_dtype b = dt_dtype x)) then
            Raise (ValueError ("Baseline dtype " ++ dtype_repr (dt_dtype b)
                               ++ " does not match expected dtype "
                               ++ dtype_repr (dt_dtype x) ++ "."))
          else Ok b
      | _ => Raise (TypeError "Baseline must be None, a float, or a PyTorch tensor.")
      end
  | _ => Raise (TypeError "Expected 'inputs' to be a PyTorch tensor.")
  end.

Record LinearInterpolationPerturbation : Type := {
  baseline_of : pyvalue
}.

(** An entry as a floating-point number of the format of [d]. *)
Definition as_float (d : dtype) (v : number) : spec_float :=
  match v with
  | Int z => of_Z d z
  | Float f => f
  end.

(** [1 - a] on a float32 entry, and the product and the sum of two entries
    in the format of [d]: each is one operation of IEEE 754, rounded to
    nearest, ties to even. *)
Definition one_minus (a : number) : number :=
  Float (SFsub 24 128 float_one (as_float Float32 a)).

Definition times (d : dtype) (u v : number) : number :=
  Float (SFmul (precision d) (exponent d) (as_float d u) (as_float d v)).

Definition plus (d : dtype) (u v : number) : number :=
  Float (SFadd (precision d) (exponent d) (as_float d u) (as_float d v)).

(** Modelled from the library: entry [k] of [torch.linspace(0, 1, n)] as
    the kernel computes it when every operation is rounded on its own:
    [0 + step * k] in the first half and [1 - step * (n - 1 - k)] in the
    second, with [step = 1 / (n - 1)], all in float32. *)
Definition kernel_step (n k : nat) : spec_float :=
  let step := SFdiv 24 128 float_one (of_Z Float32 (Z.of_nat (n - 1))) in
  if k <? n / 2 then
    SFadd 24 128 float_zero (SFmul 24 128 step (of_Z Float32 (Z.of_nat k)))
  else
    SFsub 24 128 float_one
      (SFmul 24 128 step (of_Z Float32 (Z.of_nat (n - k - 1)))).

Section Steps.

(** Modelled from the library: entry [k] of [torch.linspace(0, 1, n)] for
    [0 < k < n - 1].  Its last bit depends on how the kernel rounds (a
    fused multiply-add rounds once where [kernel_step] rounds twice), so
    the steps between the first and the last are a parameter. *)
Variable inner_step : nat -> nat -> spec_float.

(** [torch.linspace(0, 1, steps)]: float32 numbers, the first exactly 0
    and, from two steps on, the last exactly 1. *)
Definition linspace (steps : Z) : result (tensor number) :=
  if (steps <? 0)%Z then Raise RuntimeError
  else
    let n := Z.to_nat steps in
    Ok (vector (map (fun k : nat =>
                       Float (if k =? 0 then float_zero
                              else if k =? n - 1 then float_one
                              else inner_step n k))
                    (seq 0 n))).

(** [perturb(inputs, n_samples)]: the interpolated tensor and [None]. *)
Definition perturb (self : LinearInterpolationPerturbation) (inputs : dtensor)
    (n_samples : Z) : result (dtensor * option dtensor) :=
  baseline <- adjust_baseline (baseline_of self) (PyTensor inputs) ;;
  if negb (bool_decide (drop 1 (shape (dt_tensor inputs))
                        = shape (dt_tensor baseline))) then Raise AssertionError
  else
    line <- linspace n_samples ;;
    alphas <- view line (1%Z :: n_samples
                         :: replicate (dim (dt_tensor inputs) - 1) 1%Z) ;;
    inputs1 <- unsqueeze 1 (dt_tensor inputs) ;;
    baseline1 <- view (dt_tensor baseline)
                      (1%Z :: 1%Z :: map Z.of_nat (shape (dt_tensor baseline))) ;;
    let d := result_type (dt_dtype inputs) in
    left <- pointwise (times d) (tmap one_minus alphas) inputs1 ;;
    right <- pointwise (times d) alphas baseline1 ;;
    interpolated <- pointwise (plus d) left right ;;
    Ok ({| dt_dtype := d; dt_tensor := interpolated |}, None).

End Steps.

(** [__init__]: [assert isinstance(baseline, (torch.Tensor, int, float,
    type(None)))]; a [bool] is an [int]. *)
Definition init (baseline : pyvalue) : result LinearInterpolationPerturbation :=
  match baseline with
  | PyNone | PyBool _ | PyInt _ | PyFloat _ | PyTensor _ =>
      Ok {| baseline_of := baseline |}
  | _ => Raise AssertionError
  end.

End LinearInterpolation.

(** ** interpreto/commons/model_wrapping/classification_inference_wrapper.py *)

Module ClassificationInferenceWrapper.

Import Torch.

(** [index_shape = list(logits.shape); index_shape[-1] = target.shape[0]] *)
Definition index_shape (logits_shape : list nat) (t : nat) : result (list nat) :=
  match logits_shape with
  | [] => Raise IndexError
  | _ => Ok (removelast logits_shape ++ [t])
  end.

(** The cases of [_process_target] for a target that is not a scalar. *)
Definition process_target_from_1d (target : tensor Z) (logits : tensor Qc)
  : result (tensor Z) :=
  match shape target with
  | [t] =>
      s <- index_shape (shape logits) t ;;
      expand target (map Z.of_nat s)
  | [n; _] =>
      if n =? 1 then
        match shape logits with
        | [] => Raise IndexError
        | b :: _ => expand target [Z.of_nat b; (-1)%Z]
        end
      else Ok target
  | _ =>
      Raise (ValueError "Target tensor should have 0, 1 or 2 dimensions")
  end.

(** [_process_target(target, logits)]: a scalar target is given a dimension
    and processed again. *)
Definition _process_target (target : tensor Z) (logits : tensor Qc)
  : result (tensor Z) :=
  match shape target with
  | [] =>
      t1 <- unsqueeze 0 target ;;
      process_target_from_1d t1 logits
  | _ => process_target_from_1d target logits
  end.

(** [_get_targets_from_mapping], from the logits of the mapping. *)
Definition _get_targets_from_mapping (logits : tensor Qc) : result (tensor Z) :=
  argmax_last logits.

(** [_get_targeted_logits_from_mapping], from the logits of the mapping. *)
Definition targeted_logits_of (logits : tensor Qc) (targets : tensor Z)
  : result (tensor Qc) :=
  t <- _process_target targets logits ;;
  gather_last logits t.

(** [targets.view(1, -1)] when [targets.dim()] is 0 or 1. *)
Definition as_rows (targets : tensor Z) : result (tensor Z) :=
  if (dim targets =? 0) || (dim targets =? 1) then view targets [1%Z; (-1)%Z]
  else Ok targets.

(** [int(targets.shape[0] > 1)] *)
Definition single_index_of (targets : tensor Z) : result nat :=
  match shape targets with
  | [] => Raise IndexError
  | r :: _ => Ok (if 1 <? r then 1 else 0)
  end.

(** [single_index and index] *)
Definition and_index (single_index index : nat) : nat :=
  if single_index =? 0 then single_index else index.

(** The value one turn of the loop of [_get_targeted_logits_from_iterable]
    yields. *)
Definition yield_targeted (targets : tensor Z) (single_index index : nat)
    (logits : tensor Qc) : result (tensor Qc) :=
  row <- select targets (Z.of_nat (and_index single_index index)) ;;
  row1 <- unsqueeze 0 row ;;
  match shape logits with
  | [] => Raise IndexError
  | b :: _ =>
      idx <- expand row1 [Z.of_nat b; (-1)%Z] ;;
      gather_last logits idx
  end.

(** A generator run to its end: the values it yielded and the exception
    that stopped it, if one did. *)
Fixpoint generate {A B : Type} (body : nat -> A -> result B) (index : nat)
    (l : list A) : list B * option exn :=
  match l with
  | [] => ([], None)
  | a :: rest =>
      match body index a with
      | Raise e => ([], Some e)
      | Ok b =>
          let '(bs, e) := generate body (S index) rest in (b :: bs, e)
      end
  end.

(** [_get_targeted_logits_from_iterable], from the logits the model gives
    for the inputs in turn.  The preamble runs when the generator is first
    advanced. *)
Definition _get_targeted_logits_from_iterable (predictions : list (tensor Qc))
    (targets : tensor Z) : list (tensor Qc) * option exn :=
  match as_rows targets with
  | Raise e => ([], Some e)
  | Ok targets2 =>
      match single_index_of targets2 with
      | Raise e => ([], Some e)
      | Ok single_index =>
          generate (yield_targeted targets2 single_index) 0 predictions
      end
  end.

(** [iter(t)] run to its end: the rows of a tensor; a 0-D tensor cannot be
    iterated. *)
Definition rows (t : tensor Z) : result (list (tensor Z)) :=
  match shape t with
  | [] => Raise (TypeError "iteration over a 0-d tensor")
  | n :: rest =>
      Ok (map (fun i => {| shape := rest; data := chunk (numel rest) i (data t) |})
              (seq 0 n))
  end.

(** The generator expression over [zip(model_inputs, targets, strict=True)]
    run to its end: one call per pair, and [ValueError] when one side ends
    before the other. *)
Fixpoint zip_strict {I G : Type} (body : I -> tensor Z -> result G)
    (model_inputs : list I) (targets : list (tensor Z)) : list G * option exn :=
  match model_inputs, targets with
  | [], [] => ([], None)
  | [], _ :: _ =>
      ([], Some (ValueError "zip() argument 2 is longer than argument 1"))
  | _ :: _, [] =>
      ([], Some (ValueError "zip() argument 2 is shorter than argument 1"))
  | x :: xs, t :: ts =>
      match body x t with
      | Raise e => ([], Some e)
      | Ok g => let '(gs, e) := zip_strict body xs ts in (g :: gs, e)
      end
  end.

(** [_get_gradients_from_iterable], from what [get_gradients] gives for one
    input and its target. *)
Definition _get_gradients_from_iterable {I G : Type}
    (get_gradients : I -> tensor Z -> result G) (model_inputs : list I)
    (targets : tensor Z) : list G * option exn :=
  match rows targets with
  | Raise e => ([], Some e)
  | Ok ts => zip_strict get_gradients model_inputs ts
  end.

(** Modelled from the spec: the static [process_target(targets, shape)] that
    [ClassificationAttributionExplainer] calls is not among the sources.  It
    normalises a target against the shape the logits have without their last
    axis: a 0-D target is promoted to 1-D, a 1-D target is repeated across
    the batch, a 2-D target with leading dimension 1 is repeated across the
    batch, and any other leading dimension that differs from the batch is a
    dimensionality error. *)
Definition process_target (target : tensor Z) (expected : list nat)
  : result (tensor Z) :=
  let target1 := match shape target with
                 | [] => {| shape := [1]; data := data target |}
                 | _ => target
                 end in
  match shape target1 with
  | [t] => expand target1 (map Z.of_nat (expected ++ [t]))
  | [n; _] =>
      match expected with
      | [] => Raise IndexError
      | b :: _ =>
          if n =? 1 then expand target1 [Z.of_nat b; (-1)%Z]
          else if n =? b then Ok target1
          else Raise (ValueError "Target leading dimension does not match the batch")
      end
  | _ =>
      Raise (ValueError "Target tensor should have 0, 1 or 2 dimensions")
  end.

End ClassificationInferenceWrapper.

(** ** interpreto/attributions/base.py *)

Module Attributions.

Import Torch.

(** [s.endswith(suffix)] *)
Fixpoint endswith (s suffix : string) : bool :=
  String.eqb s suffix ||
  match s with
  | EmptyString => false
  | String _ rest => endswith rest suffix
  end.

(** A class object: its name, the names of its bases, and whether its
    metaclass is [FactoryGeneratedMeta]. *)
Record pyclass : Type := {
  cls_name : string;
  cls_bases : list string;
  factory_generated : bool
}.

(** [FactoryGeneratedMeta(name, bases, {})] *)
Definition FactoryGeneratedMeta (name : string) (bases : list string) : pyclass :=
  {| cls_name := name; cls_bases := bases; factory_generated := true |}.

(** An explainer object, known by its class. *)
Record explainer : Type := {
  class_of : pyclass
}.

(** [MultitaskExplainerMixin.__new__(cls, model, ...)].  The call
    [t.__new__(t, model, ...)] on a generated class [t] enters the same
    method again and leaves it by the first test. *)
Definition new (cls : pyclass) (model_class_name : string) : result explainer :=
  if factory_generated cls then Ok {| class_of := cls |}
  else if endswith model_class_name "ForSequenceClassification" then
    let t := FactoryGeneratedMeta ("Classification" ++ cls_name cls)
               [cls_name cls; "ClassificationAttributionExplainer"] in
    Ok {| class_of := t |}
  else if endswith model_class_name "ForCausalLM"
          || endswith model_class_name "LMHeadModel" then
    let t := FactoryGeneratedMeta ("Generation" ++ cls_name cls)
               [cls_name cls; "GenerationAttributionExplainer"] in
    Ok {| class_of := t |}
  else Raise NotImplementedError.

(** Which task-specific explainer an object is, by the bases of its class. *)
Definition is_classification_explainer (e : explainer) : bool :=
  bool_decide ("ClassificationAttributionExplainer" ∈ cls_bases (class_of e)).

Definition is_generation_explainer (e : explainer) : bool :=
  bool_decide ("GenerationAttributionExplainer" ∈ cls_bases (class_of e)).

Section Classification.
Context {I : Type}.

(** The logits the wrapped model gives for one standardized input. *)
Variable get_logits : I -> tensor Qc.

(** [ClassificationAttributionExplainer.process_inputs_to_explain_and_targets] *)
Definition process_inputs_to_explain_and_targets (model_inputs : list I)
    (targets : option (tensor Z)) : result (list I * tensor Z) :=
  logits <- stack (map get_logits model_inputs) ;;
  targets1 <- match targets with
              | None => argmax_last logits
              | Some t => Ok t
              end ;;
  targets2 <- ClassificationInferenceWrapper.process_target targets1
                (removelast (shape logits)) ;;
  Ok (model_inputs, targets2).

End Classification.

(** A list comprehension whose body may raise: the items are taken in
    order and the first exception escapes. *)
Definition comprehension {A B : Type} (f : A -> result B)
  : list A -> result (list B) :=
  fix each (l : list A) : result (list B) :=
    match l with
    | [] => Ok []
    | a :: rest =>
        b <- f a ;;
        bs <- each rest ;;
        Ok (b :: bs)
    end.

(** A tensor mapping that has an attention mask: the mask, and the tensors
    under the other keys with their keys. *)
Record mapping : Type := {
  attention_mask : tensor Z;
  entries : list (string * tensor Z)
}.

(** The raw inputs [process_model_inputs] tells apart: a string, a mapping,
    an iterable of raw inputs, and a value that is none of them. *)
#[warnings="-register-all"]
Inductive model_inputs : Type :=
| InStr (s : string)
| InMapping (m : mapping)
| InIterable (items : list model_inputs)
| InOther.

(** [value[i].unsqueeze(0)] *)
Definition sample (i : nat) (value : tensor Z) : result (tensor Z) :=
  row <- select value (Z.of_nat i) ;;
  unsqueeze 0 row.

(** [{key: value[i].unsqueeze(0) for key, value in model_inputs.items()}] *)
Definition sample_mapping (m : mapping) (i : nat) : result mapping :=
  mask <- sample i (attention_mask m) ;;
  others <- comprehension (fun kv : string * tensor Z =>
                             v <- sample i (snd kv) ;; Ok (fst kv, v))
                          (entries m) ;;
  Ok {| attention_mask := mask; entries := others |}.

Section Standardize.

(** [self.tokenizer(text, return_tensors="pt", ...)] *)
Variable tokenizer : string -> mapping.

(** [AttributionExplainer.process_model_inputs] *)
Fixpoint process_model_inputs (x : model_inputs) : result (list mapping) :=
  match x with
  | InStr s => Ok [tokenizer s]
  | InMapping m =>
      match shape (attention_mask m) with
      | [] => Raise IndexError
      | n :: _ =>
          if 1 <? n then comprehension (sample_mapping m) (seq 0 n)
          else Ok [m]
      end
  | InIterable items =>
      parts <- comprehension process_model_inputs items ;;
      Ok (concat parts)
  | InOther =>
      Raise (ValueError "type not supported for method process_model_inputs")
  end.

End Standardize.

(** The targets [process_targets] tells apart; a mapping is known by the
    tensor under its key [input_ids]. *)
#[warnings="-register-all"]
Inductive generated_target : Type :=
| TgStr (s : string)
| TgMapping (input_ids : tensor Z)
| TgTensor (t : tensor Z)
| TgIterable (items : list generated_target)
| TgOther.

(** [list(t.split(1, dim=0))] for a tensor of [n] rows of shape [rest] *)
Definition split_rows (n : nat) (rest : list nat) (d : list Z) : list (tensor Z) :=
  map (fun i => {| shape := 1 :: rest; data := chunk (numel rest) i d |})
      (seq 0 n).

Section Targets.

(** [self.tokenizer(text, return_tensors="pt")["input_ids"]] *)
Variable tokenize_ids : string -> tensor Z.

(** [GenerationAttributionExplainer.process_targets] *)
Fixpoint process_targets (targets : generated_target) : result (list (tensor Z)) :=
  match targets with
  | TgStr s => Ok [tokenize_ids s]
  | TgMapping input_ids =>
      match shape input_ids with
      | [] => Raise IndexError
      | n :: rest =>
          if 1 <? n then Ok (split_rows n rest (data input_ids))
          else Ok [input_ids]
      end
  | TgTensor t => Ok [t]
  | TgIterable items =>
      parts <- comprehension process_targets items ;;
      Ok (concat parts)
  | TgOther =>
      Raise (ValueError "type not supported for method process_targets")
  end.

End Targets.

End Attributions.

(** ** interpreto/attributions/methods/sobol_attribution.py *)

Module SobolAttribution.

(** What [__init__] uses of the tokenizer and of the model: the vocabulary
    with the id of each token, and the number of rows of the embedding
    table. *)
Record tokenizer : Type := {
  vocab : gmap string nat
}.

Record model : Type := {
  embedding_rows : nat
}.

Definition get_vocab (tk : tokenizer) : gmap string nat := vocab tk.

(** [len(tokenizer)] *)
Definition len (tk : tokenizer) : nat := size (vocab tk).

(** [tokenizer.add_tokens(tokens)]: a token not yet known gets the next id. *)
Definition add_tokens (tk : tokenizer) (tokens : list string) : tokenizer :=
  fold_left (fun t tok =>
               match vocab t !! tok with
               | Some _ => t
               | None => {| vocab := <[tok := len t]> (vocab t) |}
               end)
            tokens tk.

(** [model.resize_token_embeddings(n)] *)
Definition resize_token_embeddings (m : model) (n : nat) : model :=
  {| embedding_rows := n |}.

(** [tokenizer.convert_tokens_to_ids(token)] *)
Definition convert_tokens_to_ids (tk : tokenizer) (token : string) : option nat :=
  vocab tk !! token.

Definition replace_token : string := "[REPLACE]".

(** The start of [SobolAttribution.__init__]: the tokenizer and the model
    as it leaves them, and the id of the replacement token. *)
Definition init (tk : tokenizer) (m : model) : tokenizer * model * option nat :=
  let '(tk1, m1) :=
    if bool_decide (replace_token ∈ dom (get_vocab tk)) then (tk, m)
    else
      let tk' := add_tokens tk [replace_token] in
      (tk', resize_token_embeddings m (len tk')) in
  (tk1, m1, convert_tokens_to_ids tk1 replace_token).

End SobolAttribution.


(** * Vocabulary of the properties *)

(** ** States of the fan-out of a generator of pairs *)

Section FanOutStates.
Import GeneratorTools.
Context {V : Type}.

Definition pair_tuple (p : V * V) : tuple V := [fst p; snd p].

Variable src : list (V * V).

(** The wrapper once the generator has been advanced [k] times. *)
Definition advanced_to (k : nat) : wrapper V :=
  {| generator := {| pending := drop k (map pair_tuple src); yielded := k |};
     index := 0;
     buffer := take k (map pair_tuple src) |}.

(** A consumer that has read [i] values through the component [proj]. *)
Definition reader (pos : Z) (proj : V * V -> V) (i : nat) (f : bool) : consumer V :=
  {| cursor := {| sg_position := PInt pos; sg_index := i |};
     received := map (fun p => Elem (proj p)) (take i src);
     finished := f;
     failure := None |}.

(** The same wrapper once its own [__next__] has returned [i] tuples. *)
Definition advanced_at (k i : nat) : wrapper V :=
  {| generator := {| pending := drop k (map pair_tuple src); yielded := k |};
     index := i;
     buffer := take k (map pair_tuple src) |}.

(** How often a side has its turn in a schedule. *)
Definition turns (side : bool) (schedule : list bool) : nat :=
  length (filter (fun b => b = side) schedule).

(** The states a fan-out of [src] goes through: the generator has been
    advanced as far as the cursor that is ahead, and a side that has not
    finished has read one value per turn. *)
Inductive reachable (schedule : list bool) : fanout V -> Prop :=
| Reached (ia ib : nat) (fa fb : bool) :
    ia <= length src -> ib <= length src ->
    (if fa then ia = length src else ia = turns true schedule) ->
    (if fb then ib = length src else ib = turns false schedule) ->
    reachable schedule {| shared := advanced_to (Nat.max ia ib);
                          side_a := reader 0 fst ia fa;
                          side_b := reader 1 snd ib fb |}.

End FanOutStates.

(** ** Slices, masks and gathered logits *)

(** The components a slice picks from one tuple. *)
Definition sliced {A : Type} (start stop step : option Z) (t : list A) : list A :=
  match GeneratorTools.getslice t start stop step with
  | Ok s => s
  | Raise _ => []
  end.

(** The mask the specification describes: a row of zeros above the
    identity. *)
Definition zero_row_above_identity (l : nat) : result (Torch.tensor Qc) :=
  Torch.cat0 (Torch.zeros [1; l]) (Torch.eye l).

(** A tokenizer with one token per character, and an embedding of one
    number per token. *)
Definition character_tokenizer : Occlusion.tokenizer :=
  {| Occlusion.tokenize := fun s => map (fun c => String c EmptyString)
                                        (list_ascii_of_string s);
     Occlusion.convert_token_to_id :=
       fun t => match t with
                | String c _ => Z.of_N (N_of_ascii c)
                | EmptyString => 0%Z
                end;
     Occlusion.mask_token := "#" |}.

Definition identity_embedding : Occlusion.embedding :=
  {| Occlusion.embedding_dim := 1; Occlusion.weight := fun z => [Qc_of_Z z] |}.

(** The logits [n x c] read at the positions of one row of targets, for
    each of the [n] members of the batch. *)
Definition gathered (logits : Torch.tensor Qc) (row : list Z) : Torch.tensor Qc :=
  let n := nth 0 (Torch.shape logits) 0 in
  let c := nth 1 (Torch.shape logits) 0 in
  {| Torch.shape := [n; length row];
     Torch.data := flat_map (fun b => map (fun z => nth (b * c + Z.to_nat z)
                                                  (Torch.data logits) 0%Qc) row)
                      (seq 0 n) |}.

(** The rows and columns of a target once it is viewed as 2-D. *)
Inductive rows_of (targets : Torch.tensor Z) : nat -> nat -> Prop :=
| rows_scalar : Torch.shape targets = [] -> rows_of targets 1 1
| rows_vector (t : nat) : Torch.shape targets = [t] -> rows_of targets 1 t
| rows_matrix (r t : nat) : Torch.shape targets = [r; t] -> rows_of targets r t.


(** ** Interpolated data *)

(** Each entry of a list repeated [m] times in a row. *)
Definition spread {A : Type} (m : nat) (l : list A) : list A :=
  concat (map (fun a => replicate m a) l).

(** The data of an interpolation on flat lists: [b] samples of [m]
    entries, a baseline of [m] entries, one variant for each step. *)
Definition interpolated {A : Type} (add mul : A -> A -> A) (complement : A -> A)
    (steps : list A) (b m : nat) (xd bd : list A) : list A :=
  let n := length steps in
  zip_with add
    (zip_with mul
       (concat (replicate b (spread m (map complement steps))))
       (concat (map (fun row => concat (replicate n row)) (Torch.chunks m b xd))))
    (concat (replicate b
       (zip_with mul (spread m steps) (concat (replicate n bd))))).

(** ** Floating-point numbers *)

(** A number that is neither an infinity nor NaN. *)
Definition finite (f : spec_float) : Prop :=
  match f with
  | S754_zero _ | S754_finite _ _ _ => True
  | _ => False
  end.

(** A finite number of the format of a dtype: its mantissa and exponent
    are the ones the format writes it with. *)
Definition in_format (d : LinearInterpolation.dtype) (f : spec_float) : Prop :=
  finite f
  /\ valid_binary (LinearInterpolation.precision d)
                  (LinearInterpolation.exponent d) f = true.

(** Equal as numbers: the same, or two zeros of whatever sign. *)
Definition same_number (u v : spec_float) : Prop :=
  u = v \/ exists s s', u = S754_zero s /\ v = S754_zero s'.


(** [(1 - a) * x + a * b] evaluated in floating point: the difference in
    float32, the products and the sum in the format of [d], each rounded
    to nearest, ties to even. *)
Definition blend (d : LinearInterpolation.dtype) (a x b : spec_float) : spec_float :=
  let p := LinearInterpolation.precision d in
  let e := LinearInterpolation.exponent d in
  SFadd p e (SFmul p e (SFsub 24 128 (S754_finite false 8388608 (-23)) a) x)
            (SFmul p e a b).

(** The steps of an interpolation of [n] steps: 0 first, 1 last, and the
    steps the library computes in between. *)
Definition step (inner : nat -> nat -> spec_float) (n k : nat) : spec_float :=
  if k =? 0 then S754_zero false
  else if k =? n - 1 then S754_finite false 8388608 (-23)
  else inner n k.


(** ** The last character of a class name *)

Fixpoint last_char (s : string) : option ascii :=
  match s with
  | EmptyString => None
  | String c EmptyString => Some c
  | String _ rest => last_char rest
  end.


(** ** Standardized inputs *)

(** A mapping that holds at most one sample. *)
Definition single_sample (m : Attributions.mapping) : Prop :=
  exists n rest,
    Torch.shape (Attributions.attention_mask m) = n :: rest /\ n <= 1.

(** Row [i] of the tensor under a key, kept as a batch of one. *)
Definition sample_of (i : nat) (kv kv' : string * Torch.tensor Z) : Prop :=
  fst kv' = fst kv
  /\ Torch.shape (snd kv') = 1 :: tl (Torch.shape (snd kv))
  /\ Torch.data (snd kv')
     = Torch.chunk (Torch.numel (tl (Torch.shape (snd kv)))) i (Torch.data (snd kv)).

(** A tensor that has no row [i]. *)
Definition lacks_row (i : nat) (t : Torch.tensor Z) : Prop :=
  match Torch.shape t with
  | [] => True
  | k :: _ => k <= i
  end.

(** A tokenizer call that returns one sample, with one id per character. *)
Definition character_mapping (s : string) : Attributions.mapping :=
  {| Attributions.attention_mask :=
       {| Torch.shape := [1; String.length s];
          Torch.data := replicate (String.length s) 1%Z |};
     Attributions.entries :=
       [("input_ids"%string,
         {| Torch.shape := [1; String.length s];
            Torch.data := map (fun c => Z.of_N (N_of_ascii c))
                              (list_ascii_of_string s) |})] |}.

(** A mapping of two samples, and the same with only one row of ids. *)
Definition two_samples : Attributions.mapping :=
  {| Attributions.attention_mask :=
       {| Torch.shape := [2; 2]; Torch.data := [1; 1; 1; 0]%Z |};
     Attributions.entries :=
       [("input_ids"%string,
         {| Torch.shape := [2; 2]; Torch.data := [5; 6; 7; 0]%Z |})] |}.

Definition ragged_samples : Attributions.mapping :=
  {| Attributions.attention_mask :=
       {| Torch.shape := [2; 2]; Torch.data := [1; 1; 1; 0]%Z |};
     Attributions.entries :=
       [("input_ids"%string,
         {| Torch.shape := [1; 2]; Torch.data := [5; 6]%Z |})] |}.
(** * Properties *)

(** ** The fan-out of a generator of pairs *)

Section FanOut.
Import GeneratorTools.
Context {V : Type}.
Variable src : list (V * V).

Local Abbreviation as_tuple := pair_tuple.
Let n : nat := length src.

Lemma new_wrapper_advanced : new_wrapper (pair_source src) = advanced_to src 0.
Proof. reflexivity. Qed.

Lemma complete_buffer_advanced (k : nat) (p : V * V) :
  src !! k = Some p ->
  complete_buffer (advanced_to src k) = (Ok tt, advanced_to src (S k)).
Proof.
  intros Hk. unfold complete_buffer, source_next, advanced_to; simpl.
  assert (Ht : map as_tuple src !! k = Some (as_tuple p))
    by (rewrite list_lookup_fmap, Hk; reflexivity).
  rewrite (drop_S _ _ _ Ht). simpl.
  rewrite (take_S_r _ _ _ Ht). reflexivity.
Qed.

Lemma complete_buffer_exhausted (k : nat) :
  n <= k ->
  complete_buffer (advanced_to src k) = (Raise StopIteration, advanced_to src k).
Proof.
  intros Hk. unfold complete_buffer, source_next, advanced_to; simpl.
  rewrite drop_ge by (rewrite length_map; exact Hk). reflexivity.
Qed.

Lemma buffer_advanced_length (k : nat) :
  k <= n -> length (buffer (advanced_to src k)) = k.
Proof.
  intros Hk. simpl. rewrite length_take, length_map. fold n. lia.
Qed.

Lemma buffer_advanced_lookup (k i : nat) (p : V * V) :
  i < k -> src !! i = Some p ->
  buffer (advanced_to src k) !! i = Some (as_tuple p).
Proof.
  intros Hi Hp. simpl. rewrite lookup_take_lt by exact Hi.
  rewrite list_lookup_fmap, Hp. reflexivity.
Qed.

Section OneSide.
Variable pos : Z.
Variable proj : V * V -> V.
Hypothesis pos_proj : forall p, getindex (as_tuple p) pos = Ok (proj p).

Lemma reader_extend (i : nat) (p : V * V) (f : bool) :
  src !! i = Some p ->
  {| cursor := {| sg_position := PInt pos; sg_index := S i |};
     received := received (reader src pos proj i f) ++ [Elem (proj p)];
     finished := false; failure := None |} = reader src pos proj (S i) false.
Proof.
  intros Hp. unfold reader; simpl.
  rewrite (take_S_r _ _ _ Hp), map_app. reflexivity.
Qed.

(** A cursor behind the buffer reads from it and leaves the generator
    alone. *)
Lemma step_behind (i k : nat) :
  i < k -> k <= n ->
  consumer_step (reader src pos proj i false) (advanced_to src k)
  = (reader src pos proj (S i) false, advanced_to src k).
Proof.
  intros Hi Hk.
  destruct (lookup_lt_is_Some_2 src i) as [p Hp]; [fold n; lia|].
  unfold consumer_step, subgenerator_next.
  cbn [finished reader cursor sg_index sg_position].
  rewrite buffer_advanced_length by exact Hk.
  replace (k <=? i) with false by (symmetry; apply Nat.leb_gt; exact Hi).
  rewrite (buffer_advanced_lookup k i p Hi Hp).
  cbn [tuple_getitem]. rewrite pos_proj. cbn [bind].
  rewrite (reader_extend i p false Hp). reflexivity.
Qed.

(** A cursor at the end of the buffer advances the generator once. *)
Lemma step_at_end (k : nat) :
  k < n ->
  consumer_step (reader src pos proj k false) (advanced_to src k)
  = (reader src pos proj (S k) false, advanced_to src (S k)).
Proof.
  intros Hk.
  destruct (lookup_lt_is_Some_2 src k) as [p Hp]; [fold n; lia|].
  unfold consumer_step, subgenerator_next.
  cbn [finished reader cursor sg_index sg_position].
  rewrite buffer_advanced_length by lia.
  rewrite Nat.leb_refl, (complete_buffer_advanced k p Hp).
  rewrite (buffer_advanced_lookup (S k) k p (Nat.lt_succ_diag_r k) Hp).
  cbn [tuple_getitem]. rewrite pos_proj. cbn [bind].
  rewrite (reader_extend k p false Hp). reflexivity.
Qed.

(** A cursor at the end of an exhausted generator stops. *)
Lemma step_exhausted :
  consumer_step (reader src pos proj n false) (advanced_to src n)
  = (reader src pos proj n true, advanced_to src n).
Proof.
  unfold consumer_step, subgenerator_next.
  cbn [finished reader cursor sg_index sg_position].
  rewrite buffer_advanced_length by lia.
  rewrite Nat.leb_refl, complete_buffer_exhausted by lia.
  reflexivity.
Qed.

Lemma step_finished (i k : nat) :
  consumer_step (reader src pos proj i true) (advanced_to src k)
  = (reader src pos proj i true, advanced_to src k).
Proof. reflexivity. Qed.

End OneSide.

Lemma turns_snoc (side b : bool) (schedule : list bool) :
  turns side (schedule ++ [b])
  = turns side schedule + (if bool_decide (b = side) then 1 else 0).
Proof.
  unfold turns. rewrite list.filter_app, length_app. f_equal.
  rewrite filter_cons, filter_nil.
  destruct (decide (b = side)) as [E|E].
  - rewrite bool_decide_eq_true_2 by exact E. reflexivity.
  - rewrite bool_decide_eq_false_2 by exact E. reflexivity.
Qed.

Lemma run_snoc (schedule : list bool) (b : bool) (s : fanout V) :
  run (schedule ++ [b]) s = fanout_step (run schedule s) b.
Proof. unfold run. rewrite fold_left_app. reflexivity. Qed.

Lemma fst_index (p : V * V) : getindex (as_tuple p) 0 = Ok (fst p).
Proof. reflexivity. Qed.

Lemma snd_index (p : V * V) : getindex (as_tuple p) 1 = Ok (snd p).
Proof. reflexivity. Qed.

(** One turn of a side whose cursor is at [i], the other cursor at [j]. *)
Lemma consumer_turn (pos : Z) (proj : V * V -> V) (i j : nat) (f : bool) :
  (forall p, getindex (as_tuple p) pos = Ok (proj p)) ->
  i <= n -> j <= n -> (if f then i = n else True) ->
  exists i' f',
    consumer_step (reader src pos proj i f) (advanced_to src (Nat.max i j))
    = (reader src pos proj i' f', advanced_to src (Nat.max i' j))
    /\ i' <= n
    /\ (if f' then i' = n else f = false /\ i' = S i).
Proof.
  intros Hpos Hi Hj Hf. destruct f.
  - exists i, true. rewrite step_finished. auto.
  - destruct (decide (i < n)) as [Hlt|Hge].
    + exists (S i), false. split; [|split; [lia|auto]].
      destruct (decide (i < j)) as [Hij|Hij].
      * rewrite (Nat.max_r i j) by lia.
        rewrite (Nat.max_r (S i) j) by lia.
        apply step_behind; [exact Hpos|lia|lia].
      * rewrite (Nat.max_l i j) by lia.
        rewrite (Nat.max_l (S i) j) by lia.
        apply step_at_end; [exact Hpos|lia].
    + assert (i = n) as -> by lia.
      exists n, true. rewrite (Nat.max_l n j) by lia.
      rewrite step_exhausted by exact Hpos. auto.
Qed.

Lemma reachable_run (schedule : list bool) :
  reachable src schedule (run schedule (split_pairs src)).
Proof.
  induction schedule as [|b schedule IH] using rev_ind.
  - apply (Reached src [] 0 0 false false); try reflexivity; lia.
  - rewrite run_snoc. destruct IH as [i j f g Hi Hj Hf Hg].
    unfold fanout_step. destruct b; cbn [shared side_a side_b].
    + destruct (consumer_turn 0 fst i j f fst_index Hi Hj) as (i' & f' & -> & Hi' & Hf').
      { destruct f; auto. }
      apply (Reached src _ i' j f' g); try assumption.
      * rewrite turns_snoc. destruct f'; [exact Hf'|].
        destruct Hf' as [-> ->]. subst i. rewrite bool_decide_eq_true_2 by reflexivity. lia.
      * rewrite turns_snoc. destruct g; [exact Hg|].
        rewrite bool_decide_eq_false_2 by discriminate. lia.
    + rewrite (Nat.max_comm i j).
      destruct (consumer_turn 1 snd j i g snd_index Hj Hi) as (j' & g' & -> & Hj' & Hg').
      { destruct g; auto. }
      rewrite (Nat.max_comm j' i).
      apply (Reached src _ i j' f g'); try assumption.
      * rewrite turns_snoc. destruct f; [exact Hf|].
        rewrite bool_decide_eq_false_2 by discriminate. lia.
      * rewrite turns_snoc. destruct g'; [exact Hg'|].
        destruct Hg' as [-> ->]. subst j. rewrite bool_decide_eq_true_2 by reflexivity. lia.
Qed.

(** C2: for a generator of [n] pairs behind a
    [PersistentTupleGeneratorWrapper], where one consumer reads the cursor
    over first components and another the cursor over second components,
    each until [StopIteration], then after any schedule of their turns:
    the generator has been advanced once per buffer entry, as far as the
    cursor that is ahead and never more than [n] times; each side has
    received the components of the pairs in source order; a side that has
    had more than [n] turns has finished; and a side that has finished has
    received exactly the [n] components of its side. *)
Theorem fanout_any_interleaving (schedule : list bool) :
  let s := run schedule (split_pairs src) in
  let g := generator (shared s) in
  yielded g = length (buffer (shared s))
  /\ buffer (shared s) = take (yielded g) (pending (pair_source src))
  /\ yielded g = Nat.max (sg_index (cursor (side_a s))) (sg_index (cursor (side_b s)))
  /\ yielded g <= length src
  /\ received (side_a s)
     = map (fun p => Elem (fst p)) (take (sg_index (cursor (side_a s))) src)
  /\ received (side_b s)
     = map (fun p => Elem (snd p)) (take (sg_index (cursor (side_b s))) src)
  /\ failure (side_a s) = None
  /\ failure (side_b s) = None
  /\ (length src < turns true schedule -> finished (side_a s) = true)
  /\ (length src < turns false schedule -> finished (side_b s) = true)
  /\ (finished (side_a s) = true ->
      received (side_a s) = map (fun p => Elem (fst p)) src)
  /\ (finished (side_b s) = true ->
      received (side_b s) = map (fun p => Elem (snd p)) src).
Proof.
  cbv zeta. destruct (reachable_run schedule) as [i j f g Hi Hj Hf Hg].
  cbn [shared side_a side_b generator yielded buffer advanced_to reader
       cursor sg_index received failure finished pair_source pending].
  fold n. repeat split.
  - rewrite length_take, length_map. fold n. lia.
  - lia.
  - intros Hn. destruct f; [reflexivity|]. subst i. lia.
  - intros Hn. destruct g; [reflexivity|]. subst j. lia.
  - intros ->. subst i. unfold n. rewrite take_ge by lia. reflexivity.
  - intros ->. subst j. unfold n. rewrite take_ge by lia. reflexivity.
Qed.

End FanOut.

(** Draining the first cursor and then the second, on three pairs. *)
Example fanout_one_after_the_other :
  let s := GeneratorTools.run
             [true; true; true; true; false; false; false; false]
             (GeneratorTools.split_pairs [(1, 10); (2, 20); (3, 30)]) in
  GeneratorTools.received (GeneratorTools.side_a s)
  = [GeneratorTools.Elem 1; GeneratorTools.Elem 2; GeneratorTools.Elem 3]
  /\ GeneratorTools.received (GeneratorTools.side_b s)
     = [GeneratorTools.Elem 10; GeneratorTools.Elem 20; GeneratorTools.Elem 30]
  /\ GeneratorTools.yielded (GeneratorTools.generator (GeneratorTools.shared s)) = 3.
Proof. repeat split. Qed.

(** ** A cursor made from a slice *)

Section SliceCursor.
Import GeneratorTools.
Context {V : Type}.

Lemma getslice_sliced {A : Type} (start stop step : option Z) (t : list A) :
  step <> Some 0%Z -> getslice t start stop step = Ok (sliced start stop step t).
Proof.
  intros Hstep. unfold sliced, getslice, slice_indices.
  destruct step as [st|]; cbn [bind].
  - destruct (Z.eqb_spec st 0) as [->|_]; [congruence|]. reflexivity.
  - reflexivity.
Qed.

Lemma omap_lookup_seq {A : Type} (l : list A) (a m : nat) :
  a + m <= length l ->
  omap (fun k : nat => l !! (a + k)) (seq 0 m) = take m (drop a l).
Proof.
  revert a. induction m as [|m IH]; intros a Hm.
  - reflexivity.
  - destruct (lookup_lt_is_Some_2 l a) as [x Hx]; [lia|].
    rewrite (drop_S _ _ _ Hx). cbn [seq take omap list_omap].
    rewrite Nat.add_0_r, Hx. f_equal.
    rewrite <- (IH (S a)) by lia.
    apply list_omap_ext, Forall2_same_length_lookup_2;
      [rewrite !length_seq; reflexivity|].
    intros i k k' Hk Hk'.
    apply lookup_seq in Hk as [-> _]. apply lookup_seq in Hk' as [-> _].
    f_equal. lia.
Qed.

(** On a list, [l[a:b]] with [0 <= a <= b <= len(l)] is the contiguous
    run of the entries from [a] up to [b]. *)
Lemma getslice_contiguous {A : Type} (l : list A) (a b : nat) :
  a <= b -> b <= length l ->
  getslice l (Some (Z.of_nat a)) (Some (Z.of_nat b)) None
  = Ok (take (b - a) (drop a l)).
Proof.
  intros Hab Hb. unfold getslice, slice_indices, clamp. cbn [bind Z.eqb].
  replace (Z.of_nat a <? 0)%Z with false by (symmetry; apply Z.ltb_ge; lia).
  replace (Z.of_nat b <? 0)%Z with false by (symmetry; apply Z.ltb_ge; lia).
  replace (1 <? 0)%Z with false by reflexivity.
  assert (Hlo : (if (Z.of_nat (length l) <=? Z.of_nat a)%Z
                 then Z.of_nat (length l) else Z.of_nat a) = Z.of_nat a).
  { destruct (Z.leb_spec (Z.of_nat (length l)) (Z.of_nat a)); lia. }
  assert (Hhi : (if (Z.of_nat (length l) <=? Z.of_nat b)%Z
                 then Z.of_nat (length l) else Z.of_nat b) = Z.of_nat b).
  { destruct (Z.leb_spec (Z.of_nat (length l)) (Z.of_nat b)); lia. }
  rewrite Hlo, Hhi. f_equal.
  assert (Hlen : slice_length (Z.of_nat a) (Z.of_nat b) 1 = b - a).
  { unfold slice_length. replace (1 <? 0)%Z with false by reflexivity.
    destruct (Z.ltb_spec (Z.of_nat a) (Z.of_nat b)); [|lia].
    rewrite Z.div_1_r. lia. }
  rewrite Hlen, <- omap_lookup_seq by lia.
  apply list_omap_ext, Forall2_same_length_lookup_2; [reflexivity|].
  intros i k k' Hk Hk'. rewrite Hk in Hk'. injection Hk' as <-.
  f_equal. lia.
Qed.

Lemma drain_slice_cursor (start stop step : option Z)
    (p b : list (tuple V)) (y i fuel : nat) :
  step <> Some 0%Z -> length p < fuel ->
  drain fuel {| sg_position := PSlice start stop step; sg_index := length b |}
        {| generator := {| pending := p; yielded := y |};
           index := i; buffer := b |}
  = Some (Ok (map (fun t => Sub (sliced start stop step t)) p),
          {| sg_position := PSlice start stop step;
             sg_index := length b + length p |},
          {| generator := {| pending := []; yielded := y + length p |};
             index := i; buffer := b ++ p |}).
Proof.
  intros Hstep. revert b y fuel.
  induction p as [|t p IH]; intros b y fuel Hfuel;
    (destruct fuel as [|fuel]; [cbn in Hfuel; lia|]).
  - cbn [drain]. unfold subgenerator_next, complete_buffer, source_next.
    cbn [sg_index buffer generator pending]. rewrite Nat.leb_refl.
    cbn [length map]. rewrite app_nil_r, !Nat.add_0_r. reflexivity.
  - cbn [drain]. unfold subgenerator_next, complete_buffer, source_next.
    cbn [sg_index sg_position buffer generator pending index yielded].
    rewrite Nat.leb_refl. cbn [buffer].
    rewrite lookup_app_r, Nat.sub_diag by lia. cbn [lookup list_lookup].
    cbn [tuple_getitem]. rewrite (getslice_sliced _ _ _ t Hstep). cbn [bind].
    replace (S (length b)) with (length (b ++ [t])) by (rewrite length_app; cbn; lia).
    rewrite IH by (cbn in Hfuel; lia).
    rewrite <- app_assoc, length_app. cbn [length map app].
    replace (length b + 1 + length p) with (length b + S (length p)) by lia.
    replace (S y + length p) with (y + S (length p)) by lia.
    reflexivity.
Qed.

(** C3, as the code has it: the cursor [get_subgenerator] (or
    [__getitem__]) returns for a slice with a step other than zero runs
    over the whole produced sequence from its first entry, and its k-th
    value is the slice of the components of the k-th tuple; draining it
    advances the generator once per tuple. *)
Theorem slice_cursor_slices_each_tuple (ts : list (tuple V))
    (start stop step : option Z) (extra : nat) :
  step <> Some 0%Z ->
  getitem (PSlice start stop step) = get_subgenerator (PSlice start stop step)
  /\ Forall (fun t => tuple_getitem t (PSlice start stop step)
                      = Ok (Sub (sliced start stop step t))) ts
  /\ drain (S (length ts) + extra) (get_subgenerator (PSlice start stop step))
           (new_wrapper {| pending := ts; yielded := 0 |})
     = Some (Ok (map (fun t => Sub (sliced start stop step t)) ts),
             {| sg_position := PSlice start stop step; sg_index := length ts |},
             {| generator := {| pending := []; yielded := length ts |};
                index := 0; buffer := ts |}).
Proof.
  intros Hstep. split; [reflexivity|]. split.
  - apply Forall_forall. intros t _. cbn [tuple_getitem].
    rewrite (getslice_sliced _ _ _ t Hstep). reflexivity.
  - apply (drain_slice_cursor start stop step ts [] 0 0 _ Hstep). lia.
Qed.

End SliceCursor.

Lemma slice_cursor_slices_each_tuple_witness :
  GeneratorTools.drain 4
    (GeneratorTools.get_subgenerator (GeneratorTools.PSlice (Some 0%Z) (Some 1%Z) None))
    (GeneratorTools.new_wrapper
       {| GeneratorTools.pending := [[1; 10]; [2; 20]; [3; 30]];
          GeneratorTools.yielded := 0 |})
  = Some (Ok [GeneratorTools.Sub [1]; GeneratorTools.Sub [2]; GeneratorTools.Sub [3]],
          {| GeneratorTools.sg_position :=
               GeneratorTools.PSlice (Some 0%Z) (Some 1%Z) None;
             GeneratorTools.sg_index := 3 |},
          {| GeneratorTools.generator :=
               {| GeneratorTools.pending := []; GeneratorTools.yielded := 3 |};
             GeneratorTools.index := 0;
             GeneratorTools.buffer := [[1; 10]; [2; 20]; [3; 30]] |}).
Proof.
  apply (slice_cursor_slices_each_tuple [[1; 10]; [2; 20]; [3; 30]]
           (Some 0%Z) (Some 1%Z) None 0).
  discriminate.
Defined.

(** C3 as the specification words it fails: on three pairs, the cursor for
    the slice [1:3] does not run over the second and third pair; it yields,
    for each of the three pairs, the 1-tuple of its second component. *)
Lemma slice_cursor_is_not_a_sub_range :
  let tuples := [[1; 10]; [2; 20]; [3; 30]] in
  let c := GeneratorTools.getitem (GeneratorTools.PSlice (Some 1%Z) (Some 3%Z) None) in
  let w := GeneratorTools.new_wrapper
             {| GeneratorTools.pending := tuples; GeneratorTools.yielded := 0 |} in
  GeneratorTools.getslice tuples (Some 1%Z) (Some 3%Z) None = Ok [[2; 20]; [3; 30]]
  /\ (fst <$> (fst <$> GeneratorTools.drain 4 c w))
     = Some (Ok [GeneratorTools.Sub [10]; GeneratorTools.Sub [20];
                 GeneratorTools.Sub [30]])
  /\ (fst <$> (fst <$> GeneratorTools.drain 4 c w))
     <> Some (Ok (map GeneratorTools.Sub [[2; 20]; [3; 30]])).
Proof. cbv zeta. split; [reflexivity|]. split; [reflexivity|]. discriminate. Qed.


(** ** Facts about the tensor operations *)

Section TorchFacts.
Import Torch.
Context {A : Type}.

Lemma numel_cons (a : nat) (s : list nat) : numel (a :: s) = a * numel s.
Proof. reflexivity. Qed.

Lemma numel_app (s1 s2 : list nat) : numel (s1 ++ s2) = numel s1 * numel s2.
Proof.
  induction s1 as [|a s1 IH]; cbn [app].
  - cbn. lia.
  - rewrite !numel_cons, IH. lia.
Qed.

Lemma numel_ones (r : nat) : numel (replicate r 1) = 1.
Proof. induction r as [|r IH]; [reflexivity|]. cbn [replicate]. rewrite numel_cons, IH. reflexivity. Qed.

Lemma length_chunk (m i : nat) (d : list A) :
  (i + 1) * m <= length d -> length (chunk m i d) = m.
Proof. intros H. unfold chunk. rewrite length_take, length_drop. lia. Qed.

Lemma chunks_S (m k : nat) (d : list A) :
  chunks m (S k) d = chunks m k d ++ [chunk m k d].
Proof. unfold chunks. rewrite seq_S, map_app. reflexivity. Qed.

Lemma length_chunks (m k : nat) (d : list A) : length (chunks m k d) = k.
Proof. unfold chunks. rewrite length_map, length_seq. reflexivity. Qed.

Lemma lookup_chunks (m k i : nat) (d : list A) :
  i < k -> chunks m k d !! i = Some (chunk m i d).
Proof.
  intros Hi. unfold chunks. rewrite list_lookup_fmap.
  rewrite (proj2 (lookup_seq 0 k i i)) by (split; [reflexivity|exact Hi]).
  reflexivity.
Qed.

Lemma concat_chunks_take (m k : nat) (d : list A) :
  concat (chunks m k d) = take (k * m) d.
Proof.
  induction k as [|k IH].
  - reflexivity.
  - rewrite chunks_S, concat_app, IH. cbn [concat]. rewrite app_nil_r.
    unfold chunk. rewrite take_take_drop. f_equal. lia.
Qed.

Lemma concat_chunks (m k : nat) (d : list A) :
  length d = k * m -> concat (chunks m k d) = d.
Proof. intros H. rewrite concat_chunks_take, take_ge by lia. reflexivity. Qed.

Lemma chunk_whole (m : nat) (d : list A) : length d = m -> chunk m 0 d = d.
Proof. intros H. unfold chunk. cbn [Nat.mul drop]. apply take_ge. lia. Qed.

Lemma Forall_chunks_length (m k : nat) (d : list A) :
  length d = k * m -> Forall (fun row => length row = m) (chunks m k d).
Proof.
  intros H. apply Forall_lookup. intros i row Hrow.
  assert (Hi : i < k).
  { apply lookup_lt_Some in Hrow. rewrite length_chunks in Hrow. exact Hrow. }
  rewrite (lookup_chunks m k i d Hi) in Hrow. injection Hrow as <-.
  apply length_chunk. nia.
Qed.

(** Entry [j] of row [i] of rows of the same length laid end to end. *)
Lemma lookup_concat_uniform (m : nat) (rows : list (list A)) (i j : nat) :
  Forall (fun row => length row = m) rows -> j < m ->
  concat rows !! (i * m + j) = rows !! i ≫= (fun row => row !! j).
Proof.
  intros Hrows Hj. revert i. induction Hrows as [|row rows Hrow _ IH]; intros i.
  - reflexivity.
  - cbn [concat]. destruct i as [|i].
    + cbn. rewrite lookup_app_l by lia. reflexivity.
    + rewrite lookup_app_r by (rewrite Hrow; lia). rewrite Hrow.
      replace (S i * m + j - m) with (i * m + j) by lia. apply IH.
Qed.

Lemma length_concat_uniform (m : nat) (rows : list (list A)) :
  Forall (fun row => length row = m) rows ->
  length (concat rows) = length rows * m.
Proof.
  induction 1 as [|row rows Hrow _ IH]; [reflexivity|].
  cbn [concat length]. rewrite length_app, IH, Hrow. lia.
Qed.

Lemma chunk_concat_uniform (m : nat) (rows : list (list A)) (i : nat) (row : list A) :
  Forall (fun r => length r = m) rows -> rows !! i = Some row ->
  chunk m i (concat rows) = row.
Proof.
  intros Hrows. revert i. induction Hrows as [|r rows Hr _ IH]; intros i Hi.
  - discriminate.
  - unfold chunk. cbn [concat]. destruct i as [|i].
    + injection Hi as ->. cbn [Nat.mul]. rewrite drop_0.
      rewrite take_app_le by lia. apply take_ge. lia.
    + rewrite drop_app_ge by (rewrite Hr; lia). rewrite Hr.
      replace (S i * m - m) with (i * m) by lia. apply IH, Hi.
Qed.

Lemma chunks_concat_uniform (m : nat) (rows : list (list A)) :
  Forall (fun r => length r = m) rows ->
  chunks m (length rows) (concat rows) = rows.
Proof.
  intros Hrows. apply list_eq. intros i.
  destruct (decide (i < length rows)) as [Hi|Hi].
  - rewrite lookup_chunks by exact Hi.
    destruct (lookup_lt_is_Some_2 rows i Hi) as [row Hrow].
    rewrite Hrow. f_equal. apply chunk_concat_uniform; assumption.
  - rewrite !lookup_ge_None_2; [reflexivity|lia|rewrite length_chunks; lia].
Qed.

(** Expanding to the same shape changes nothing. *)
Lemma expand_data_same (s : list nat) (d : list A) :
  length d = numel s -> expand_data s s d = d.
Proof.
  revert d. induction s as [|a s IH]; intros d Hd.
  - reflexivity.
  - cbn [expand_data]. rewrite Nat.eqb_refl. rewrite numel_cons in Hd.
    transitivity (concat (chunks (numel s) a d)); [|apply concat_chunks, Hd].
    f_equal. rewrite <- (map_id (chunks (numel s) a d)) at 2.
    apply map_ext_Forall.
    pose proof (Forall_chunks_length (numel s) a d Hd) as Hrows.
    rewrite Forall_forall in Hrows. apply Forall_forall.
    intros row Hrow. apply IH, Hrows, Hrow.
Qed.

(** A single entry expanded from a shape of ones fills the whole shape. *)
Lemma expand_data_ones (s : list nat) (a : A) :
  expand_data (replicate (length s) 1) s [a] = replicate (numel s) a.
Proof.
  induction s as [|k s IH].
  - reflexivity.
  - cbn [length replicate expand_data]. rewrite numel_ones, numel_cons.
    assert (Hrow : expand_data (replicate (length s) 1) s (chunk 1 0 [a])
                   = replicate (numel s) a) by exact IH.
    destruct (Nat.eqb_spec 1 k) as [<-|_].
    + cbn [chunks seq map concat]. rewrite Hrow, app_nil_r.
      cbn [Nat.mul]. rewrite Nat.add_0_r. reflexivity.
    + rewrite Hrow. clear. induction k as [|k IH]; [reflexivity|].
      cbn [replicate concat]. rewrite IH, <- replicate_add. reflexivity.
Qed.

(** A leading dimension of size one is repeated. *)
Lemma expand_data_stretch (f g : list nat) (t : nat) (d : list A) :
  length d = numel f ->
  expand_data (1 :: f) (t :: g) d = concat (replicate t (expand_data f g d)).
Proof.
  intros Hd. cbn [expand_data]. rewrite (chunk_whole _ d Hd).
  destruct (Nat.eqb_spec 1 t) as [<-|_]; [|reflexivity].
  cbn [chunks seq map]. rewrite (chunk_whole _ d Hd). reflexivity.
Qed.

(** A leading dimension that agrees is kept, row by row. *)
Lemma expand_data_keep (f g : list nat) (k : nat) (d : list A) :
  expand_data (k :: f) (k :: g) d
  = concat (map (expand_data f g) (chunks (numel f) k d)).
Proof. cbn [expand_data]. rewrite Nat.eqb_refl. reflexivity. Qed.

Lemma concat_replicate_length (k : nat) (d : list A) :
  length (concat (replicate k d)) = k * length d.
Proof.
  rewrite (length_concat_uniform (length d)), length_replicate; [reflexivity|].
  apply Forall_replicate. reflexivity.
Qed.

Lemma lookup_concat_replicate (k i j : nat) (d : list A) :
  i < k -> j < length d ->
  concat (replicate k d) !! (i * length d + j) = d !! j.
Proof.
  intros Hi Hj.
  rewrite (lookup_concat_uniform (length d)); [|apply Forall_replicate; reflexivity|exact Hj].
  rewrite lookup_replicate_2 by exact Hi. reflexivity.
Qed.

(** The last dimension kept and leading dimensions added: the data is
    repeated once per added position. *)
Lemma expand_data_leading (s : list nat) (t : nat) (d : list A) :
  length d = t ->
  expand_data (replicate (length s) 1 ++ [t]) (s ++ [t]) d
  = concat (replicate (numel s) d).
Proof.
  intros Hd. induction s as [|k s IH].
  - cbn [length replicate app]. rewrite (expand_data_same [t] d).
    + cbn. rewrite app_nil_r. reflexivity.
    + cbn. lia.
  - cbn [length replicate app]. rewrite expand_data_stretch.
    + rewrite IH, numel_cons. clear.
      induction k as [|k IH]; [reflexivity|].
      cbn [replicate concat Nat.mul]. rewrite IH, replicate_add, concat_app.
      reflexivity.
    + rewrite numel_app, numel_ones. cbn. lia.
Qed.

Lemma stack_same_shape (ts : list (tensor A)) (s : list nat) :
  ts <> [] -> Forall (fun t => shape t = s) ts ->
  stack ts = Ok {| shape := length ts :: s; data := concat (map data ts) |}.
Proof.
  intros Hne Hs. unfold stack. destruct ts as [|t0 ts]; [congruence|].
  assert (H0 : shape t0 = s) by (inversion Hs; assumption).
  assert (Hall : forallb (fun t => bool_decide (shape t = shape t0)) (t0 :: ts) = true).
  { apply forallb_forall. intros t Ht. apply bool_decide_eq_true_2.
    rewrite Forall_forall in Hs. rewrite H0. apply Hs, Ht. }
  rewrite Hall, H0. reflexivity.
Qed.

End TorchFacts.

(** ** Token occlusion *)

Section OcclusionFacts.
Import Torch Occlusion.

Lemma eye_lookup (n i j : nat) :
  i < n -> j < n ->
  data (eye n) !! (i * n + j) = Some (if decide (i = j) then 1%Qc else 0%Qc).
Proof.
  intros Hi Hj. unfold eye. cbn [data]. rewrite flat_map_concat_map.
  rewrite (lookup_concat_uniform n); [|apply Forall_fmap, Forall_forall|exact Hj].
  - rewrite list_lookup_fmap.
    rewrite (proj2 (lookup_seq 0 n i i)) by (split; [reflexivity|exact Hi]).
    cbn. rewrite list_lookup_fmap.
    rewrite (proj2 (lookup_seq 0 n j j)) by (split; [reflexivity|exact Hj]).
    cbn. destruct (Nat.eqb_spec i j); destruct (decide (i = j)); congruence.
  - intros x _. cbn. rewrite length_map, length_seq. reflexivity.
Qed.

Lemma variations_length (p : TokenOcclusionPerturbator) (tokens : list string) :
  length (variations p tokens) = length tokens.
Proof. unfold variations. rewrite length_map, length_seq. reflexivity. Qed.

Lemma variations_lookup (p : TokenOcclusionPerturbator) (tokens : list string)
    (i : nat) :
  i < length tokens ->
  variations p tokens !! i
  = Some (convert_tokens_to_ids (tokenizer_of p) (<[i := mask_value p]> tokens)).
Proof.
  intros Hi. unfold variations. rewrite list_lookup_fmap.
  rewrite (proj2 (lookup_seq 0 (length tokens) i i)) by (split; [reflexivity|exact Hi]).
  cbn [fmap option_fmap option_map]. do 2 f_equal.
  rewrite insert_take_drop by exact Hi. rewrite Nat.add_1_r. reflexivity.
Qed.

(** C1, as the code has it: for a sentence of [l >= 1] tokens, [perturb]
    returns [l] variants, where variant [i] (from 0) is the sentence with
    token [i] replaced by the mask token, embedded and stacked under a
    batch dimension of one, and returns the [l x l] identity as the mask. *)
Theorem occlusion_perturb (p : TokenOcclusionPerturbator) (inputs : string) :
  let tokens := tokenize (tokenizer_of p) inputs in
  let l := length tokens in
  1 <= l ->
  exists embeddings,
    perturb p inputs = Ok (embeddings, eye l)
    /\ shape embeddings = [1; l; l; embedding_dim (inputs_embeddings p)]
    /\ data embeddings
       = flat_map (fun ids => data (embed (inputs_embeddings p) ids))
                  (variations p tokens)
    /\ length (variations p tokens) = l
    /\ (forall i, i < l ->
          variations p tokens !! i
          = Some (convert_tokens_to_ids (tokenizer_of p)
                    (<[i := mask_value p]> tokens)))
    /\ shape (eye l) = [l; l]
    /\ (forall i j, i < l -> j < l ->
          data (eye l) !! (i * l + j)
          = Some (if decide (i = j) then 1%Qc else 0%Qc)).
Proof.
  intros tokens l Hl. unfold perturb. fold tokens.
  rewrite (stack_same_shape _ [l; embedding_dim (inputs_embeddings p)]).
  - cbn [bind]. unfold unsqueeze, dim. cbn [shape data length].
    change (0 <? 0)%Z with false.
    match goal with |- context [(?a <? 0)%Z] =>
      replace (a <? 0)%Z with false by (symmetry; apply Z.ltb_ge; lia) end.
    cbn [orb Z.to_nat take drop app bind].
    eexists. split; [reflexivity|]. cbn [shape data].
    rewrite length_map, variations_length. fold l.
    split; [reflexivity|].
    split; [rewrite flat_map_concat_map, map_map; reflexivity|].
    split; [reflexivity|].
    split; [intros i Hi; apply variations_lookup; exact Hi|].
    split; [reflexivity|]. intros i j. apply eye_lookup.
  - intros H. apply (f_equal length) in H.
    rewrite length_map, variations_length in H. cbn in H. fold l in H. lia.
  - apply Forall_fmap, Forall_lookup. intros i ids Hids. cbn.
    assert (Hi : i < l).
    { apply lookup_lt_Some in Hids. rewrite variations_length in Hids. exact Hids. }
    rewrite (variations_lookup p tokens i Hi) in Hids. injection Hids as <-.
    unfold convert_tokens_to_ids. rewrite length_map, length_insert. reflexivity.
Qed.

End OcclusionFacts.

Lemma occlusion_perturb_witness :
  exists embeddings,
    Occlusion.perturb (Occlusion.init character_tokenizer identity_embedding None) "ab"
    = Ok (embeddings, Torch.eye 2)
    /\ Torch.shape embeddings = [1; 2; 2; 1]
    /\ Occlusion.variations
         (Occlusion.init character_tokenizer identity_embedding None) ["a"; "b"]%string
       !! 1 = Some [97%Z; 35%Z].
Proof.
  destruct (occlusion_perturb
              (Occlusion.init character_tokenizer identity_embedding None) "ab")
    as (e & Hp & Hs & _ & _ & Hv & _).
  - cbn. lia.
  - exists e. split; [exact Hp|]. split; [exact Hs|]. apply (Hv 1). cbn. lia.
Defined.

(** C1 as the specification words it fails: a sentence of two tokens gets
    two variants, none of them the sentence itself, and the 2 x 2 identity
    as its mask, where the specification has three variants and a 3 x 2
    mask that starts with a row of zeros. *)
Lemma occlusion_has_no_unperturbed_variant :
  let p := Occlusion.init character_tokenizer identity_embedding None in
  Occlusion.perturb p "ab"
  = Ok ({| Torch.shape := [1; 2; 2; 1];
           Torch.data := map Qc_of_Z [35; 98; 97; 35]%Z |},
        {| Torch.shape := [2; 2]; Torch.data := [1; 0; 0; 1]%Qc |})
  /\ Occlusion.variations p (Occlusion.tokenize character_tokenizer "ab")
     = [[35; 98]; [97; 35]]%Z
  /\ Occlusion.convert_tokens_to_ids character_tokenizer
       (Occlusion.tokenize character_tokenizer "ab") = [97; 98]%Z
  /\ zero_row_above_identity 2
     = Ok {| Torch.shape := [3; 2]; Torch.data := [0; 0; 1; 0; 0; 1]%Qc |}.
Proof. cbv zeta. repeat split. Qed.

(** ** Targets brought to the shape of the logits *)

Section ProcessTarget.
Import Torch ClassificationInferenceWrapper.

Lemma existsb_negative_of_nat (s : list nat) :
  existsb (fun z => z <? 0)%Z (map Z.of_nat s) = false.
Proof.
  induction s as [|k s IH]; [reflexivity|].
  cbn [map existsb]. rewrite IH, orb_false_r. apply Z.ltb_ge. lia.
Qed.

Lemma expand_shape_leading (s : list nat) (t : nat) :
  expand_shape (replicate (length s) 1 ++ [t]) (map Z.of_nat (s ++ [t]))
  = Ok (s ++ [t]).
Proof.
  induction s as [|k s IH].
  - cbn. rewrite Nat2Z.id, Nat.eqb_refl.
    destruct (Z.eqb_spec (Z.of_nat t) (-1)); [lia|].
    destruct (Z.ltb_spec (Z.of_nat t) (-1)); [lia|]. reflexivity.
  - cbn [length replicate app map expand_shape]. rewrite IH. cbn [bind].
    destruct (Z.eqb_spec (Z.of_nat k) (-1)); [lia|].
    destruct (Z.ltb_spec (Z.of_nat k) (-1)); [lia|].
    rewrite Nat2Z.id. destruct (Nat.eqb_spec 1 k) as [<-|_]; reflexivity.
Qed.

(** A 1-D tensor expanded under added leading dimensions. *)
Lemma expand_leading {A : Type} (x : tensor A) (s : list nat) (t : nat) :
  shape x = [t] -> length (data x) = t ->
  expand x (map Z.of_nat (s ++ [t]))
  = Ok {| shape := s ++ [t]; data := concat (replicate (numel s) (data x)) |}.
Proof.
  intros Hs Hd. unfold expand, dim. rewrite Hs, length_map, length_app.
  cbn [length]. replace (length s + 1 - 1) with (length s) by lia.
  replace (length s + 1 <? 1) with false by (symmetry; apply Nat.ltb_ge; lia).
  rewrite map_app, take_app_length' by (rewrite length_map; reflexivity).
  rewrite existsb_negative_of_nat, <- map_app, expand_shape_leading.
  cbn [bind]. rewrite expand_data_leading by exact Hd. reflexivity.
Qed.

(** A tensor of one row expanded to [n] rows. *)
Lemma expand_rows {A : Type} (x : tensor A) (n t : nat) :
  shape x = [1; t] -> length (data x) = t ->
  expand x [Z.of_nat n; (-1)%Z]
  = Ok {| shape := [n; t]; data := concat (replicate n (data x)) |}.
Proof.
  intros Hs Hd. unfold expand, dim. rewrite Hs. cbn [length Nat.sub Nat.ltb Nat.leb take existsb replicate app].
  assert (Hshape : expand_shape [1; t] [Z.of_nat n; (-1)%Z] = Ok [n; t]).
  { cbn. destruct (Z.eqb_spec (Z.of_nat n) (-1)); [lia|].
    destruct (Z.ltb_spec (Z.of_nat n) (-1)); [lia|].
    rewrite Nat2Z.id. destruct n as [|[|n]]; reflexivity. }
  rewrite Hshape. cbn [bind].
  rewrite expand_data_stretch by (cbn; lia).
  rewrite expand_data_same by (cbn; lia). reflexivity.
Qed.

(** C4, as the code has it: [_process_target] treats a 0-D target as the
    1-D target with the same entry; repeats a 1-D target of length [t] once
    per position of the logits before their last axis; repeats a 2-D target
    with one row once per row of the logits; returns every other 2-D target
    as it is, whatever the batch size; and raises [ValueError] for a target
    of three or more dimensions. *)
Theorem process_target_cases (target : tensor Z) (logits : tensor Qc) :
  (shape target = [] ->
   _process_target target logits
   = _process_target {| shape := [1]; data := data target |} logits)
  /\ (forall t s c,
        shape target = [t] -> length (data target) = t ->
        shape logits = s ++ [c] ->
        _process_target target logits
        = Ok {| shape := s ++ [t];
                data := concat (replicate (numel s) (data target)) |})
  /\ (forall t n rest,
        shape target = [1; t] -> length (data target) = t ->
        shape logits = n :: rest ->
        _process_target target logits
        = Ok {| shape := [n; t]; data := concat (replicate n (data target)) |})
  /\ (forall k t,
        shape target = [k; t] -> k <> 1 ->
        _process_target target logits = Ok target)
  /\ (3 <= dim target ->
      exists message, _process_target target logits = Raise (ValueError message)).
Proof.
  unfold _process_target, process_target_from_1d.
  split; [|split; [|split; [|split]]].
  - intros Hs. destruct target as [sh d]. cbn in Hs. subst sh. reflexivity.
  - intros t s c Hs Hd Hl. rewrite Hs, Hl. unfold index_shape.
    destruct (s ++ [c]) as [|a l] eqn:E; [destruct s; discriminate|].
    rewrite <- E, removelast_last. cbn [bind].
    apply expand_leading; assumption.
  - intros t n rest Hs Hd Hl. rewrite Hs, Hl. cbn [Nat.eqb].
    apply expand_rows; assumption.
  - intros k t Hs Hk. rewrite Hs.
    destruct (Nat.eqb_spec k 1) as [->|_]; [congruence|reflexivity].
  - unfold dim. intros Hdim.
    destruct (shape target) as [|a [|b [|c l]]]; cbn in Hdim; try lia.
    eexists. reflexivity.
Qed.

End ProcessTarget.

(** C4 as the specification words it fails: a 2-D target with two rows
    against logits with three rows is returned as it is, with no error. *)
Lemma process_target_mismatch_is_returned :
  ClassificationInferenceWrapper._process_target
    {| Torch.shape := [2; 1]; Torch.data := [0%Z; 1%Z] |}
    {| Torch.shape := [3; 2]; Torch.data := replicate 6 0%Qc |}
  = Ok {| Torch.shape := [2; 1]; Torch.data := [0%Z; 1%Z] |}.
Proof. reflexivity. Qed.

Example process_target_scalar :
  ClassificationInferenceWrapper._process_target
    (Torch.scalar 1%Z)
    {| Torch.shape := [3; 2]; Torch.data := replicate 6 0%Qc |}
  = Ok {| Torch.shape := [3; 1]; Torch.data := [1%Z; 1%Z; 1%Z] |}.
Proof. reflexivity. Qed.
(** ** Linear interpolation towards a baseline *)

Section BaselineFacts.
Import Torch LinearInterpolation.

Lemma full_as_result (s : list nat) (v : result number) (d : dtype) (r : dtensor) :
  full_as s v d = Ok r ->
  exists c, v = Ok c /\ r = {| dt_dtype := d; dt_tensor := full s c |}.
Proof.
  unfold full_as. destruct v as [c|e]; cbn [bind]; [|discriminate].
  intros H. injection H as <-. eauto.
Qed.

Lemma int_fill_raises (d : dtype) (z : Z) (e : exn) :
  int_fill d z = Raise e ->
  e = RuntimeError \/ (e = OverflowError /\ (z < - 2 ^ 63 \/ 2 ^ 64 <= z)%Z).
Proof.
  unfold int_fill.
  destruct (Z.ltb_spec z (- 2 ^ 63)) as [Hlow|_]; cbn [orb].
  { intros H. injection H as <-. right. split; [reflexivity|lia]. }
  destruct (Z.leb_spec (2 ^ 64) z) as [Hhigh|_].
  { intros H. injection H as <-. right. split; [reflexivity|lia]. }
  destruct d; try discriminate.
  destruct (2 ^ 63 <=? z)%Z; [|discriminate].
  intros H. injection H as <-. left. reflexivity.
Qed.

Lemma float_fill_raises (d : dtype) (f : spec_float) (e : exn) :
  float_fill d f = Raise e -> e = RuntimeError.
Proof.
  unfold float_fill. destruct d.
  - destruct (beyond_float32 f); [congruence|discriminate].
  - discriminate.
  - destruct (truncate f) as [t|]; [|congruence].
    destruct (_ || _); [congruence|discriminate].
Qed.

Lemma full_as_raises (s : list nat) (v : result number) (d : dtype) (e : exn) :
  full_as s v d = Raise e -> v = Raise e.
Proof. unfold full_as. destruct v; cbn [bind]; [discriminate|]. intros H. congruence. Qed.

Lemma adjust_baseline_result (baseline : pyvalue) (x r : dtensor) :
  adjust_baseline baseline (PyTensor x) = Ok r ->
  shape (dt_tensor r) = drop 1 (shape (dt_tensor x))
  /\ dt_dtype r = dt_dtype x
  /\ (match baseline with PyTensor _ => True | _ => well_formed (dt_tensor r) end).
Proof.
  unfold adjust_baseline, well_formed.
  destruct baseline as [|v|z|q|str|t|]; intros H; try discriminate;
    try (apply full_as_result in H; destruct H as (c & _ & ->);
         cbn [dt_tensor dt_dtype full shape data];
         rewrite length_replicate; auto).
  destruct (decide (shape (dt_tensor t) = drop 1 (shape (dt_tensor x)))) as [Es|Es].
  - rewrite bool_decide_eq_true_2 in H by exact Es. cbn [negb] in H.
    destruct (decide (dt_dtype t = dt_dtype x)) as [Ed|Ed].
    + rewrite bool_decide_eq_true_2 in H by exact Ed. injection H as <-. auto.
    + rewrite bool_decide_eq_false_2 in H by exact Ed. discriminate.
  - rewrite bool_decide_eq_false_2 in H by exact Es. discriminate.
Qed.

(** The exceptions of [adjust_baseline] on a tensor. *)
Lemma adjust_baseline_raises (baseline : pyvalue) (x : dtensor) (e : exn) :
  adjust_baseline baseline (PyTensor x) = Raise e ->
  match baseline with
  | PyStr _ | PyObject => exists message, e = TypeError message
  | PyTensor _ => exists message, e = ValueError message
  | PyInt z =>
      e = RuntimeError \/ (e = OverflowError /\ (z < - 2 ^ 63 \/ 2 ^ 64 <= z)%Z)
  | _ => e = RuntimeError
  end.
Proof.
  unfold adjust_baseline.
  destruct baseline as [|v|z|q|str|t|]; intros H.
  - apply full_as_raises, int_fill_raises in H.
    destruct H as [H|[_ H]]; [exact H|lia].
  - apply full_as_raises, int_fill_raises in H.
    destruct H as [H|[_ H]]; [exact H|destruct v; lia].
  - apply full_as_raises, int_fill_raises in H. exact H.
  - apply full_as_raises, float_fill_raises in H. exact H.
  - injection H as <-. eauto.
  - destruct (negb (bool_decide (shape (dt_tensor t) = _))).
    + injection H as <-. eauto.
    + destruct (negb (bool_decide (dt_dtype t = _))); [|discriminate].
      injection H as <-. eauto.
  - injection H as <-. eauto.
Qed.


End BaselineFacts.

(** The cases of the test of [adjust_baseline]: inputs of shape
    [4 x 3 x 10] in float32; the float baseline is 0.5. *)
Example adjust_baseline_on_test_inputs :
  let tensor_of d s :=
    {| LinearInterpolation.dt_dtype := d;
       LinearInterpolation.dt_tensor :=
         Torch.full s (LinearInterpolation.Float (S754_zero false)) |} in
  let x := tensor_of LinearInterpolation.Float32 [4; 3; 10] in
  LinearInterpolation.adjust_baseline (LinearInterpolation.PyStr "invalid")
    (LinearInterpolation.PyTensor x)
  = Raise (TypeError "Baseline must be None, a float, or a PyTorch tensor.")
  /\ LinearInterpolation.adjust_baseline
       (LinearInterpolation.PyTensor (tensor_of LinearInterpolation.Float32 [2; 10]))
       (LinearInterpolation.PyTensor x)
     = Raise (ValueError "Baseline shape torch.Size([2, 10]) does not match expected shape torch.Size([3, 10]).")
  /\ LinearInterpolation.adjust_baseline
       (LinearInterpolation.PyTensor (tensor_of LinearInterpolation.Float64 [3; 10]))
       (LinearInterpolation.PyTensor x)
     = Raise (ValueError "Baseline dtype torch.float64 does not match expected dtype torch.float32.")
  /\ LinearInterpolation.adjust_baseline LinearInterpolation.PyNone
       (LinearInterpolation.PyTensor x)
     = Ok (tensor_of LinearInterpolation.Float32 [3; 10])
  /\ LinearInterpolation.adjust_baseline
       (LinearInterpolation.PyFloat (S754_finite false 4503599627370496 (-53)))
       (LinearInterpolation.PyTensor x)
     = Ok {| LinearInterpolation.dt_dtype := LinearInterpolation.Float32;
             LinearInterpolation.dt_tensor :=
               Torch.full [3; 10]
                 (LinearInterpolation.Float (S754_finite false 8388608 (-24))) |}.
Proof. cbv zeta. repeat split. Qed.


Section InterpolationFacts.
Import Torch LinearInterpolation.

(** The steps between the first and the last, whatever the library makes
    them. *)
Variable inner_step : nat -> nat -> spec_float.

Local Abbreviation perturb := (LinearInterpolation.perturb inner_step).
Local Abbreviation linspace := (LinearInterpolation.linspace inner_step).

Lemma view_of_nat {A : Type} (t : tensor A) (sizes : list nat) :
  numel sizes = length (data t) ->
  view t (map Z.of_nat sizes) = Ok {| shape := sizes; data := data t |}.
Proof.
  intros Hn. unfold view.
  assert (Hlow : existsb (fun z => z <? -1)%Z (map Z.of_nat sizes) = false).
  { clear. induction sizes as [|k sizes IH]; [reflexivity|].
    cbn [map existsb]. rewrite IH, orb_false_r. apply Z.ltb_ge. lia. }
  assert (Hkeep : filter (fun z : Z => z <> (-1)%Z) (map Z.of_nat sizes)
                  = map Z.of_nat sizes).
  { clear. induction sizes as [|k sizes IH]; [reflexivity|].
    cbn [map]. rewrite filter_cons, IH.
    destruct (decide (Z.of_nat k <> (-1)%Z)) as [_|E]; [reflexivity|].
    exfalso. apply E. lia. }
  assert (Hnone : filter (fun z : Z => z = (-1)%Z) (map Z.of_nat sizes) = []).
  { clear. induction sizes as [|k sizes IH]; [reflexivity|].
    cbn [map]. rewrite filter_cons, IH.
    destruct (decide (Z.of_nat k = (-1)%Z)) as [E|_]; [lia|reflexivity]. }
  rewrite Hlow, Hkeep, Hnone. cbn [length].
  assert (Hid : map Z.to_nat (map Z.of_nat sizes) = sizes).
  { rewrite map_map. rewrite <- (map_id sizes) at 2. apply map_ext.
    intros k. apply Nat2Z.id. }
  rewrite Hid, Hn, Nat.eqb_refl. reflexivity.
Qed.

Lemma broadcast_same (s : list nat) : broadcast_aligned s s = Ok s.
Proof.
  induction s as [|a s IH]; [reflexivity|].
  cbn [broadcast_aligned]. rewrite IH. cbn [bind]. rewrite Nat.eqb_refl. reflexivity.
Qed.

Lemma broadcast_ones (s : list nat) :
  broadcast_aligned (replicate (length s) 1) s = Ok s.
Proof.
  induction s as [|a s IH]; [reflexivity|].
  cbn [length replicate broadcast_aligned]. rewrite IH. cbn [bind].
  destruct (Nat.eqb_spec 1 a) as [<-|_]; reflexivity.
Qed.

Lemma broadcast_cons (a b c : nat) (s1 s2 s : list nat) :
  broadcast_aligned s1 s2 = Ok s ->
  (a = b /\ c = a) \/ (a = 1 /\ c = b) \/ (b = 1 /\ c = a) ->
  broadcast_aligned (a :: s1) (b :: s2) = Ok (c :: s).
Proof.
  intros Hs H. cbn [broadcast_aligned]. rewrite Hs. cbn [bind].
  destruct (Nat.eqb_spec a b) as [E|E].
  - destruct H as [[_ ->]|[[-> ->]|[-> ->]]]; congruence.
  - destruct (Nat.eqb_spec a 1) as [E1|E1].
    + destruct H as [[H _]|[[_ ->]|[-> ->]]]; congruence.
    + destruct (Nat.eqb_spec b 1) as [E2|E2].
      * destruct H as [[H _]|[[H _]|[_ ->]]]; congruence.
      * destruct H as [[H _]|[[H _]|[H _]]]; congruence.
Qed.

Lemma pointwise_same_rank {A : Type} (op : A -> A -> A) (x y : tensor A)
    (to : list nat) :
  dim x = dim y -> broadcast_aligned (shape x) (shape y) = Ok to ->
  pointwise op x y
  = Ok {| shape := to;
          data := zip_with op (expand_data (shape x) to (data x))
                              (expand_data (shape y) to (data y)) |}.
Proof.
  intros Hdim Hto. unfold pointwise, pad_shape. rewrite <- Hdim, Nat.max_id.
  unfold dim in *. rewrite <- Hdim, Nat.sub_diag. cbn [replicate app].
  rewrite Hto. reflexivity.
Qed.

Lemma spread_rows {A : Type} (m : nat) (l : list A) :
  Forall (fun row : list A => length row = m) (map (fun a => replicate m a) l).
Proof. apply Forall_fmap, Forall_forall. intros a _. cbn. apply length_replicate. Qed.

Lemma length_spread {A : Type} (m : nat) (l : list A) :
  length (spread m l) = length l * m.
Proof.
  unfold spread. rewrite (length_concat_uniform m), length_map; [reflexivity|].
  apply spread_rows.
Qed.

Lemma lookup_spread {A : Type} (m : nat) (l : list A) (k j : nat) (a : A) :
  l !! k = Some a -> j < m -> spread m l !! (k * m + j) = Some a.
Proof.
  intros Hk Hj. unfold spread.
  rewrite (lookup_concat_uniform m) by (try apply spread_rows; exact Hj).
  rewrite list_lookup_fmap, Hk. cbn. apply lookup_replicate_2, Hj.
Qed.

Lemma chunks_singletons {A : Type} (l : list A) :
  chunks 1 (length l) l = map (fun a => [a]) l.
Proof.
  rewrite <- (chunks_concat_uniform 1 (map (fun a => [a]) l)) at 1.
  - rewrite length_map. f_equal.
    induction l as [|a l IH]; [reflexivity|]. cbn. f_equal. exact IH.
  - apply Forall_fmap, Forall_forall. intros a _. reflexivity.
Qed.

(** The interpolation steps [1 x n x 1 x ... x 1] expanded against samples
    of shape [s]. *)
Lemma expand_steps {A : Type} (s : list nat) (t : nat) (l : list A) :
  expand_data (1 :: length l :: replicate (length s) 1) (t :: length l :: s) l
  = concat (replicate t (spread (numel s) l)).
Proof.
  rewrite expand_data_stretch by (rewrite numel_cons, numel_ones; lia).
  rewrite expand_data_keep, numel_ones, chunks_singletons, map_map.
  unfold spread. do 3 f_equal. apply map_ext. intros a. apply expand_data_ones.
Qed.

(** Samples [b x 1 x s] expanded to [n] steps each. *)
Lemma expand_samples {A : Type} (s : list nat) (b n : nat) (d : list A) :
  length d = b * numel s ->
  expand_data (b :: 1 :: s) (b :: n :: s) d
  = concat (map (fun row => concat (replicate n row)) (chunks (numel s) b d)).
Proof.
  intros Hd. rewrite expand_data_keep, numel_cons, Nat.mul_1_l. f_equal.
  apply map_ext_Forall.
  pose proof (Forall_chunks_length (numel s) b d Hd) as Hrows.
  rewrite Forall_forall in Hrows. apply Forall_forall. intros row Hrow.
  rewrite expand_data_stretch by (apply Hrows, Hrow).
  rewrite expand_data_same by (apply Hrows, Hrow). reflexivity.
Qed.

(** A block [1 x s'] expanded to [b] copies. *)
Lemma expand_copies {A : Type} (s : list nat) (b : nat) (d : list A) :
  length d = numel s ->
  expand_data (1 :: s) (b :: s) d = concat (replicate b d).
Proof.
  intros Hd. rewrite expand_data_stretch by exact Hd.
  rewrite expand_data_same by exact Hd. reflexivity.
Qed.

Lemma lookup_samples {A : Type} (m b n i k j : nat) (d : list A) :
  length d = b * m -> i < b -> k < n -> j < m ->
  concat (map (fun row => concat (replicate n row)) (chunks m b d))
  !! ((i * n + k) * m + j) = d !! (i * m + j).
Proof.
  intros Hd Hi Hk Hj.
  replace ((i * n + k) * m + j) with (i * (n * m) + (k * m + j)) by lia.
  pose proof (Forall_chunks_length m b d Hd) as Hrows.
  rewrite (lookup_concat_uniform (n * m)).
  - rewrite list_lookup_fmap, lookup_chunks by exact Hi. cbn.
    assert (Hrow : length (chunk m i d) = m) by (apply length_chunk; nia).
    rewrite <- Hrow at 1. rewrite lookup_concat_replicate by (rewrite ?Hrow; lia).
    unfold chunk. rewrite lookup_take_lt, lookup_drop by exact Hj. reflexivity.
  - apply Forall_fmap. rewrite Forall_forall in Hrows. apply Forall_forall.
    intros row Hrow. cbn. rewrite concat_replicate_length, (Hrows row Hrow).
    reflexivity.
  - nia.
Qed.

Lemma lookup_copies {A : Type} (b i p len : nat) (d : list A) :
  length d = len -> i < b -> p < len ->
  concat (replicate b d) !! (i * len + p) = d !! p.
Proof. intros <- Hi Hp. apply lookup_concat_replicate; assumption. Qed.

Lemma expand_steps_of_length {A : Type} (s : list nat) (t n : nat) (l : list A) :
  length l = n ->
  expand_data (1 :: n :: replicate (length s) 1) (t :: n :: s) l
  = concat (replicate t (spread (numel s) l)).
Proof. intros <-. apply expand_steps. Qed.

Lemma concat_replicate_once {A : Type} (l : list A) : concat (replicate 1 l) = l.
Proof. cbn. apply app_nil_r. Qed.

Lemma length_samples {A : Type} (b n m : nat) (xd : list A) :
  length xd = b * m ->
  length (concat (map (fun row => concat (replicate n row)) (chunks m b xd)))
  = b * (n * m).
Proof.
  intros Hxd.
  rewrite (length_concat_uniform (n * m)), length_map, length_chunks; [lia|].
  apply Forall_fmap.
  pose proof (Forall_chunks_length m b xd Hxd) as Hrows.
  rewrite Forall_forall in Hrows. apply Forall_forall. intros row Hrow. cbn.
  rewrite concat_replicate_length, (Hrows row Hrow). reflexivity.
Qed.

Lemma interpolated_lookup {A : Type} (add mul : A -> A -> A) (complement : A -> A)
    (steps : list A) (b m i k j : nat) (xd bd : list A) (a xv bv : A) :
  length xd = b * m -> length bd = m ->
  i < b -> j < m ->
  steps !! k = Some a ->
  xd !! (i * m + j) = Some xv -> bd !! j = Some bv ->
  interpolated add mul complement steps b m xd bd !! ((i * length steps + k) * m + j)
  = Some (add (mul (complement a) xv) (mul a bv)).
Proof.
  intros Hxd Hbd Hi Hj Ha Hxv Hbv. unfold interpolated.
  set (n := length steps).
  assert (Hk : k < n) by (apply lookup_lt_Some in Ha; exact Ha).
  rewrite !lookup_zip_with.
  rewrite (lookup_samples m b n i k j xd Hxd Hi Hk Hj), Hxv.
  replace ((i * n + k) * m + j) with (i * (n * m) + (k * m + j)) by lia.
  rewrite (lookup_copies b i (k * m + j) (n * m) (spread m (map complement steps)))
    by (try (rewrite length_spread, length_map); try nia; reflexivity).
  rewrite (lookup_spread m _ k j (complement a))
    by (try exact Hj; rewrite list_lookup_fmap, Ha; reflexivity).
  rewrite (lookup_copies b i (k * m + j) (n * m)
             (zip_with mul (spread m steps) (concat (replicate n bd))));
    [| |exact Hi|nia].
  - rewrite lookup_zip_with.
    rewrite (lookup_spread m _ k j a) by assumption.
    rewrite (lookup_copies n k j m bd Hbd Hk Hj), Hbv. reflexivity.
  - rewrite length_zip_with, length_spread, concat_replicate_length, Hbd.
    fold n. lia.
Qed.

Lemma length_interpolated {A : Type} (add mul : A -> A -> A) (complement : A -> A)
    (steps : list A) (b m : nat) (xd bd : list A) :
  length xd = b * m -> length bd = m ->
  length (interpolated add mul complement steps b m xd bd)
  = b * (length steps * m).
Proof.
  intros Hxd Hbd. unfold interpolated.
  rewrite !length_zip_with, !concat_replicate_length.
  rewrite !length_zip_with, !length_spread, length_map.
  rewrite concat_replicate_length, Hbd, (length_samples b _ m xd Hxd). lia.
Qed.

Lemma linspace_steps (n_samples : Z) :
  (0 <= n_samples)%Z ->
  linspace n_samples
  = Ok (vector (map (fun k => Float (step inner_step (Z.to_nat n_samples) k))
                    (seq 0 (Z.to_nat n_samples)))).
Proof.
  intros Hn. unfold LinearInterpolation.linspace.
  destruct (Z.ltb_spec n_samples 0) as [|_]; [lia|]. reflexivity.
Qed.

Lemma length_steps (n : nat) :
  length (map (fun k => Float (step inner_step n k)) (seq 0 n)) = n.
Proof. rewrite length_map, length_seq. reflexivity. Qed.


(** [perturb] on inputs of shape [b x s] with a baseline [adjust_baseline]
    accepts, for every number of steps that is not negative. *)
Lemma perturb_interpolated (self : LinearInterpolationPerturbation)
    (x base : dtensor) (n_samples : Z) (b : nat) (s : list nat) :
  shape (dt_tensor x) = b :: s ->
  well_formed (dt_tensor x) ->
  adjust_baseline (baseline_of self) (PyTensor x) = Ok base ->
  well_formed (dt_tensor base) ->
  (0 <= n_samples)%Z ->
  let d := result_type (dt_dtype x) in
  let n := Z.to_nat n_samples in
  perturb self x n_samples
  = Ok ({| dt_dtype := d;
           dt_tensor :=
             {| shape := b :: n :: s;
                data := interpolated (plus d) (times d) one_minus
                          (map (fun k => Float (step inner_step n k)) (seq 0 n))
                          b (numel s)
                          (data (dt_tensor x)) (data (dt_tensor base)) |} |},
        None).
Proof.
  intros Hs Hwf Hbase Hbwf Hn d n.
  destruct (adjust_baseline_result _ _ _ Hbase) as (Hbs & _ & _).
  rewrite Hs in Hbs. cbn [drop] in Hbs. rewrite drop_0 in Hbs.
  unfold well_formed in Hwf, Hbwf. rewrite Hs, numel_cons in Hwf. rewrite Hbs in Hbwf.
  set (m := numel s) in *.
  set (steps := map (fun k => Float (step inner_step n k)) (seq 0 n)).
  assert (Hsteps : length steps = n) by apply length_steps.
  unfold LinearInterpolation.perturb. rewrite Hbase. cbn [bind]. rewrite Hs, Hbs.
  cbn [drop]. rewrite drop_0.
  rewrite bool_decide_eq_true_2 by reflexivity. cbn [negb].
  rewrite (linspace_steps n_samples Hn). fold n steps. cbn [bind].
  assert (Hsizes : 1%Z :: n_samples :: replicate (dim (dt_tensor x) - 1) 1%Z
                   = map Z.of_nat (1 :: n :: replicate (length s) 1)).
  { unfold dim. rewrite Hs. cbn [length].
    replace (S (length s) - 1) with (length s) by lia. cbn [map].
    unfold n. rewrite Z2Nat.id by lia. do 2 f_equal.
    induction (length s) as [|r IH]; [reflexivity|]. cbn. f_equal. exact IH. }
  rewrite Hsizes, view_of_nat
    by (cbn [vector data]; rewrite !numel_cons, numel_ones, Hsteps; lia).
  cbn [bind vector data].
  assert (Hun : unsqueeze 1 (dt_tensor x)
                = Ok {| shape := b :: 1 :: s; data := data (dt_tensor x) |}).
  { unfold unsqueeze, dim. rewrite Hs. cbv zeta. cbn [length].
    change (1 <? 0)%Z with false. cbv iota.
    replace (Z.of_nat (S (length s)) <? 1)%Z with false
      by (symmetry; apply Z.ltb_ge; lia).
    change (Z.to_nat 1) with 1. reflexivity. }
  rewrite Hun. cbn [bind].
  change (1%Z :: 1%Z :: map Z.of_nat s) with (map Z.of_nat (1 :: 1 :: s)).
  rewrite view_of_nat by (rewrite !numel_cons; fold m; lia).
  cbn [bind]. fold d.
  rewrite (pointwise_same_rank (times d) _ _ (b :: n :: s)).
  2: { unfold dim. cbn [tmap shape length]. rewrite length_replicate. reflexivity. }
  2: { cbn [tmap shape]. apply broadcast_cons; [|right; left; auto].
       apply broadcast_cons; [apply broadcast_ones|right; right; auto]. }
  cbn [bind].
  rewrite (pointwise_same_rank (times d) _ _ (1 :: n :: s)).
  2: { unfold dim. cbn [shape length]. rewrite length_replicate. reflexivity. }
  2: { cbn [shape]. apply broadcast_cons; [|left; auto].
       apply broadcast_cons; [apply broadcast_ones|right; right; auto]. }
  cbn [bind].
  rewrite (pointwise_same_rank (plus d) _ _ (b :: n :: s)).
  2: { reflexivity. }
  2: { cbn [shape]. apply broadcast_cons; [apply broadcast_same|right; right; auto]. }
  cbn [bind tmap shape data].
  rewrite !expand_steps_of_length by (rewrite ?length_map; exact Hsteps).
  fold m. rewrite concat_replicate_once.
  rewrite (expand_samples s b n) by exact Hwf. fold m.
  rewrite (expand_data_stretch (1 :: s) (n :: s)) by (rewrite numel_cons; fold m; lia).
  rewrite (expand_copies s n) by exact Hbwf.
  rewrite concat_replicate_once.
  rewrite (expand_data_same (b :: n :: s)).
  2: { rewrite length_zip_with, concat_replicate_length, length_spread, length_map,
         Hsteps, (length_samples b n m _ Hwf), !numel_cons. fold m. lia. }
  rewrite (expand_copies (n :: s) b).
  2: { rewrite length_zip_with, length_spread, Hsteps, concat_replicate_length,
         Hbwf, numel_cons. fold m. lia. }
  unfold interpolated. rewrite Hsteps. reflexivity.
Qed.

(** Multiplying by the float32 one is exact in every format. *)
Lemma digits_shifted (mx : positive) :
  (Zpos (digits2_pos (Pos.mul 8388608 mx)) = Zpos (digits2_pos mx) + 23)%Z.
Proof.
  change (Pos.mul 8388608 mx)
    with (mx~0~0~0~0~0~0~0~0~0~0~0~0~0~0~0~0~0~0~0~0~0~0~0)%positive.
  cbn [digits2_pos]. lia.
Qed.

Lemma shifted_back (mx : positive) :
  SpecFloat.iter_pos shr_1 23 {| shr_m := Zpos (Pos.mul 8388608 mx);
                       shr_r := false; shr_s := false |}
  = {| shr_m := Zpos mx; shr_r := false; shr_s := false |}.
Proof. reflexivity. Qed.

Lemma mul_one_finite (p emax : Z) (sx : bool) (mx : positive) (ex : Z) :
  bounded p emax mx ex = true ->
  SFmul p emax float_one (S754_finite sx mx ex) = S754_finite sx mx ex.
Proof.
  intros Hb. unfold bounded, canonical_mantissa in Hb.
  apply andb_prop in Hb. destruct Hb as [Hc He].
  apply Z.eqb_eq in Hc.
  unfold float_one, SFmul. cbn [xorb]. unfold binary_round_aux, shr_fexp.
  cbn [Zdigits2]. rewrite digits_shifted.
  replace (Zpos (digits2_pos mx) + 23 + (-23 + ex))%Z
    with (Zpos (digits2_pos mx) + ex)%Z by lia.
  rewrite Hc. replace (ex - (-23 + ex))%Z with 23%Z by lia.
  unfold shr at 1. cbn [shr_record_of_loc]. rewrite shifted_back.
  cbn [shr_m loc_of_shr_record round_nearest_even Zdigits2].
  replace (-23 + ex + 23)%Z with ex by lia. rewrite Hc, Z.sub_diag.
  cbn [shr shr_record_of_loc shr_m]. rewrite He. reflexivity.
Qed.

Lemma mul_one (d : dtype) (f : spec_float) :
  in_format d f -> SFmul (precision d) (exponent d) float_one f = f.
Proof.
  intros [Hfin Hvalid]. destruct f as [s|s| |s mx ex]; try contradiction.
  - reflexivity.
  - apply mul_one_finite. exact Hvalid.
Qed.

Lemma mul_zero (p emax : Z) (f : spec_float) :
  finite f -> exists s, SFmul p emax float_zero f = S754_zero s.
Proof.
  destruct f as [s|s| |s mx ex]; try contradiction; intros _; eexists; reflexivity.
Qed.

Lemma add_zero_r (p emax : Z) (f : spec_float) (s : bool) :
  finite f -> same_number (SFadd p emax f (S754_zero s)) f.
Proof.
  destruct f as [sf|sf| |sf mx ex]; try contradiction; intros _.
  - right. destruct sf, s; eauto.
  - left. reflexivity.
Qed.


(** The first and the last variant. *)
Lemma blend_first (d : dtype) (xf bf : spec_float) :
  in_format d xf -> finite bf -> same_number (blend d float_zero xf bf) xf.
Proof.
  intros Hx Hb. unfold blend. cbv zeta.
  change (SFsub 24 128 (S754_finite false 8388608 (-23)) float_zero) with float_one.
  rewrite (mul_one d xf Hx).
  destruct (mul_zero (precision d) (exponent d) bf Hb) as [s ->].
  apply add_zero_r. apply Hx.
Qed.



End InterpolationFacts.



(** An int64 input is rounded to float32: [16777217] becomes [16777216]. *)
Example interpolation_of_integers :
  LinearInterpolation.perturb LinearInterpolation.kernel_step
    {| LinearInterpolation.baseline_of := LinearInterpolation.PyNone |}
    {| LinearInterpolation.dt_dtype := LinearInterpolation.Int64;
       LinearInterpolation.dt_tensor :=
         {| Torch.shape := [1; 1];
            Torch.data := [LinearInterpolation.Int 16777217] |} |}
    2
  = Ok ({| LinearInterpolation.dt_dtype := LinearInterpolation.Float32;
           LinearInterpolation.dt_tensor :=
             {| Torch.shape := [1; 2; 1];
                Torch.data :=
                  [LinearInterpolation.Float (S754_finite false 8388608 1);
                   LinearInterpolation.Float (S754_zero false)] |} |},
        None).
Proof. reflexivity. Qed.

(** ** Logits gathered at the targets, input by input *)

Section TargetedLogits.
Import Torch ClassificationInferenceWrapper.

Lemma as_rows_viewed (targets : tensor Z) (r t : nat) :
  rows_of targets r t -> well_formed targets ->
  as_rows targets = Ok {| shape := [r; t]; data := data targets |}.
Proof.
  intros Hrows Hwf. unfold well_formed in Hwf. unfold as_rows, dim, view.
  destruct targets as [sh d]. cbn [shape data] in *.
  destruct Hrows as [Hs|t Hs|r t Hs]; cbn [shape] in Hs; subst sh;
    cbn [length Nat.eqb orb]; [| |reflexivity].
  - cbn in Hwf. rewrite Hwf. reflexivity.
  - cbn in Hwf. rewrite Nat.mul_1_r in Hwf. rewrite Hwf. cbn.
    rewrite Nat.div_1_r. destruct t; reflexivity.
Qed.

Lemma generate_all {A B : Type} (body : nat -> A -> result B)
    (f : nat -> A -> B) (l : list A) (k : nat) :
  (forall i a, l !! i = Some a -> body (k + i) a = Ok (f (k + i) a)) ->
  generate body k l = (imap (fun i => f (k + i)) l, None).
Proof.
  revert k. induction l as [|a l IH]; intros k H.
  - reflexivity.
  - cbn [generate imap]. specialize (H 0 a eq_refl) as H0.
    rewrite Nat.add_0_r in H0. rewrite H0, (IH (S k)).
    + rewrite Nat.add_0_r. f_equal. f_equal. apply imap_ext.
      intros i x _. cbn. f_equal. lia.
    + intros i x Hx. replace (S k + i) with (k + S i) by lia.
      apply H. exact Hx.
Qed.

(** One row of logits read at the positions of a row of targets. *)
Lemma gather_row (c t : nat) (x : list Qc) (row : list Z) :
  length x = c -> Forall (fun z => 0 <= z < Z.of_nat c)%Z row ->
  gather_data [c] [t] x row = Ok (map (fun z => nth (Z.to_nat z) x 0%Qc) row).
Proof.
  intros Hx Hrow. cbn [gather_data].
  induction Hrow as [|z row Hz _ IH]; [reflexivity|].
  cbn [fold_right map]. rewrite IH. cbn [bind].
  destruct (Z.ltb_spec z 0) as [|_]; [lia|].
  destruct (lookup_lt_is_Some_2 x (Z.to_nat z)) as [a Ha]; [lia|].
  rewrite Ha. do 2 f_equal. symmetry. apply nth_lookup_Some with (d := 0%Qc), Ha.
Qed.

Lemma nth_chunk (c i j : nat) (x : list Qc) :
  j < c -> nth j (chunk c i x) 0%Qc = nth (i * c + j) x 0%Qc.
Proof.
  intros Hj. unfold chunk. rewrite !nth_lookup, lookup_take_lt, lookup_drop by exact Hj.
  reflexivity.
Qed.

Lemma gather_rows (n c t : nat) (x : list Qc) (idx : list Z) (batch : list nat) :
  length x = n * c -> length idx = n * t ->
  Forall (fun z => 0 <= z < Z.of_nat c)%Z idx ->
  Forall (fun b => b < n) batch ->
  fold_right (fun (i : nat) (acc : result (list Qc)) =>
                rest <- acc ;;
                row <- gather_data [c] [t] (chunk (numel [c]) i x)
                                   (chunk (numel [t]) i idx) ;;
                Ok (row ++ rest))
             (Ok []) batch
  = Ok (flat_map (fun b => map (fun z => nth (b * c + Z.to_nat z) x 0%Qc)
                               (chunk t b idx))
                 batch).
Proof.
  intros Hx Hidx Hpos Hbatch.
  induction Hbatch as [|b batch Hb _ IH]; [reflexivity|].
  cbn [fold_right flat_map]. rewrite IH. cbn [bind].
  replace (numel [c]) with c by (cbn; lia).
  replace (numel [t]) with t by (cbn; lia).
  assert (Hsub : Forall (fun z => 0 <= z < Z.of_nat c)%Z (chunk t b idx)).
  { unfold chunk. apply Forall_take, Forall_drop, Hpos. }
  rewrite (gather_row c t) by (try exact Hsub; apply length_chunk; nia).
  cbn [bind]. do 2 f_equal. apply map_ext_Forall.
  rewrite Forall_forall in Hsub. apply Forall_forall. intros z Hz.
  apply nth_chunk. specialize (Hsub z Hz). cbn beta in Hsub. lia.
Qed.

Lemma gather_data_matrix (n c t : nat) (x : list Qc) (idx : list Z) :
  gather_data [n; c] [n; t] x idx
  = fold_right (fun (i : nat) (acc : result (list Qc)) =>
                  rest <- acc ;;
                  row <- gather_data [c] [t] (chunk (numel [c]) i x)
                                     (chunk (numel [t]) i idx) ;;
                  Ok (row ++ rest))
               (Ok []) (seq 0 n).
Proof. cbn [gather_data]. rewrite Nat.ltb_irrefl. reflexivity. Qed.

(** [logits.gather(-1, index)] for logits [n x c] and an index whose [n]
    rows are all the same row of targets. *)
Lemma gather_repeated_row (logits : tensor Qc) (n c : nat) (row : list Z) :
  shape logits = [n; c] -> well_formed logits ->
  Forall (fun z => 0 <= z < Z.of_nat c)%Z row ->
  gather_last logits {| shape := [n; length row];
                        data := concat (replicate n row) |}
  = Ok (gathered logits row).
Proof.
  intros Hs Hwf Hrow. unfold well_formed in Hwf. rewrite Hs in Hwf.
  unfold gather_last, gathered. rewrite Hs. cbn [shape data nth].
  rewrite gather_data_matrix.
  assert (Hrows : Forall (fun r : list Z => length r = length row) (replicate n row))
    by (apply Forall_replicate; reflexivity).
  rewrite (gather_rows n c (length row)).
  - cbn [bind]. do 2 f_equal. rewrite !flat_map_concat_map. f_equal.
    apply map_ext_in. intros b Hb.
    apply in_seq in Hb. f_equal.
    apply chunk_concat_uniform; [exact Hrows|].
    apply lookup_replicate_2. lia.
  - rewrite Hwf. cbn. lia.
  - rewrite concat_replicate_length. reflexivity.
  - apply Forall_concat, Forall_replicate, Hrow.
  - apply Forall_forall. intros b Hb. apply in_seq in Hb. lia.
Qed.

(** What one turn of the loop yields. *)
Lemma yield_targeted_row (targets : tensor Z) (r t single_index index n c : nat)
    (logits : tensor Qc) :
  shape targets = [r; t] -> length (data targets) = r * t ->
  and_index single_index index < r ->
  shape logits = [n; c] -> well_formed logits ->
  Forall (fun z => 0 <= z < Z.of_nat c)%Z (data targets) ->
  yield_targeted targets single_index index logits
  = Ok (gathered logits (chunk t (and_index single_index index) (data targets))).
Proof.
  intros Hs Hd Hrow Hl Hwf Hpos. unfold yield_targeted, select. rewrite Hs.
  set (row := and_index single_index index) in *. cbv zeta.
  assert (Hneg : (Z.of_nat row <? 0)%Z = false) by (apply Z.ltb_ge; lia).
  assert (Hin : (Z.of_nat r <=? Z.of_nat row)%Z = false) by (apply Z.leb_gt; lia).
  rewrite Hneg. cbv iota. rewrite Hneg, Hin.
  cbn [orb bind]. rewrite Nat2Z.id.
  replace (numel [t]) with t by (cbn; lia).
  unfold unsqueeze, dim. cbn [shape data length Z.ltb Z.compare orb bind].
  change (Z.of_nat 1 <? 0)%Z with false.
  cbn [Z.to_nat take drop app bind shape data]. rewrite Hl.
  assert (Hlen : length (chunk t row (data targets)) = t)
    by (apply length_chunk; nia).
  rewrite (expand_rows _ n t) by (try reflexivity; exact Hlen).
  cbn [bind data]. rewrite <- Hlen at 1.
  apply (gather_repeated_row logits n c); [exact Hl|exact Hwf|].
  unfold chunk. apply Forall_take, Forall_drop, Hpos.
Qed.

(** C10: when the model gives 2-D logits for each input and every target is
    a valid class, [_get_targeted_logits_from_iterable] yields one result
    per input and raises nothing; the result for input [i] is the logits of
    that input read, for every member of its batch, at the positions of one
    row of the targets: row [i] when the targets viewed as 2-D have more
    than one row, and row 0 when the targets are 0-D, 1-D or 2-D with one
    row. *)
Theorem targeted_logits_pairing (predictions : list (tensor Qc))
    (targets : tensor Z) (r t : nat) :
  rows_of targets r t -> well_formed targets -> 1 <= r ->
  (1 < r -> length predictions <= r) ->
  Forall (fun logits =>
            exists n c, shape logits = [n; c] /\ well_formed logits
                        /\ Forall (fun z => 0 <= z < Z.of_nat c)%Z (data targets))
         predictions ->
  _get_targeted_logits_from_iterable predictions targets
  = (imap (fun i logits =>
             gathered logits (chunk t (if 1 <? r then i else 0) (data targets)))
          predictions,
     None).
Proof.
  intros Hrows Hwf Hr Hlen Hpred.
  unfold _get_targeted_logits_from_iterable.
  rewrite (as_rows_viewed targets r t Hrows Hwf).
  unfold single_index_of. cbn [shape].
  assert (Hd : length (data targets) = r * t).
  { unfold well_formed in Hwf. rewrite Hwf.
    destruct Hrows as [Hs|t Hs|r t Hs]; rewrite Hs; cbn; lia. }
  apply (generate_all _ (fun i logits =>
           gathered logits (chunk t (if 1 <? r then i else 0) (data targets)))
           predictions 0).
  intros i logits Hi. cbn [Nat.add].
  rewrite Forall_lookup in Hpred.
  destruct (Hpred i logits Hi) as (n & c & Hl & Hlwf & Hpos).
  assert (Hidx : and_index (if 1 <? r then 1 else 0) i = if 1 <? r then i else 0).
  { unfold and_index. destruct (1 <? r); reflexivity. }
  rewrite <- Hidx.
  apply (yield_targeted_row {| shape := [r; t]; data := data targets |}
           r t _ i n c); try assumption; try reflexivity.
  rewrite Hidx. destruct (Nat.ltb_spec 1 r) as [H1|H1]; [|lia].
  apply lookup_lt_Some in Hi. specialize (Hlen H1). lia.
Qed.

End TargetedLogits.

Lemma targeted_logits_pairing_witness :
  ClassificationInferenceWrapper._get_targeted_logits_from_iterable
    [ {| Torch.shape := [2; 3];
         Torch.data := map Qc_of_Z [10; 11; 12; 20; 21; 22]%Z |};
      {| Torch.shape := [1; 3]; Torch.data := map Qc_of_Z [30; 31; 32]%Z |} ]
    {| Torch.shape := [2; 2]; Torch.data := [0; 2; 1; 1]%Z |}
  = ([ {| Torch.shape := [2; 2]; Torch.data := map Qc_of_Z [10; 12; 20; 22]%Z |};
       {| Torch.shape := [1; 2]; Torch.data := map Qc_of_Z [31; 31]%Z |} ],
     None).
Proof.
  apply (targeted_logits_pairing
           [ {| Torch.shape := [2; 3];
                Torch.data := map Qc_of_Z [10; 11; 12; 20; 21; 22]%Z |};
             {| Torch.shape := [1; 3]; Torch.data := map Qc_of_Z [30; 31; 32]%Z |} ]
           {| Torch.shape := [2; 2]; Torch.data := [0; 2; 1; 1]%Z |} 2 2).
  - apply rows_matrix. reflexivity.
  - reflexivity.
  - lia.
  - intros _. cbn. lia.
  - repeat apply Forall_cons; try apply Forall_nil.
    + exists 2, 3. split; [reflexivity|]. split; [reflexivity|].
      repeat apply Forall_cons; try apply Forall_nil; lia.
    + exists 1, 3. split; [reflexivity|]. split; [reflexivity|].
      repeat apply Forall_cons; try apply Forall_nil; lia.
Defined.

Example targeted_logits_single_row :
  ClassificationInferenceWrapper._get_targeted_logits_from_iterable
    [ {| Torch.shape := [2; 3];
         Torch.data := map Qc_of_Z [10; 11; 12; 20; 21; 22]%Z |};
      {| Torch.shape := [1; 3]; Torch.data := map Qc_of_Z [30; 31; 32]%Z |} ]
    (Torch.vector [2%Z])
  = ([ {| Torch.shape := [2; 1]; Torch.data := map Qc_of_Z [12; 22]%Z |};
       {| Torch.shape := [1; 1]; Torch.data := map Qc_of_Z [32]%Z |} ],
     None).
Proof. reflexivity. Qed.

(** ** The targets of a classification explainer when none are given *)

Section DefaultTargets.
Import Torch Attributions.
Context {I : Type}.
Variable get_logits : I -> tensor Qc.

(** Rows of [c] cut from blocks of [b] rows each. *)
Lemma chunks_concat_blocks {A : Type} (b c : nat) (blocks : list (list A)) :
  Forall (fun d => length d = b * c) blocks ->
  chunks c (length blocks * b) (concat blocks)
  = concat (map (chunks c b) blocks).
Proof.
  intros Hblocks.
  set (rows := concat (map (chunks c b) blocks)).
  assert (Hrows : Forall (fun r : list A => length r = c) rows).
  { apply Forall_concat, Forall_fmap, Forall_forall. intros d Hd. cbn.
    rewrite Forall_forall in Hblocks. apply Forall_chunks_length, Hblocks, Hd. }
  assert (Hlen : length rows = length blocks * b).
  { unfold rows. rewrite (length_concat_uniform b), length_map; [reflexivity|].
    apply Forall_fmap, Forall_forall. intros d _. cbn. apply length_chunks. }
  assert (Hcat : concat blocks = concat rows).
  { unfold rows. clear rows Hrows Hlen.
    induction Hblocks as [|d blocks Hd _ IH]; [reflexivity|].
    cbn [map concat]. rewrite concat_app, <- IH, concat_chunks by exact Hd.
    reflexivity. }
  rewrite Hcat, <- Hlen. apply chunks_concat_uniform, Hrows.
Qed.

(** A 2-D target whose rows are the batch is left as it is. *)
Lemma process_target_matching (target : tensor Z) (n b : nat) :
  shape target = [n; b] -> length (data target) = n * b ->
  ClassificationInferenceWrapper.process_target target [n; b] = Ok target.
Proof.
  intros Hs Hd. destruct target as [sh d]. cbn [shape data] in *. subst sh.
  unfold ClassificationInferenceWrapper.process_target. cbn [shape].
  destruct (Nat.eqb_spec n 1) as [->|_].
  - rewrite (expand_rows _ 1 b) by (try reflexivity; cbn [data]; lia).
    cbn [data replicate concat]. rewrite app_nil_r. reflexivity.
  - rewrite Nat.eqb_refl. reflexivity.
Qed.

(** C8: for a classification explainer called with [targets=None] on at
    least one standardized input, where the model gives logits of shape
    [b x c] with [c > 0] for each of them, the targets are, input by input
    and row by row, the position of the largest logit, and the inputs are
    returned as they were given. *)
Theorem default_targets_are_argmax (model_inputs : list I) (b c : nat) :
  model_inputs <> [] -> 0 < c ->
  Forall (fun x => shape (get_logits x) = [b; c] /\ well_formed (get_logits x))
         model_inputs ->
  process_inputs_to_explain_and_targets get_logits model_inputs None
  = Ok (model_inputs,
        {| shape := [length model_inputs; b];
           data := flat_map (fun x => map (fun row => Z.of_nat (argmax_list row))
                                          (chunks c b (data (get_logits x))))
                            model_inputs |}).
Proof.
  intros Hne Hc Hall. unfold process_inputs_to_explain_and_targets.
  rewrite (stack_same_shape (map get_logits model_inputs) [b; c]).
  2: { destruct model_inputs; [congruence|discriminate]. }
  2: { apply Forall_fmap. eapply Forall_impl; [|exact Hall].
       intros x [Hx _]. exact Hx. }
  cbn [bind]. rewrite length_map. set (n := length model_inputs).
  unfold argmax_last. cbn [shape data last removelast].
  destruct (Nat.eqb_spec c 0) as [|_]; [lia|]. cbn [bind].
  replace (numel [n; b]) with (length (map data (map get_logits model_inputs)) * b)
    by (rewrite !length_map; cbn; fold n; lia).
  rewrite (chunks_concat_blocks b c).
  2: { apply Forall_fmap, Forall_fmap. eapply Forall_impl; [|exact Hall].
       intros x [Hx Hwf]. cbn. unfold well_formed in Hwf. rewrite Hwf, Hx. cbn. lia. }
  set (targets := {| shape := [n; b]; data := _ |}).
  assert (Hdata : data targets
                  = flat_map (fun x => map (fun row => Z.of_nat (argmax_list row))
                                           (chunks c b (data (get_logits x))))
                             model_inputs).
  { unfold targets. cbn [data].
    rewrite flat_map_concat_map, concat_map, !map_map. reflexivity. }
  assert (Hlen : length (data targets) = n * b).
  { rewrite Hdata, flat_map_concat_map.
    rewrite (length_concat_uniform b), length_map; [reflexivity|].
    apply Forall_fmap, Forall_forall. intros x _. cbn.
    rewrite length_map. apply length_chunks. }
  assert (Hpt : ClassificationInferenceWrapper.process_target targets [n; b]
                = Ok targets)
    by (apply process_target_matching; [reflexivity|exact Hlen]).
  rewrite Hpt. cbn [bind]. rewrite <- Hdata. reflexivity.
Qed.

End DefaultTargets.

Lemma default_targets_are_argmax_witness :
  Attributions.process_inputs_to_explain_and_targets
    (fun x : list Z => {| Torch.shape := [1; 3]; Torch.data := map Qc_of_Z x |})
    [[1; 7; 3]; [9; 2; 9]; [0; 0; 5]]%Z None
  = Ok ([[1; 7; 3]; [9; 2; 9]; [0; 0; 5]]%Z,
        {| Torch.shape := [3; 1]; Torch.data := [1; 0; 2]%Z |}).
Proof.
  apply (default_targets_are_argmax
           (fun x : list Z => {| Torch.shape := [1; 3]; Torch.data := map Qc_of_Z x |})
           [[1; 7; 3]; [9; 2; 9]; [0; 0; 5]]%Z 1 3).
  - discriminate.
  - lia.
  - repeat apply Forall_cons; try apply Forall_nil; split; reflexivity.
Defined.
(** ** The choice of the task-specific explainer *)

Section Dispatch.
Import Attributions.
Local Open Scope string_scope.

Lemma endswith_empty (suffix : string) :
  endswith "" suffix = true -> suffix = "".
Proof.
  cbn. rewrite orb_false_r. intros H. symmetry. apply String.eqb_eq, H.
Qed.

Lemma endswith_last_char (s suffix : string) :
  suffix <> "" -> endswith s suffix = true -> last_char s = last_char suffix.
Proof.
  intros Hne. induction s as [|c s IH]; intros H.
  - apply endswith_empty in H. congruence.
  - cbn [endswith] in H. apply orb_true_iff in H as [H|H].
    + apply String.eqb_eq in H. rewrite H. reflexivity.
    + rewrite <- (IH H). destruct s as [|c' s']; [|reflexivity].
      apply endswith_empty in H. congruence.
Qed.

(** A class name ends in at most one of the task suffixes. *)
Lemma generation_is_not_classification (name : string) :
  endswith name "ForCausalLM" = true \/ endswith name "LMHeadModel" = true ->
  endswith name "ForSequenceClassification" = false.
Proof.
  intros H. destruct (endswith name "ForSequenceClassification") eqn:E; [|reflexivity].
  apply endswith_last_char in E; [|discriminate].
  destruct H as [H|H].
  - apply endswith_last_char in H; [|discriminate]. rewrite E in H. discriminate.
  - apply endswith_last_char in H; [|discriminate]. rewrite E in H. discriminate.
Qed.

(** C7: constructing a multitask explainer on a class that the factory did
    not generate dispatches on the class name of the model: a name ending
    in [ForSequenceClassification] gives an object of a generated class
    with [ClassificationAttributionExplainer] among its bases, a name
    ending in [ForCausalLM] or [LMHeadModel] one with
    [GenerationAttributionExplainer], and every other name raises
    [NotImplementedError]. *)
Theorem multitask_dispatch (cls : pyclass) (name : string) :
  factory_generated cls = false ->
  (endswith name "ForSequenceClassification" = true ->
   exists e, new cls name = Ok e
             /\ is_classification_explainer e = true
             /\ factory_generated (class_of e) = true
             /\ cls_name (class_of e) = "Classification" ++ cls_name cls)
  /\ (endswith name "ForCausalLM" = true \/ endswith name "LMHeadModel" = true ->
      exists e, new cls name = Ok e
                /\ is_generation_explainer e = true
                /\ factory_generated (class_of e) = true
                /\ cls_name (class_of e) = "Generation" ++ cls_name cls)
  /\ (endswith name "ForSequenceClassification" = false ->
      endswith name "ForCausalLM" = false ->
      endswith name "LMHeadModel" = false ->
      new cls name = Raise NotImplementedError).
Proof.
  intros Hcls. unfold new. rewrite Hcls. repeat split.
  - intros ->. eexists. split; [reflexivity|]. repeat split.
    apply bool_decide_eq_true_2. cbn. rewrite !elem_of_cons. auto.
  - intros H. rewrite (generation_is_not_classification name H).
    assert (E : endswith name "ForCausalLM" || endswith name "LMHeadModel" = true)
      by (apply orb_true_iff; exact H).
    rewrite E. eexists. split; [reflexivity|]. repeat split.
    apply bool_decide_eq_true_2. cbn. rewrite !elem_of_cons. auto.
  - intros -> -> ->. reflexivity.
Qed.

End Dispatch.

Lemma multitask_dispatch_witness :
  exists e,
    Attributions.new
      {| Attributions.cls_name := "SobolAttribution";
         Attributions.cls_bases := ["MultitaskExplainerMixin"; "AttributionExplainer"];
         Attributions.factory_generated := false |}
      "BertForSequenceClassification" = Ok e
    /\ Attributions.is_classification_explainer e = true
    /\ Attributions.factory_generated (Attributions.class_of e) = true
    /\ Attributions.cls_name (Attributions.class_of e)
       = "ClassificationSobolAttribution"%string.
Proof.
  apply (multitask_dispatch
           {| Attributions.cls_name := "SobolAttribution";
              Attributions.cls_bases := ["MultitaskExplainerMixin"; "AttributionExplainer"];
              Attributions.factory_generated := false |}
           "BertForSequenceClassification" eq_refl).
  reflexivity.
Defined.

Example dispatch_generation :
  Attributions.is_generation_explainer
    <$> (match Attributions.new
                 {| Attributions.cls_name := "SobolAttribution";
                    Attributions.cls_bases := [];
                    Attributions.factory_generated := false |}
                 "GPT2LMHeadModel" with
         | Ok e => Some e
         | Raise _ => None
         end) = Some true.
Proof. reflexivity. Qed.

Example dispatch_unsupported :
  Attributions.new
    {| Attributions.cls_name := "SobolAttribution";
       Attributions.cls_bases := [];
       Attributions.factory_generated := false |}
    "BertModel" = Raise NotImplementedError.
Proof. reflexivity. Qed.

(** ** The replacement token of the Sobol explainer *)

Section ReplaceToken.
Import SobolAttribution.

Lemma add_replace_token (tk : tokenizer) :
  vocab tk !! replace_token = None ->
  add_tokens tk [replace_token]
  = {| vocab := <[replace_token := len tk]> (vocab tk) |}.
Proof. intros H. unfold add_tokens. cbn. rewrite H. reflexivity. Qed.

Lemma init_known (tk : tokenizer) (m : model) (i : nat) :
  vocab tk !! replace_token = Some i -> init tk m = (tk, m, Some i).
Proof.
  intros H. unfold init, get_vocab.
  rewrite bool_decide_eq_true_2 by (apply elem_of_dom; eauto).
  unfold convert_tokens_to_ids. rewrite H. reflexivity.
Qed.

Lemma init_unknown (tk : tokenizer) (m : model) :
  vocab tk !! replace_token = None ->
  init tk m = ({| vocab := <[replace_token := len tk]> (vocab tk) |},
               {| embedding_rows := S (len tk) |},
               Some (len tk)).
Proof.
  intros H. unfold init, get_vocab.
  rewrite bool_decide_eq_false_2
    by (rewrite elem_of_dom, H; intros [? ?]; discriminate).
  rewrite (add_replace_token tk H).
  unfold convert_tokens_to_ids, resize_token_embeddings, len. cbn [vocab].
  rewrite lookup_insert_eq, map_size_insert_None by exact H. reflexivity.
Qed.

(** C9: constructing a [SobolAttribution] leaves the tokenizer and the
    model as they are when ["[REPLACE]"] is in the vocabulary; otherwise it
    adds the token, which makes the vocabulary one larger, and resizes the
    embedding table to the new vocabulary size; and a second construction
    with the tokenizer and model the first one left changes neither. *)
Theorem replace_token_registered_once (tk : tokenizer) (m : model) :
  let '(tk1, m1, id1) := init tk m in
  (replace_token ∈ dom (vocab tk) -> tk1 = tk /\ m1 = m)
  /\ (replace_token ∉ dom (vocab tk) ->
      vocab tk1 = <[replace_token := len tk]> (vocab tk)
      /\ len tk1 = S (len tk)
      /\ embedding_rows m1 = len tk1)
  /\ replace_token ∈ dom (vocab tk1)
  /\ id1 = vocab tk1 !! replace_token
  /\ init tk1 m1 = (tk1, m1, id1)
  /\ len (fst (fst (init tk1 m1))) = len tk1
  /\ embedding_rows (snd (fst (init tk1 m1))) = embedding_rows m1.
Proof.
  destruct (vocab tk !! replace_token) as [i|] eqn:E.
  - rewrite (init_known tk m i E), (init_known tk m i E). cbn [fst snd].
    assert (Hin : replace_token ∈ dom (vocab tk)) by (apply elem_of_dom; eauto).
    split; [intros _; split; reflexivity|].
    split; [intros Hout; contradiction|].
    split; [exact Hin|].
    split; [symmetry; exact E|].
    split; [reflexivity|]. split; reflexivity.
  - rewrite (init_unknown tk m E).
    assert (E1 : vocab {| vocab := <[replace_token := len tk]> (vocab tk) |}
                 !! replace_token = Some (len tk)) by apply lookup_insert_eq.
    rewrite (init_known _ _ (len tk) E1). cbn [fst snd vocab embedding_rows].
    assert (Hsize : len {| vocab := <[replace_token := len tk]> (vocab tk) |}
                    = S (len tk)).
    { unfold len. cbn [vocab]. apply map_size_insert_None, E. }
    split.
    { intros Hin. apply elem_of_dom in Hin as [j Hj]. congruence. }
    split.
    { intros _. split; [reflexivity|]. split; [exact Hsize|]. symmetry. exact Hsize. }
    split; [apply elem_of_dom; eauto|].
    split; [symmetry; exact E1|].
    split; [reflexivity|]. split; reflexivity.
Qed.

End ReplaceToken.

Example replace_token_new :
  let '(tk1, m1, id1) :=
    SobolAttribution.init
      {| SobolAttribution.vocab := {[ "[PAD]"%string := 0; "[UNK]"%string := 1 ]} |}
      {| SobolAttribution.embedding_rows := 2 |} in
  SobolAttribution.len tk1 = 3
  /\ SobolAttribution.embedding_rows m1 = 3
  /\ id1 = Some 2
  /\ SobolAttribution.init tk1 m1 = (tk1, m1, Some 2).
Proof. vm_compute. repeat split. Qed.

(** * Further properties *)

(** ** Cursors and the wrapper read one buffer *)

Section Replay.
Import GeneratorTools.
Context {V : Type}.
Variable src : list (V * V).

Section Component.
Variable pos : Z.
Variable proj : V * V -> V.
Hypothesis pos_proj : forall p, getindex (pair_tuple p) pos = Ok (proj p).

Lemma next_behind (i k : nat) (p : V * V) :
  i < k -> k <= length src -> src !! i = Some p ->
  subgenerator_next {| sg_position := PInt pos; sg_index := i |} (advanced_to src k)
  = (Ok (Elem (proj p)), {| sg_position := PInt pos; sg_index := S i |},
     advanced_to src k).
Proof.
  intros Hi Hk Hp. unfold subgenerator_next. cbn [sg_index sg_position].
  rewrite (buffer_advanced_length src k Hk).
  replace (k <=? i) with false by (symmetry; apply Nat.leb_gt; exact Hi).
  rewrite (buffer_advanced_lookup src k i p Hi Hp).
  cbn [tuple_getitem]. rewrite pos_proj. reflexivity.
Qed.

Lemma next_at_end (k : nat) (p : V * V) :
  src !! k = Some p ->
  subgenerator_next {| sg_position := PInt pos; sg_index := k |} (advanced_to src k)
  = (Ok (Elem (proj p)), {| sg_position := PInt pos; sg_index := S k |},
     advanced_to src (S k)).
Proof.
  intros Hp. pose proof (lookup_lt_Some _ _ _ Hp) as Hk.
  unfold subgenerator_next. cbn [sg_index sg_position].
  rewrite (buffer_advanced_length src k) by lia.
  rewrite Nat.leb_refl, (complete_buffer_advanced src k p Hp).
  rewrite (buffer_advanced_lookup src (S k) k p (Nat.lt_succ_diag_r k) Hp).
  cbn [tuple_getitem]. rewrite pos_proj. reflexivity.
Qed.

Lemma next_exhausted :
  subgenerator_next {| sg_position := PInt pos; sg_index := length src |}
                    (advanced_to src (length src))
  = (Raise StopIteration,
     {| sg_position := PInt pos; sg_index := length src |},
     advanced_to src (length src)).
Proof.
  unfold subgenerator_next. cbn [sg_index sg_position].
  rewrite (buffer_advanced_length src (length src)) by lia.
  rewrite Nat.leb_refl, complete_buffer_exhausted by lia. reflexivity.
Qed.

(** Draining a cursor that stands at [i] when the buffer holds [k]
    entries. *)
Lemma drain_from (d i k fuel : nat) :
  d = length src - i -> i <= k -> k <= length src -> d < fuel ->
  drain fuel {| sg_position := PInt pos; sg_index := i |} (advanced_to src k)
  = Some (Ok (map (fun p => Elem (proj p)) (drop i src)),
          {| sg_position := PInt pos; sg_index := length src |},
          advanced_to src (length src)).
Proof.
  revert i k fuel. induction d as [|d IH]; intros i k fuel Hd Hik Hk Hfuel;
    (destruct fuel as [|fuel]; [lia|]); cbn [drain].
  - assert (i = length src) as -> by lia. assert (k = length src) as -> by lia.
    rewrite next_exhausted. rewrite drop_ge by lia. reflexivity.
  - destruct (lookup_lt_is_Some_2 src i) as [p Hp]; [lia|].
    rewrite (drop_S _ _ _ Hp). cbn [map].
    destruct (decide (i < k)) as [Hlt|Hge].
    + rewrite (next_behind i k p Hlt Hk Hp).
      rewrite (IH (S i) k fuel) by lia. reflexivity.
    + assert (k = i) as -> by lia.
      rewrite (next_at_end i p Hp).
      rewrite (IH (S i) (S i) fuel) by lia. reflexivity.
Qed.

End Component.

(** X1: a cursor made when the buffer already holds the first [k] pairs
    (another cursor has read them) still yields all [n] components of its
    side, in order; it reads the first [k] from the buffer, and draining it
    takes the count of successful advances of the source from [k] to [n]. *)
Theorem late_cursor_replays_buffer (k extra : nat) :
  k <= length src ->
  drain (S (length src) + extra) (get_subgenerator (PInt 0)) (advanced_to src k)
  = Some (Ok (map (fun p => Elem (fst p)) src),
          {| sg_position := PInt 0; sg_index := length src |},
          advanced_to src (length src))
  /\ drain (S (length src) + extra) (get_subgenerator (PInt 1)) (advanced_to src k)
     = Some (Ok (map (fun p => Elem (snd p)) src),
             {| sg_position := PInt 1; sg_index := length src |},
             advanced_to src (length src))
  /\ yielded (generator (advanced_to src k)) = k
  /\ yielded (generator (advanced_to src (length src))) = length src.
Proof.
  intros Hk. split; [|split; [|split; reflexivity]].
  - apply (drain_from 0 fst (fun p => eq_refl) (length src) 0 k); lia.
  - apply (drain_from 1 snd (fun p => eq_refl) (length src) 0 k); lia.
Qed.

Lemma length_buffered (k : nat) :
  k <= length src -> length (take k (map pair_tuple src)) = k.
Proof. intros Hk. rewrite length_take, length_map. lia. Qed.

Lemma wrapper_next_behind (i k : nat) (p : V * V) :
  i < k -> k <= length src -> src !! i = Some p ->
  wrapper_next (advanced_at src k i) = (Ok (pair_tuple p), advanced_at src k (S i)).
Proof.
  intros Hi Hk Hp. unfold wrapper_next, advanced_at. cbn [buffer index].
  rewrite (length_buffered k Hk).
  replace (k <=? i) with false by (symmetry; apply Nat.leb_gt; exact Hi).
  cbn [buffer index generator].
  rewrite lookup_take_lt, list_lookup_fmap, Hp by exact Hi. reflexivity.
Qed.

Lemma wrapper_next_at_end (k : nat) (p : V * V) :
  src !! k = Some p ->
  wrapper_next (advanced_at src k k) = (Ok (pair_tuple p), advanced_at src (S k) (S k)).
Proof.
  intros Hp. pose proof (lookup_lt_Some _ _ _ Hp) as Hk.
  assert (Ht : map pair_tuple src !! k = Some (pair_tuple p))
    by (rewrite list_lookup_fmap, Hp; reflexivity).
  unfold wrapper_next, advanced_at. cbn [buffer index].
  rewrite (length_buffered k) by lia.
  rewrite Nat.leb_refl. unfold complete_buffer, source_next.
  cbn [generator pending yielded index buffer].
  rewrite (drop_S _ _ _ Ht). cbn [buffer index generator].
  rewrite <- (take_S_r _ _ _ Ht), lookup_take_lt, Ht by lia. reflexivity.
Qed.

Lemma wrapper_next_exhausted :
  wrapper_next (advanced_at src (length src) (length src))
  = (Raise StopIteration, advanced_at src (length src) (length src)).
Proof.
  unfold wrapper_next, advanced_at. cbn [buffer index].
  rewrite (length_buffered (length src)) by lia.
  rewrite Nat.leb_refl. unfold complete_buffer, source_next.
  cbn [generator pending]. rewrite drop_ge by (rewrite length_map; lia).
  reflexivity.
Qed.

Lemma drain_wrapper_from (d i k fuel : nat) :
  d = length src - i -> i <= k -> k <= length src -> d < fuel ->
  drain_wrapper fuel (advanced_at src k i)
  = Some (Ok (map pair_tuple (drop i src)),
          advanced_at src (length src) (length src)).
Proof.
  revert i k fuel. induction d as [|d IH]; intros i k fuel Hd Hik Hk Hfuel;
    (destruct fuel as [|fuel]; [lia|]); cbn [drain_wrapper].
  - assert (i = length src) as -> by lia. assert (k = length src) as -> by lia.
    rewrite wrapper_next_exhausted. rewrite drop_ge by lia. reflexivity.
  - destruct (lookup_lt_is_Some_2 src i) as [p Hp]; [lia|].
    rewrite (drop_S _ _ _ Hp). cbn [map].
    destruct (decide (i < k)) as [Hlt|Hge].
    + rewrite (wrapper_next_behind i k p Hlt Hk Hp).
      rewrite (IH (S i) k fuel) by lia. reflexivity.
    + assert (k = i) as -> by lia.
      rewrite (wrapper_next_at_end i p Hp).
      rewrite (IH (S i) (S i) fuel) by lia. reflexivity.
Qed.

(** X2: iterating the wrapper itself, after cursors have brought the buffer
    to its first [k] pairs, yields all [n] tuples in source order; the first
    [k] come from the buffer, the source is advanced [n - k] more times, and
    the wrapper ends with the whole source buffered. *)
Theorem wrapper_iterates_whole_source (k extra : nat) :
  k <= length src ->
  drain_wrapper (S (length src) + extra) (advanced_to src k)
  = Some (Ok (map pair_tuple src), advanced_at src (length src) (length src))
  /\ yielded (generator (advanced_to src k)) = k
  /\ yielded (generator (advanced_at src (length src) (length src))) = length src
  /\ buffer (advanced_at src (length src) (length src)) = map pair_tuple src
  /\ wrapper_next (advanced_at src (length src) (length src))
     = (Raise StopIteration, advanced_at src (length src) (length src)).
Proof.
  intros Hk. split; [|split; [reflexivity|split; [reflexivity|split]]].
  - apply (drain_wrapper_from (length src) 0 k); lia.
  - cbn [buffer advanced_at]. apply take_ge. rewrite length_map. lia.
  - apply wrapper_next_exhausted.
Qed.

End Replay.

Lemma late_cursor_replays_buffer_witness :
  GeneratorTools.drain 4 (GeneratorTools.get_subgenerator (GeneratorTools.PInt 1))
    (advanced_to [(1, 10); (2, 20); (3, 30)] 2)
  = Some (Ok [GeneratorTools.Elem 10; GeneratorTools.Elem 20; GeneratorTools.Elem 30],
          {| GeneratorTools.sg_position := GeneratorTools.PInt 1;
             GeneratorTools.sg_index := 3 |},
          advanced_to [(1, 10); (2, 20); (3, 30)] 3).
Proof.
  apply (late_cursor_replays_buffer [(1, 10); (2, 20); (3, 30)] 2 0). cbn. lia.
Defined.

Lemma wrapper_iterates_whole_source_witness :
  GeneratorTools.drain_wrapper 4 (advanced_to [(1, 10); (2, 20); (3, 30)] 2)
  = Some (Ok [[1; 10]; [2; 20]; [3; 30]],
          advanced_at [(1, 10); (2, 20); (3, 30)] 3 3).
Proof.
  apply (wrapper_iterates_whole_source [(1, 10); (2, 20); (3, 30)] 2 0). cbn. lia.
Defined.

Section FailedSubscript.
Import GeneratorTools.
Context {V : Type}.

(** X3: when the subscript of a cursor fails on the first tuple (an integer
    out of the tuple's range, a slice with step zero), the first call of
    [__next__] raises that exception after the tuple has been taken from
    the source and buffered, and leaves the cursor where it was; every
    later call raises the same exception and takes nothing more from the
    source. *)
Theorem failed_subscript_repeats (t : tuple V) (rest : list (tuple V))
    (p : position) (e : exn) :
  tuple_getitem t p = Raise e ->
  let c := get_subgenerator p in
  let w0 := new_wrapper {| pending := t :: rest; yielded := 0 |} in
  let w1 := {| generator := {| pending := rest; yielded := 1 |};
               index := 0; buffer := [t] |} in
  subgenerator_next c w0 = (Raise e, c, w1)
  /\ subgenerator_next c w1 = (Raise e, c, w1).
Proof.
  intros He c w0 w1. unfold subgenerator_next, complete_buffer, source_next.
  cbn. rewrite He. split; reflexivity.
Qed.

End FailedSubscript.

Lemma failed_subscript_repeats_witness :
  GeneratorTools.subgenerator_next
    (GeneratorTools.get_subgenerator (GeneratorTools.PInt 2))
    (GeneratorTools.new_wrapper
       {| GeneratorTools.pending := [[1; 10]; [2; 20]]; GeneratorTools.yielded := 0 |})
  = (Raise IndexError,
     GeneratorTools.get_subgenerator (GeneratorTools.PInt 2),
     {| GeneratorTools.generator :=
          {| GeneratorTools.pending := [[2; 20]]; GeneratorTools.yielded := 1 |};
        GeneratorTools.index := 0;
        GeneratorTools.buffer := [[1; 10]] |}).
Proof.
  apply (failed_subscript_repeats [1; 10] [[2; 20]] (GeneratorTools.PInt 2) IndexError).
  reflexivity.
Defined.

(** ** Occlusion: batches, failures and the meaning of the mask *)

Section OcclusionExtras.
Import Torch Occlusion.

Lemma unsqueeze_front {A : Type} (t : tensor A) :
  unsqueeze 0 t = Ok {| shape := 1 :: shape t; data := data t |}.
Proof.
  unfold unsqueeze. change (0 <? 0)%Z with false. cbv zeta iota.
  replace (Z.of_nat (dim t) <? 0)%Z with false by (symmetry; apply Z.ltb_ge; lia).
  reflexivity.
Qed.

Lemma perturb_without_tokens (p : TokenOcclusionPerturbator) (inputs : string) :
  tokenize (tokenizer_of p) inputs = [] -> perturb p inputs = Raise RuntimeError.
Proof. intros H. unfold perturb, variations. rewrite H. reflexivity. Qed.

Lemma perturb_with_tokens (p : TokenOcclusionPerturbator) (inputs : string) :
  tokenize (tokenizer_of p) inputs <> [] ->
  perturb p inputs
  = Ok ({| shape := [1; length (tokenize (tokenizer_of p) inputs);
                     length (tokenize (tokenizer_of p) inputs);
                     embedding_dim (inputs_embeddings p)];
           data := concat (map data (map (embed (inputs_embeddings p))
                     (variations p (tokenize (tokenizer_of p) inputs)))) |},
        eye (length (tokenize (tokenizer_of p) inputs))).
Proof.
  intros Hne. unfold perturb.
  remember (tokenize (tokenizer_of p) inputs) as tokens eqn:Et in *. clear Et.
  rewrite (stack_same_shape _ [length tokens; embedding_dim (inputs_embeddings p)]).
  - cbn [bind]. rewrite unsqueeze_front. cbn [bind shape data].
    rewrite length_map, variations_length. reflexivity.
  - intros H. apply (f_equal length) in H.
    rewrite length_map, variations_length in H.
    destruct tokens; [exact (Hne eq_refl)|discriminate H].
  - apply Forall_fmap, Forall_lookup. intros i ids Hids. cbn.
    assert (Hi : i < length tokens).
    { apply lookup_lt_Some in Hids. rewrite variations_length in Hids. exact Hids. }
    rewrite (variations_lookup p tokens i Hi) in Hids. injection Hids as <-.
    unfold convert_tokens_to_ids. rewrite length_map, length_insert. reflexivity.
Qed.

(** X4: [TokenOcclusionPerturbator.perturb] raises exactly on the sentences
    the tokenizer gives no token for (the empty stack is an error of torch);
    on every other sentence it returns. *)
Theorem token_perturb_fails_only_without_tokens (p : TokenOcclusionPerturbator)
    (inputs : string) :
  (tokenize (tokenizer_of p) inputs = [] <-> perturb p inputs = Raise RuntimeError)
  /\ (tokenize (tokenizer_of p) inputs <> [] <-> exists r, perturb p inputs = Ok r).
Proof.
  split; split.
  - apply perturb_without_tokens.
  - intros H. destruct (tokenize (tokenizer_of p) inputs) as [|t ts] eqn:E; [reflexivity|].
    rewrite perturb_with_tokens in H by (rewrite E; discriminate). discriminate.
  - intros H. eexists. apply perturb_with_tokens, H.
  - intros [r H] E. rewrite (perturb_without_tokens p inputs E) in H. discriminate.
Qed.

(** X5: on an iterable of sentences [perturb] returns, in order, what it
    returns on each sentence, and returns at all only when it does on every
    sentence; the first sentence it fails on decides the exception. *)
Theorem batch_perturb_is_itemwise (p : TokenOcclusionPerturbator)
    (inputs : list string) :
  (forall rs, perturb_all p inputs = Ok rs
              <-> Forall2 (fun s r => perturb p s = Ok r) inputs rs)
  /\ (forall done s rest e,
        inputs = done ++ s :: rest ->
        Forall (fun s' => exists r, perturb p s' = Ok r) done ->
        perturb p s = Raise e ->
        perturb_all p inputs = Raise e).
Proof.
  split.
  - induction inputs as [|s inputs IH]; intros rs.
    + cbn. split.
      * intros H. injection H as <-. constructor.
      * intros H. inversion H. reflexivity.
    + cbn [perturb_all]. destruct (perturb p s) as [r|e] eqn:Es; cbn [bind].
      * destruct (perturb_all p inputs) as [rs'|e'] eqn:Er; cbn [bind].
        -- split.
           ++ intros H. injection H as <-. constructor; [exact Es|]. apply IH. reflexivity.
           ++ intros H. inversion H as [|? r0 ? rs0 Hr Hrs]; subst.
              rewrite Es in Hr. injection Hr as <-.
              apply IH in Hrs. injection Hrs as <-. reflexivity.
        -- split; [discriminate|].
           intros H. inversion H as [|? r0 ? rs0 Hr Hrs]; subst.
           apply IH in Hrs. discriminate.
      * split; [discriminate|].
        intros H. inversion H as [|? r0 ? rs0 Hr Hrs]; subst. congruence.
  - intros done. revert inputs. induction done as [|d done IH];
      intros inputs s rest e -> Hdone Hs.
    + cbn [app perturb_all]. rewrite Hs. reflexivity.
    + cbn [app perturb_all]. inversion Hdone as [|? ? [r Hr] Hdone']; subst.
      rewrite Hr. cbn [bind].
      rewrite (IH (done ++ s :: rest) s rest e eq_refl Hdone' Hs). reflexivity.
Qed.

(** X6: the mask says which token a variant replaces: in variant [i] the id
    at position [j] is the id of the mask token where the mask has a one at
    [(i, j)], and the id of the sentence's own token where it has a zero. *)
Theorem mask_marks_replaced_token (p : TokenOcclusionPerturbator)
    (tokens : list string) (i j : nat) (tok : string) :
  i < length tokens -> tokens !! j = Some tok ->
  exists ids m,
    variations p tokens !! i = Some ids
    /\ data (eye (length tokens)) !! (i * length tokens + j) = Some m
    /\ (m = 1%Qc \/ m = 0%Qc)
    /\ ids !! j = Some (convert_token_to_id (tokenizer_of p)
                          (if bool_decide (m = 1%Qc) then mask_value p else tok)).
Proof.
  intros Hi Hj. pose proof (lookup_lt_Some _ _ _ Hj) as Hjl.
  exists (convert_tokens_to_ids (tokenizer_of p) (<[i := mask_value p]> tokens)),
         (if decide (i = j) then 1%Qc else 0%Qc).
  split; [apply variations_lookup, Hi|].
  split; [apply eye_lookup; assumption|].
  split; [destruct (decide (i = j)); auto|].
  unfold convert_tokens_to_ids. rewrite list_lookup_fmap.
  destruct (decide (i = j)) as [->|Hne].
  - rewrite list_lookup_insert_eq by exact Hjl.
    rewrite bool_decide_eq_true_2 by reflexivity. reflexivity.
  - rewrite list_lookup_insert_ne by exact Hne. rewrite Hj.
    rewrite bool_decide_eq_false_2; [reflexivity|].
    intros E. symmetry in E. exact (Q_apart_0_1 E).
Qed.

(** *** Word occlusion *)

Lemma split_from_blank (s : string) :
  Forall (fun c => is_space c = true) (list_ascii_of_string s) ->
  split_from [] s = [].
Proof.
  induction s as [|c s IH]; intros H; [reflexivity|].
  cbn [list_ascii_of_string] in H. inversion H as [|? ? Hc Hs]; subst.
  cbn [split_from]. rewrite Hc. apply IH, Hs.
Qed.

Lemma python_max_bound (l : list nat) (m : nat) :
  python_max l = Ok m -> Forall (fun a => a <= m) l.
Proof.
  destruct l as [|a l]; [discriminate|]. cbn [python_max]. intros H.
  injection H as <-.
  assert (Hmono : forall (k : list nat) (b : nat),
             b <= fold_left Nat.max k b
             /\ Forall (fun x => x <= fold_left Nat.max k b) k).
  { induction k as [|x k IH]; intros b; cbn [fold_left].
    - split; [lia|constructor].
    - destruct (IH (Nat.max b x)) as [H1 H2]. split; [lia|].
      constructor; [lia|exact H2]. }
  destruct (Hmono l a) as [H1 H2]. constructor; assumption.
Qed.

Lemma python_max_raises (l : list nat) (e : exn) :
  python_max l = Raise e -> l = [].
Proof. destruct l; [reflexivity|discriminate]. Qed.

(** X7: for a sentence of [w >= 1] words, [WordOcclusionPerturbator.perturb]
    returns [w] variants and the [w x w] identity as mask; the variants are
    padded with the pad id to the length of the longest one, so that all
    have that length and the stack is well formed; no variant is
    shortened. *)
Theorem word_perturb_pads_to_longest (p : WordOcclusionPerturbator)
    (inputs : string) :
  split inputs <> [] ->
  let words := split inputs in
  let variations := word_variations p words in
  exists embeddings longest,
    word_perturb p inputs = Ok (embeddings, eye (length words))
    /\ python_max (map (fun v => length v) variations) = Ok longest
    /\ shape embeddings
       = [1; length words; longest; embedding_dim (word_inputs_embeddings p)]
    /\ Forall (fun v => length v <= longest) variations
    /\ data embeddings
       = flat_map (fun v => data (embed (word_inputs_embeddings p)
                              (v ++ replicate (longest - length v) (pad_token_id p))))
                  variations.
Proof.
  intros Hne words variations. unfold word_perturb. fold words. fold variations.
  assert (Hlen : length variations = length words)
    by (unfold variations, word_variations; apply length_imap).
  assert (Hpos : 0 < length words).
  { subst words. destruct (split inputs) as [|w ws]; [exact (False_ind _ (Hne eq_refl))|].
    cbn. lia. }
  destruct (python_max (map (fun v => length v) variations)) as [longest|e] eqn:Emax.
  2: { apply python_max_raises in Emax. apply (f_equal length) in Emax.
       rewrite length_map, Hlen in Emax. cbn in Emax. lia. }
  pose proof (python_max_bound _ _ Emax) as Hbound.
  assert (Hle : Forall (fun v : list Z => length v <= longest) variations).
  { rewrite Forall_forall in Hbound. apply Forall_forall. intros v Hv.
    apply Hbound, in_map, Hv. }
  cbn [bind].
  rewrite (stack_same_shape _ [longest; embedding_dim (word_inputs_embeddings p)]).
  - cbn [bind]. rewrite unsqueeze_front. cbn [bind shape data].
    exists {| shape := [1; length words; longest;
                        embedding_dim (word_inputs_embeddings p)];
              data := concat (map data (map (embed (word_inputs_embeddings p))
                        (map (fun v => v ++ replicate (longest - length v)
                                                      (pad_token_id p)) variations))) |},
           longest.
    rewrite !length_map, Hlen.
    split; [reflexivity|]. split; [reflexivity|]. split; [reflexivity|].
    split; [exact Hle|]. cbn [data].
    rewrite flat_map_concat_map, !map_map. reflexivity.
  - intros H. apply (f_equal length) in H. rewrite !length_map, Hlen in H.
    cbn in H. lia.
  - apply Forall_fmap, Forall_fmap. rewrite Forall_forall in Hle.
    apply Forall_forall. intros v Hv. cbn.
    rewrite length_app, length_replicate. specialize (Hle v Hv). cbn beta in Hle.
    f_equal. lia.
Qed.

(** X8: on a sentence of white space only, the empty one included,
    [WordOcclusionPerturbator.perturb] raises [ValueError]: there is no
    variant to take the longest of. *)
Theorem word_perturb_blank_sentence (p : WordOcclusionPerturbator)
    (inputs : string) :
  Forall (fun c => is_space c = true) (list_ascii_of_string inputs) ->
  exists message, word_perturb p inputs = Raise (ValueError message).
Proof.
  intros H. unfold word_perturb, split. rewrite (split_from_blank inputs H).
  eexists. reflexivity.
Qed.

End OcclusionExtras.

Lemma mask_marks_replaced_token_witness :
  exists ids m,
    Occlusion.variations (Occlusion.init character_tokenizer identity_embedding None)
      ["a"; "b"]%string !! 1 = Some ids
    /\ Torch.data (Torch.eye 2) !! (1 * 2 + 0) = Some m
    /\ (m = 1%Qc \/ m = 0%Qc)
    /\ ids !! 0
       = Some (Occlusion.convert_token_to_id character_tokenizer
                 (if bool_decide (m = 1%Qc) then "#" else "a")%string).
Proof.
  apply (mask_marks_replaced_token
           (Occlusion.init character_tokenizer identity_embedding None)
           ["a"; "b"]%string 1 0 "a"%string).
  - cbn. lia.
  - reflexivity.
Defined.

Lemma word_perturb_pads_to_longest_witness :
  exists embeddings longest,
    Occlusion.word_perturb
      (Occlusion.word_init character_tokenizer 0 identity_embedding None) "ab  c"
    = Ok (embeddings, Torch.eye 2)
    /\ Occlusion.python_max
         (map (fun v => length v)
              (Occlusion.word_variations
                 (Occlusion.word_init character_tokenizer 0 identity_embedding None)
                 ["ab"; "c"]%string)) = Ok longest
    /\ Torch.shape embeddings = [1; 2; longest; 1].
Proof.
  destruct (word_perturb_pads_to_longest
              (Occlusion.word_init character_tokenizer 0 identity_embedding None)
              "ab  c") as (e & l & H1 & H2 & H3 & _).
  - discriminate.
  - exists e, l. split; [exact H1|]. split; [exact H2|exact H3].
Defined.

Lemma word_perturb_blank_sentence_witness :
  exists message,
    Occlusion.word_perturb
      (Occlusion.word_init character_tokenizer 0 identity_embedding None) "   "
    = Raise (ValueError message).
Proof.
  apply word_perturb_blank_sentence.
  repeat constructor.
Defined.

Example word_variations_of_two_words :
  Occlusion.word_variations
    (Occlusion.word_init character_tokenizer 0 identity_embedding None)
    (Occlusion.split "ab  c")
  = [[35; 35; 32; 99]; [97; 98; 35; 32]]%Z.
Proof. reflexivity. Qed.

(** ** Linear interpolation: exceptions and degenerate sample counts *)

Section InterpolationExtras.
Import Torch LinearInterpolation.

Variable inner_step : nat -> nat -> spec_float.

Local Abbreviation perturb := (LinearInterpolation.perturb inner_step).
Local Abbreviation linspace := (LinearInterpolation.linspace inner_step).

Lemma linspace_raises (n : Z) (e : exn) :
  linspace n = Raise e -> e = RuntimeError.
Proof.
  unfold LinearInterpolation.linspace.
  destruct (n <? 0)%Z; [congruence|discriminate].
Qed.

Lemma view_raises {A : Type} (t : tensor A) (sizes : list Z) (e : exn) :
  view t sizes = Raise e -> e = RuntimeError.
Proof.
  unfold view. destruct (existsb _ sizes); [congruence|].
  destruct (length (filter _ sizes)) as [|[|k]].
  - destruct (_ =? _); [discriminate|congruence].
  - destruct (_ || _); [congruence|discriminate].
  - congruence.
Qed.

Lemma unsqueeze_raises {A : Type} (d : Z) (t : tensor A) (e : exn) :
  unsqueeze d t = Raise e -> e = IndexError.
Proof. unfold unsqueeze. cbv zeta. destruct (_ || _); [congruence|discriminate]. Qed.

Lemma broadcast_raises (s1 s2 : list nat) (e : exn) :
  broadcast_aligned s1 s2 = Raise e -> e = RuntimeError.
Proof.
  revert s2. induction s1 as [|a s1 IH]; intros [|b s2]; cbn [broadcast_aligned];
    try congruence.
  destruct (broadcast_aligned s1 s2) as [rest|e'] eqn:E; cbn [bind].
  - destruct (a =? b); [discriminate|].
    destruct (a =? 1); [discriminate|].
    destruct (b =? 1); [discriminate|congruence].
  - intros H. injection H as <-. apply (IH s2), E.
Qed.

Lemma pointwise_raises {A : Type} (op : A -> A -> A) (x y : tensor A) (e : exn) :
  pointwise op x y = Raise e -> e = RuntimeError.
Proof.
  unfold pointwise. cbv zeta.
  destruct (broadcast_aligned _ _) as [to|e'] eqn:E; cbn [bind]; [discriminate|].
  intros H. injection H as <-. apply broadcast_raises in E. exact E.
Qed.

Lemma init_baseline (baseline : pyvalue) (self : LinearInterpolationPerturbation) :
  init baseline = Ok self ->
  baseline_of self = baseline
  /\ (forall s, baseline <> PyStr s) /\ baseline <> PyObject.
Proof.
  destruct baseline; cbn [init]; intros H; try discriminate;
    injection H as <-; repeat split; congruence.
Qed.

(** X9: a perturbator that [__init__] accepted never raises [TypeError] or
    [AssertionError] from [perturb] on a tensor: the only exceptions are the
    [ValueError] of a mismatched tensor baseline, [IndexError],
    [RuntimeError] and, for an integer baseline that 64 bits do not hold,
    [OverflowError]; constructing it with a string baseline fails with
    [AssertionError]. *)
Theorem perturb_exceptions (baseline : pyvalue) :
  (forall str, init (PyStr str) = Raise AssertionError)
  /\ (forall self x n_samples e,
        init baseline = Ok self ->
        perturb self x n_samples = Raise e ->
        (exists message, e = ValueError message)
        \/ e = IndexError \/ e = RuntimeError
        \/ (e = OverflowError
            /\ exists z, baseline = PyInt z /\ (z < - 2 ^ 63 \/ 2 ^ 64 <= z)%Z)).
Proof.
  split; [reflexivity|].
  intros self x n e Hinit Hp. destruct (init_baseline _ _ Hinit) as (Hb & Hstr & Hobj).
  unfold LinearInterpolation.perturb in Hp. rewrite Hb in Hp.
  destruct (adjust_baseline baseline (PyTensor x)) as [base|e0] eqn:Ea; cbn [bind] in Hp.
  - destruct (adjust_baseline_result _ _ _ Ea) as (Hs & _ & _).
    rewrite bool_decide_eq_true_2 in Hp by (symmetry; exact Hs). cbn [negb] in Hp.
    destruct (linspace n) as [line|e1] eqn:E1; cbn [bind] in Hp.
    2: { injection Hp as <-. apply linspace_raises in E1. auto. }
    destruct (view line _) as [alphas|e2] eqn:E2; cbn [bind] in Hp.
    2: { injection Hp as <-. apply view_raises in E2. auto. }
    destruct (unsqueeze 1 (dt_tensor x)) as [inputs1|e3] eqn:E3; cbn [bind] in Hp.
    2: { injection Hp as <-. apply unsqueeze_raises in E3. auto. }
    destruct (view (dt_tensor base) _) as [baseline1|e4] eqn:E4; cbn [bind] in Hp.
    2: { injection Hp as <-. apply view_raises in E4. auto. }
    cbv zeta in Hp.
    destruct (pointwise _ (tmap _ alphas) inputs1) as [l|e5] eqn:E5;
      cbn [bind] in Hp.
    2: { injection Hp as <-. apply pointwise_raises in E5. auto. }
    destruct (pointwise _ alphas baseline1) as [r|e6] eqn:E6; cbn [bind] in Hp.
    2: { injection Hp as <-. apply pointwise_raises in E6. auto. }
    destruct (pointwise _ l r) as [o|e7] eqn:E7; cbn [bind] in Hp.
    2: { injection Hp as <-. apply pointwise_raises in E7. auto. }
    discriminate.
  - injection Hp as <-. apply adjust_baseline_raises in Ea.
    destruct baseline as [|v|z|q|str|t|]; auto.
    + destruct Ea as [->|[-> Hz]]; [auto|].
      right. right. right. split; [reflexivity|]. exists z. auto.
    + exfalso. exact (Hstr str eq_refl).
    + exfalso. exact (Hobj eq_refl).
Qed.

(** X10: with [n_samples = 0] [perturb] returns a tensor without entries;
    with [n_samples = 1] the only step is 0 and the single variant equals
    the input wherever the entry of the input is a finite number of the
    format of the result and the entry of the baseline is finite. *)
Theorem perturb_degenerate_counts (self : LinearInterpolationPerturbation)
    (x base : dtensor) (b : nat) (s : list nat) :
  shape (dt_tensor x) = b :: s ->
  well_formed (dt_tensor x) ->
  adjust_baseline (baseline_of self) (PyTensor x) = Ok base ->
  well_formed (dt_tensor base) ->
  let d := result_type (dt_dtype x) in
  perturb self x 0
  = Ok ({| dt_dtype := d; dt_tensor := {| shape := b :: 0 :: s; data := [] |} |},
        None)
  /\ exists out,
       perturb self x 1 = Ok ({| dt_dtype := d; dt_tensor := out |}, None)
       /\ shape out = b :: 1 :: s
       /\ forall i j xf bf,
            i < b -> j < numel s ->
            data (dt_tensor x) !! (i * numel s + j) = Some (Float xf) ->
            data (dt_tensor base) !! j = Some (Float bf) ->
            in_format d xf -> finite bf ->
            exists v, data out !! (i * numel s + j) = Some (Float v)
                      /\ same_number v xf.
Proof.
  intros Hs Hwf Hbase Hbwf d.
  destruct (adjust_baseline_result _ _ _ Hbase) as (Hbs & _ & _).
  rewrite Hs in Hbs. cbn [drop] in Hbs. rewrite drop_0 in Hbs.
  assert (Hxd : length (data (dt_tensor x)) = b * numel s).
  { unfold well_formed in Hwf. rewrite Hwf, Hs. reflexivity. }
  assert (Hbd : length (data (dt_tensor base)) = numel s).
  { unfold well_formed in Hbwf. rewrite Hbwf, Hbs. reflexivity. }
  split.
  - rewrite (perturb_interpolated inner_step self x base 0 b s) by (assumption || lia).
    change (Z.to_nat 0) with 0. fold d. do 4 f_equal.
    apply length_zero_iff_nil.
    rewrite (length_interpolated _ _ _ _ b (numel s)) by assumption.
    cbn [seq map length]. lia.
  - eexists. split.
    { apply (perturb_interpolated inner_step self x base 1 b s); assumption || lia. }
    cbn [shape data]. split; [reflexivity|].
    intros i j xf bf Hi Hj Hxv Hbv Hx Hb.
    exists (blend d (step inner_step 1 0) xf bf). split.
    + change (Z.to_nat 1) with 1. cbn [seq map].
      replace (i * numel s + j)
        with ((i * length [Float (step inner_step 1 0)] + 0) * numel s + j) at 1
        by (cbn [length]; lia).
      fold d.
      rewrite (interpolated_lookup (plus d) (times d) one_minus
                 [Float (step inner_step 1 0)] b (numel s) i 0 j _ _
                 (Float (step inner_step 1 0)) (Float xf) (Float bf)
                 Hxd Hbd Hi Hj eq_refl Hxv Hbv).
      reflexivity.
    + apply (blend_first d xf bf); assumption.
Qed.

(** X11: on a 0-D input [perturb] raises [IndexError] for every sample
    count that is not negative, although [adjust_baseline] accepted the
    baseline: there is no batch dimension to put the steps after. *)
Theorem perturb_scalar_input (self : LinearInterpolationPerturbation)
    (x base : dtensor) (n_samples : Z) :
  shape (dt_tensor x) = [] ->
  adjust_baseline (baseline_of self) (PyTensor x) = Ok base ->
  (0 <= n_samples)%Z ->
  perturb self x n_samples = Raise IndexError.
Proof.
  intros Hs Hbase Hn.
  destruct (adjust_baseline_result _ _ _ Hbase) as (Hbs & _ & _).
  rewrite Hs in Hbs. cbn [drop] in Hbs.
  unfold LinearInterpolation.perturb. rewrite Hbase. cbn [bind]. rewrite Hs, Hbs.
  cbn [drop].
  rewrite bool_decide_eq_true_2 by reflexivity. cbn [negb].
  rewrite (linspace_steps inner_step n_samples Hn). cbn [bind].
  assert (Hsizes : 1%Z :: n_samples :: replicate (dim (dt_tensor x) - 1) 1%Z
                   = map Z.of_nat [1; Z.to_nat n_samples]).
  { unfold dim. rewrite Hs. cbn. rewrite Z2Nat.id by lia. reflexivity. }
  rewrite Hsizes, view_of_nat
    by (cbn [vector data]; rewrite !numel_cons, length_steps; cbn; lia).
  cbn [bind]. unfold unsqueeze, dim. rewrite Hs. reflexivity.
Qed.

End InterpolationExtras.

(** An integer baseline that 64 bits do not hold: [__init__] accepts
    [2^64], and [perturb] raises [OverflowError] when [torch.full] unpacks
    it. *)
Example perturb_integer_beyond_64_bits :
  LinearInterpolation.init (LinearInterpolation.PyInt (2 ^ 64))
  = Ok {| LinearInterpolation.baseline_of := LinearInterpolation.PyInt (2 ^ 64) |}
  /\ LinearInterpolation.perturb LinearInterpolation.kernel_step
       {| LinearInterpolation.baseline_of := LinearInterpolation.PyInt (2 ^ 64) |}
       {| LinearInterpolation.dt_dtype := LinearInterpolation.Float32;
          LinearInterpolation.dt_tensor :=
            Torch.full [1; 2] (LinearInterpolation.Float (S754_zero false)) |}
       2
     = Raise OverflowError.
Proof. split; reflexivity. Qed.

Lemma perturb_degenerate_counts_witness :
  LinearInterpolation.perturb LinearInterpolation.kernel_step
    {| LinearInterpolation.baseline_of := LinearInterpolation.PyNone |}
    {| LinearInterpolation.dt_dtype := LinearInterpolation.Float32;
       LinearInterpolation.dt_tensor :=
         {| Torch.shape := [1; 2];
            Torch.data :=
              [LinearInterpolation.Float (S754_finite false 8388608 (-21));
               LinearInterpolation.Float (S754_finite false 8388608 (-20))] |} |}
    0
  = Ok ({| LinearInterpolation.dt_dtype := LinearInterpolation.Float32;
           LinearInterpolation.dt_tensor :=
             {| Torch.shape := [1; 0; 2]; Torch.data := [] |} |}, None)
  /\ exists out,
       LinearInterpolation.perturb LinearInterpolation.kernel_step
         {| LinearInterpolation.baseline_of := LinearInterpolation.PyNone |}
         {| LinearInterpolation.dt_dtype := LinearInterpolation.Float32;
            LinearInterpolation.dt_tensor :=
              {| Torch.shape := [1; 2];
                 Torch.data :=
                   [LinearInterpolation.Float (S754_finite false 8388608 (-21));
                    LinearInterpolation.Float (S754_finite false 8388608 (-20))] |} |}
         1
       = Ok ({| LinearInterpolation.dt_dtype := LinearInterpolation.Float32;
                LinearInterpolation.dt_tensor := out |}, None)
       /\ Torch.shape out = [1; 1; 2].
Proof.
  destruct (perturb_degenerate_counts LinearInterpolation.kernel_step
              {| LinearInterpolation.baseline_of := LinearInterpolation.PyNone |}
              {| LinearInterpolation.dt_dtype := LinearInterpolation.Float32;
                 LinearInterpolation.dt_tensor :=
                   {| Torch.shape := [1; 2];
                      Torch.data :=
                        [LinearInterpolation.Float (S754_finite false 8388608 (-21));
                         LinearInterpolation.Float (S754_finite false 8388608 (-20))] |} |}
              {| LinearInterpolation.dt_dtype := LinearInterpolation.Float32;
                 LinearInterpolation.dt_tensor :=
                   Torch.full [2] (LinearInterpolation.Float (S754_zero false)) |}
              1 [2] eq_refl eq_refl eq_refl eq_refl)
    as (H0 & out & H1 & Hs & _).
  split; [exact H0|]. exists out. split; [exact H1|exact Hs].
Defined.

Lemma perturb_scalar_input_witness :
  LinearInterpolation.perturb LinearInterpolation.kernel_step
    {| LinearInterpolation.baseline_of := LinearInterpolation.PyNone |}
    {| LinearInterpolation.dt_dtype := LinearInterpolation.Float32;
       LinearInterpolation.dt_tensor :=
         {| Torch.shape := [];
            Torch.data :=
              [LinearInterpolation.Float (S754_finite false 8388608 (-21))] |} |}
    3
  = Raise IndexError.
Proof.
  apply (perturb_scalar_input LinearInterpolation.kernel_step
           {| LinearInterpolation.baseline_of := LinearInterpolation.PyNone |}
           {| LinearInterpolation.dt_dtype := LinearInterpolation.Float32;
              LinearInterpolation.dt_tensor :=
                {| Torch.shape := [];
                   Torch.data :=
                     [LinearInterpolation.Float (S754_finite false 8388608 (-21))] |} |}
           {| LinearInterpolation.dt_dtype := LinearInterpolation.Float32;
              LinearInterpolation.dt_tensor :=
                Torch.full [] (LinearInterpolation.Float (S754_zero false)) |}
           3); [reflexivity|reflexivity|lia].
Defined.

(** ** Targeted logits: shared targets, surplus inputs, classes out of range *)

Section WrapperExtras.
Import Torch ClassificationInferenceWrapper.

Lemma process_target_vector (targets : tensor Z) (logits : tensor Qc) (n c t : nat) :
  shape targets = [t] -> length (data targets) = t -> shape logits = [n; c] ->
  _process_target targets logits
  = Ok {| shape := [n; t]; data := concat (replicate n (data targets)) |}.
Proof.
  intros Hs Hd Hl. unfold _process_target, process_target_from_1d. rewrite Hs.
  unfold index_shape. rewrite Hl. cbn [removelast bind].
  etransitivity; [apply (expand_leading targets [n] t Hs Hd)|].
  cbn [app]. rewrite numel_cons. cbn [numel fold_right].
  rewrite Nat.mul_1_r. reflexivity.
Qed.

Lemma targeted_logits_vector (targets : tensor Z) (logits : tensor Qc) (n c t : nat) :
  shape targets = [t] -> length (data targets) = t ->
  shape logits = [n; c] -> well_formed logits ->
  Forall (fun z => 0 <= z < Z.of_nat c)%Z (data targets) ->
  targeted_logits_of logits targets = Ok (gathered logits (data targets)).
Proof.
  intros Hs Hd Hl Hwf Hpos. unfold targeted_logits_of.
  rewrite (process_target_vector targets logits n c t Hs Hd Hl). cbn [bind].
  rewrite <- Hd at 1. apply (gather_repeated_row logits n c); assumption.
Qed.

(** X14: with a 1-D target shared by all inputs, the iterable form yields
    for each input exactly what the mapping form returns for it. *)
Theorem shared_target_agrees_with_mapping (predictions : list (tensor Qc))
    (targets : tensor Z) (t : nat) :
  shape targets = [t] -> length (data targets) = t ->
  Forall (fun logits =>
            exists n c, shape logits = [n; c] /\ well_formed logits
                        /\ Forall (fun z => 0 <= z < Z.of_nat c)%Z (data targets))
         predictions ->
  exists outs,
    _get_targeted_logits_from_iterable predictions targets = (outs, None)
    /\ Forall2 (fun logits out => targeted_logits_of logits targets = Ok out)
               predictions outs.
Proof.
  intros Hs Hd Hpred.
  exists (map (fun logits => gathered logits (data targets)) predictions). split.
  - unfold _get_targeted_logits_from_iterable.
    rewrite (as_rows_viewed targets 1 t (rows_vector targets t Hs))
      by (unfold well_formed; rewrite Hs, Hd; cbn; lia).
    unfold single_index_of. cbn [shape].
    change (1 <? 1) with false. cbv iota.
    rewrite (generate_all _ (fun _ logits => gathered logits (data targets))
               predictions 0).
    + f_equal. clear Hpred. generalize 0.
      induction predictions as [|p ps IH]; intros k; [reflexivity|].
      cbn [imap map]. f_equal. apply (IH (S k)).
    + intros i logits Hi. cbn [Nat.add].
      rewrite Forall_lookup in Hpred.
      destruct (Hpred i logits Hi) as (n & c & Hl & Hlwf & Hpos).
      rewrite (yield_targeted_row {| shape := [1; t]; data := data targets |}
                 1 t 0 i n c); try assumption; try reflexivity.
      * cbn [data]. unfold and_index. cbn [Nat.eqb].
        rewrite chunk_whole by exact Hd. reflexivity.
      * cbn [data]. lia.
      * unfold and_index. cbn. lia.
  - apply Forall2_fmap_r, Forall_Forall2_diag.
    apply Forall_forall. rewrite Forall_forall in Hpred.
    intros logits Hin. destruct (Hpred logits Hin) as (n & c & Hl & Hlwf & Hpos).
    apply (targeted_logits_vector targets logits n c t); assumption.
Qed.

Lemma generate_app {A B : Type} (body : nat -> A -> result B) (l1 l2 : list A)
    (k : nat) (bs : list B) :
  generate body k l1 = (bs, None) ->
  generate body k (l1 ++ l2)
  = (bs ++ fst (generate body (k + length l1) l2),
     snd (generate body (k + length l1) l2)).
Proof.
  revert k bs. induction l1 as [|a l1 IH]; intros k bs H.
  - cbn in H. injection H as <-. cbn [app length]. rewrite Nat.add_0_r.
    destruct (generate body k l2). reflexivity.
  - cbn [generate app length] in *. destruct (body k a) as [b|e]; [|discriminate].
    destruct (generate body (S k) l1) as [bs1 e1] eqn:E1.
    injection H as <- ->. rewrite (IH (S k) bs1 E1).
    replace (S k + length l1) with (k + S (length l1)) by lia. reflexivity.
Qed.

(** X15: when the target has more than one row and more inputs arrive than
    it has rows, the generator yields one result for each row and then
    stops with [IndexError] at the first input left over. *)
Theorem surplus_inputs_raise_index_error (paired : list (tensor Qc))
    (surplus : tensor Qc) (rest : list (tensor Qc)) (targets : tensor Z)
    (r t : nat) :
  shape targets = [r; t] -> well_formed targets -> 1 < r ->
  length paired = r ->
  Forall (fun logits =>
            exists n c, shape logits = [n; c] /\ well_formed logits
                        /\ Forall (fun z => 0 <= z < Z.of_nat c)%Z (data targets))
         paired ->
  _get_targeted_logits_from_iterable (paired ++ surplus :: rest) targets
  = (imap (fun i logits => gathered logits (chunk t i (data targets))) paired,
     Some IndexError).
Proof.
  intros Hs Hwf Hr Hlen Hpred.
  assert (Hd : length (data targets) = r * t).
  { unfold well_formed in Hwf. rewrite Hwf, Hs. cbn. lia. }
  unfold _get_targeted_logits_from_iterable.
  rewrite (as_rows_viewed targets r t (rows_matrix targets r t Hs) Hwf).
  unfold single_index_of. cbn [shape].
  destruct (Nat.ltb_spec 1 r) as [_|]; [|lia].
  rewrite (generate_app _ paired (surplus :: rest) 0
             (imap (fun i logits => gathered logits (chunk t i (data targets)))
                   paired)).
  - cbn [Nat.add generate]. rewrite Hlen.
    assert (Hstop : yield_targeted {| shape := [r; t]; data := data targets |}
                      1 r surplus = Raise IndexError).
    { unfold yield_targeted, select, and_index. cbn [shape Nat.eqb]. cbv zeta.
      assert (Hneg : (Z.of_nat r <? 0)%Z = false) by (apply Z.ltb_ge; lia).
      assert (Hout : (Z.of_nat r <=? Z.of_nat r)%Z = true) by (apply Z.leb_le; lia).
      rewrite Hneg. cbv iota. rewrite Hneg, Hout. reflexivity. }
    rewrite Hstop. cbn [fst snd]. rewrite app_nil_r. reflexivity.
  - apply (generate_all _ (fun i logits => gathered logits (chunk t i (data targets)))
             paired 0).
    intros i logits Hi. cbn [Nat.add].
    rewrite Forall_lookup in Hpred.
    destruct (Hpred i logits Hi) as (n & c & Hl & Hlwf & Hpos).
    rewrite (yield_targeted_row {| shape := [r; t]; data := data targets |}
               r t 1 i n c); try assumption; try reflexivity.
    unfold and_index. cbn [Nat.eqb]. apply lookup_lt_Some in Hi. lia.
Qed.

Lemma gather_row_error (c t : nat) (x : list Qc) (row : list Z) (e : exn) :
  gather_data [c] [t] x row = Raise e -> e = RuntimeError.
Proof.
  cbn [gather_data]. induction row as [|z row IH]; cbn [fold_right]; [discriminate|].
  destruct (fold_right _ _ row) as [rest|e'] eqn:E; cbn [bind].
  - destruct (z <? 0)%Z; [congruence|].
    destruct (x !! Z.to_nat z); [discriminate|congruence].
  - intros H. injection H as <-. apply IH. reflexivity.
Qed.

Lemma gather_row_raises (c t : nat) (x : list Qc) (row : list Z) :
  length x = c ->
  Exists (fun z => z < 0 \/ Z.of_nat c <= z)%Z row ->
  gather_data [c] [t] x row = Raise RuntimeError.
Proof.
  intros Hx Hrow.
  destruct (gather_data [c] [t] x row) as [d|e] eqn:E.
  - exfalso. revert d E. cbn [gather_data].
    induction Hrow as [z row Hz|z row _ IH]; intros d; cbn [fold_right].
    + destruct (fold_right _ _ row) as [rest|e']; cbn [bind]; [|discriminate].
      destruct (Z.ltb_spec z 0) as [|Hz0]; [discriminate|].
      rewrite lookup_ge_None_2 by lia. discriminate.
    + destruct (fold_right _ _ row) as [rest|e']; cbn [bind]; [|discriminate].
      intros _. apply (IH rest). reflexivity.
  - f_equal. apply (gather_row_error c t x row e E).
Qed.

Lemma gather_rows_error (c t : nat) (x : list Qc) (idx : list Z)
    (batch : list nat) (e : exn) :
  fold_right (fun (i : nat) (acc : result (list Qc)) =>
                rest <- acc ;;
                row <- gather_data [c] [t] (chunk (numel [c]) i x)
                                   (chunk (numel [t]) i idx) ;;
                Ok (row ++ rest))
             (Ok []) batch
  = Raise e -> e = RuntimeError.
Proof.
  induction batch as [|i batch IH]; cbn [fold_right]; [discriminate|].
  destruct (fold_right _ _ batch) as [rest|e'] eqn:E; cbn [bind].
  - destruct (gather_data [c] [t] _ _) as [row|e''] eqn:E'; cbn [bind]; [discriminate|].
    intros H. injection H as <-. apply gather_row_error in E'. exact E'.
  - intros H. injection H as <-. apply IH. reflexivity.
Qed.

(** X16: a class index below zero or not below the number of classes makes
    the mapping form raise [RuntimeError] as soon as the batch has a row. *)
Theorem class_out_of_range_raises (targets : tensor Z) (logits : tensor Qc)
    (n c t : nat) :
  shape targets = [t] -> length (data targets) = t ->
  shape logits = [n; c] -> well_formed logits -> 0 < n ->
  Exists (fun z => z < 0 \/ Z.of_nat c <= z)%Z (data targets) ->
  targeted_logits_of logits targets = Raise RuntimeError.
Proof.
  intros Hs Hd Hl Hwf Hn Hbad. unfold targeted_logits_of.
  rewrite (process_target_vector targets logits n c t Hs Hd Hl). cbn [bind].
  unfold gather_last. rewrite Hl. cbn [shape data].
  unfold well_formed in Hwf. rewrite Hl in Hwf.
  rewrite gather_data_matrix.
  destruct n as [|n]; [lia|]. cbn [seq fold_right].
  destruct (fold_right _ _ (seq 1 n)) as [rest|e] eqn:E; cbn [bind].
  - assert (Hrow : chunk (numel [t]) 0 (concat (replicate (S n) (data targets)))
                   = data targets).
    { replace (numel [t]) with t by (cbn; lia).
      apply chunk_concat_uniform; [|reflexivity].
      apply Forall_replicate. exact Hd. }
    rewrite Hrow.
    rewrite (gather_row_raises c t).
    + reflexivity.
    + replace (numel [c]) with c by (cbn; lia).
      apply length_chunk. rewrite Hwf. cbn. lia.
    + exact Hbad.
  - apply gather_rows_error in E. rewrite E. reflexivity.
Qed.

Lemma argmax_from_greatest (pre l : list Qc) (best_i : nat) (best : Qc) :
  pre !! best_i = Some best ->
  Forall (fun q => (q <= best)%Qc) pre ->
  exists m,
    (pre ++ l) !! argmax_from best_i best (length pre) l = Some m
    /\ Forall (fun q => (q <= m)%Qc) (pre ++ l).
Proof.
  revert pre best_i best. induction l as [|q l IH]; intros pre best_i best Hb Hle.
  - cbn [argmax_from]. rewrite app_nil_r. exists best. split; assumption.
  - cbn [argmax_from].
    replace (pre ++ q :: l) with ((pre ++ [q]) ++ l) by (rewrite <- app_assoc; reflexivity).
    replace (S (length pre)) with (length (pre ++ [q]))
      by (rewrite length_app; cbn; lia).
    destruct (bool_decide_reflect (best < q)%Qc) as [Hlt|Hge].
    + apply IH.
      * rewrite lookup_app_r by lia. rewrite Nat.sub_diag. reflexivity.
      * apply Forall_app. split.
        -- eapply Forall_impl; [|exact Hle]. cbn. intros a Ha.
           apply Qclt_le_weak. eapply Qcle_lt_trans; eassumption.
        -- apply Forall_cons; [apply Qcle_refl|apply Forall_nil].
    + apply IH.
      * rewrite lookup_app_l by (apply lookup_lt_Some in Hb; exact Hb). exact Hb.
      * apply Forall_app. split; [exact Hle|].
        apply Forall_cons; [|apply Forall_nil]. apply Qcnot_lt_le, Hge.
Qed.

Lemma argmax_list_greatest (row : list Qc) :
  row <> [] ->
  exists m,
    row !! argmax_list row = Some m /\ Forall (fun q => (q <= m)%Qc) row.
Proof.
  destruct row as [|q row]; [congruence|]. intros _. unfold argmax_list.
  apply (argmax_from_greatest [q] row 0 q); [reflexivity|].
  apply Forall_cons; [apply Qcle_refl|apply Forall_nil].
Qed.

(** X17: feeding the classes the model predicts for a batch of [n] rows back
    as targets gives an [n] by [n] matrix, since a 1-D target is shared by
    all rows; its diagonal holds the largest logit of each row: the entry
    at [(b, b)] is an entry of row [b] of the logits, and no entry of that
    row is larger. *)
Theorem predicted_targets_give_square_matrix (logits : tensor Qc) (n c : nat) :
  shape logits = [n; c] -> well_formed logits -> 0 < c ->
  exists targets out,
    _get_targets_from_mapping logits = Ok targets
    /\ shape targets = [n]
    /\ targeted_logits_of logits targets = Ok out
    /\ shape out = [n; n]
    /\ forall b, b < n ->
         exists m k,
           data out !! (b * n + b) = Some m
           /\ k < c /\ data logits !! (b * c + k) = Some m
           /\ forall j v, j < c -> data logits !! (b * c + j) = Some v -> (v <= m)%Qc.
Proof.
  intros Hl Hwf Hc.
  assert (Hx : length (data logits) = n * c).
  { unfold well_formed in Hwf. rewrite Hwf, Hl. cbn. lia. }
  set (rows := chunks c n (data logits)).
  set (picks := map (fun row => Z.of_nat (argmax_list row)) rows).
  assert (Hrows : Forall (fun row => length row = c) rows)
    by (apply Forall_chunks_length, Hx).
  assert (Hlen : length picks = n)
    by (unfold picks, rows; rewrite length_map, length_chunks; reflexivity).
  assert (Hget : _get_targets_from_mapping logits
                 = Ok {| shape := [n]; data := picks |}).
  { unfold _get_targets_from_mapping, argmax_last. rewrite Hl.
    cbn [last removelast]. destruct (Nat.eqb_spec c 0) as [|_]; [lia|].
    cbn [numel fold_right]. rewrite Nat.mul_1_r. reflexivity. }
  assert (Hmax : forall b, b < n ->
            exists m, chunk c b (data logits) !! argmax_list (chunk c b (data logits))
                      = Some m
                      /\ Forall (fun q => (q <= m)%Qc) (chunk c b (data logits))).
  { intros b Hb. apply argmax_list_greatest.
    intros Hnil. apply (f_equal (@length Qc)) in Hnil.
    rewrite length_chunk in Hnil by nia. cbn in Hnil. lia. }
  assert (Hpick : forall b, b < n ->
            picks !! b = Some (Z.of_nat (argmax_list (chunk c b (data logits))))).
  { intros b Hb. unfold picks, rows. rewrite list_lookup_fmap.
    rewrite lookup_chunks by exact Hb. reflexivity. }
  assert (Hpos : Forall (fun z => 0 <= z < Z.of_nat c)%Z picks).
  { apply Forall_lookup. intros b z Hz.
    assert (Hb : b < n) by (apply lookup_lt_Some in Hz; lia).
    rewrite (Hpick b Hb) in Hz. injection Hz as <-.
    destruct (Hmax b Hb) as (m & Hm & _). apply lookup_lt_Some in Hm.
    rewrite length_chunk in Hm by nia. lia. }
  exists {| shape := [n]; data := picks |}, (gathered logits picks).
  split; [exact Hget|]. split; [reflexivity|]. split.
  { apply (targeted_logits_vector {| shape := [n]; data := picks |} logits n c n);
      try assumption; reflexivity. }
  unfold gathered. rewrite Hl. cbn [nth shape data]. split.
  { rewrite Hlen. reflexivity. }
  intros b Hb. destruct (Hmax b Hb) as (m & Hm & Hall).
  assert (Hk : argmax_list (chunk c b (data logits)) < c).
  { apply lookup_lt_Some in Hm. rewrite length_chunk in Hm by nia. exact Hm. }
  exists m, (argmax_list (chunk c b (data logits))). split; [|split; [exact Hk|split]].
  - rewrite flat_map_concat_map.
    rewrite (lookup_concat_uniform n).
    + rewrite list_lookup_fmap.
      rewrite (proj2 (lookup_seq 0 n b b)) by (split; [reflexivity|exact Hb]).
      cbn [fmap option_fmap option_map mbind option_bind].
      rewrite list_lookup_fmap, (Hpick b Hb). cbn [fmap option_fmap option_map].
      f_equal. rewrite Nat2Z.id.
      assert (Ha : argmax_list (chunk c b (data logits)) < c).
      { apply lookup_lt_Some in Hm. rewrite length_chunk in Hm by nia. exact Hm. }
      rewrite <- (nth_chunk c b _ (data logits) Ha).
      apply nth_lookup_Some with (d := 0%Qc). exact Hm.
    + apply Forall_forall. intros row Hrow. apply in_map_iff in Hrow.
      destruct Hrow as (k & <- & _). rewrite length_map. exact Hlen.
    + exact Hb.
  - unfold chunk in Hm. rewrite lookup_take_lt, lookup_drop in Hm by exact Hk.
    exact Hm.
  - intros j v Hj Hv. rewrite Forall_lookup in Hall. apply (Hall j v).
    unfold chunk. rewrite lookup_take_lt, lookup_drop by exact Hj. exact Hv.
Qed.

End WrapperExtras.

Lemma shared_target_agrees_with_mapping_witness :
  exists outs,
    ClassificationInferenceWrapper._get_targeted_logits_from_iterable
      [ {| Torch.shape := [2; 3];
           Torch.data := map Qc_of_Z [10; 11; 12; 20; 21; 22]%Z |};
        {| Torch.shape := [1; 3]; Torch.data := map Qc_of_Z [30; 31; 32]%Z |} ]
      {| Torch.shape := [1]; Torch.data := [2%Z] |}
    = (outs, None)
    /\ Forall2 (fun logits out =>
                  ClassificationInferenceWrapper.targeted_logits_of logits
                    {| Torch.shape := [1]; Torch.data := [2%Z] |}
                  = Ok out)
               [ {| Torch.shape := [2; 3];
                    Torch.data := map Qc_of_Z [10; 11; 12; 20; 21; 22]%Z |};
                 {| Torch.shape := [1; 3];
                    Torch.data := map Qc_of_Z [30; 31; 32]%Z |} ]
               outs.
Proof.
  apply (shared_target_agrees_with_mapping
           [ {| Torch.shape := [2; 3];
                Torch.data := map Qc_of_Z [10; 11; 12; 20; 21; 22]%Z |};
             {| Torch.shape := [1; 3]; Torch.data := map Qc_of_Z [30; 31; 32]%Z |} ]
           {| Torch.shape := [1]; Torch.data := [2%Z] |} 1).
  - reflexivity.
  - reflexivity.
  - repeat apply Forall_cons; try apply Forall_nil.
    + exists 2, 3. split; [reflexivity|]. split; [reflexivity|].
      repeat apply Forall_cons; try apply Forall_nil; lia.
    + exists 1, 3. split; [reflexivity|]. split; [reflexivity|].
      repeat apply Forall_cons; try apply Forall_nil; lia.
Defined.

Lemma surplus_inputs_raise_index_error_witness :
  ClassificationInferenceWrapper._get_targeted_logits_from_iterable
    [ {| Torch.shape := [2; 3];
         Torch.data := map Qc_of_Z [10; 11; 12; 20; 21; 22]%Z |};
      {| Torch.shape := [1; 3]; Torch.data := map Qc_of_Z [30; 31; 32]%Z |};
      {| Torch.shape := [1; 3]; Torch.data := map Qc_of_Z [40; 41; 42]%Z |} ]
    {| Torch.shape := [2; 2]; Torch.data := [0; 2; 1; 1]%Z |}
  = ([ {| Torch.shape := [2; 2]; Torch.data := map Qc_of_Z [10; 12; 20; 22]%Z |};
       {| Torch.shape := [1; 2]; Torch.data := map Qc_of_Z [31; 31]%Z |} ],
     Some IndexError).
Proof.
  apply (surplus_inputs_raise_index_error
           [ {| Torch.shape := [2; 3];
                Torch.data := map Qc_of_Z [10; 11; 12; 20; 21; 22]%Z |};
             {| Torch.shape := [1; 3]; Torch.data := map Qc_of_Z [30; 31; 32]%Z |} ]
           {| Torch.shape := [1; 3]; Torch.data := map Qc_of_Z [40; 41; 42]%Z |}
           []
           {| Torch.shape := [2; 2]; Torch.data := [0; 2; 1; 1]%Z |} 2 2).
  - reflexivity.
  - reflexivity.
  - lia.
  - reflexivity.
  - repeat apply Forall_cons; try apply Forall_nil.
    + exists 2, 3. split; [reflexivity|]. split; [reflexivity|].
      repeat apply Forall_cons; try apply Forall_nil; lia.
    + exists 1, 3. split; [reflexivity|]. split; [reflexivity|].
      repeat apply Forall_cons; try apply Forall_nil; lia.
Defined.

Lemma class_out_of_range_raises_witness :
  ClassificationInferenceWrapper.targeted_logits_of
    {| Torch.shape := [2; 3];
       Torch.data := map Qc_of_Z [10; 11; 12; 20; 21; 22]%Z |}
    {| Torch.shape := [2]; Torch.data := [0; 3]%Z |}
  = Raise RuntimeError.
Proof.
  apply (class_out_of_range_raises
           {| Torch.shape := [2]; Torch.data := [0; 3]%Z |}
           {| Torch.shape := [2; 3];
              Torch.data := map Qc_of_Z [10; 11; 12; 20; 21; 22]%Z |}
           2 3 2).
  - reflexivity.
  - reflexivity.
  - reflexivity.
  - reflexivity.
  - lia.
  - apply Exists_cons_tl, Exists_cons_hd. right. cbn. lia.
Defined.

Lemma predicted_targets_give_square_matrix_witness :
  exists targets out,
    ClassificationInferenceWrapper._get_targets_from_mapping
      {| Torch.shape := [2; 3];
         Torch.data := map Qc_of_Z [10; 12; 11; 22; 21; 20]%Z |}
    = Ok targets
    /\ Torch.shape targets = [2]
    /\ ClassificationInferenceWrapper.targeted_logits_of
         {| Torch.shape := [2; 3];
            Torch.data := map Qc_of_Z [10; 12; 11; 22; 21; 20]%Z |}
         targets
       = Ok out
    /\ Torch.shape out = [2; 2]
    /\ forall b, b < 2 ->
         exists m k,
           Torch.data out !! (b * 2 + b) = Some m
           /\ k < 3
           /\ map Qc_of_Z [10; 12; 11; 22; 21; 20]%Z !! (b * 3 + k) = Some m
           /\ forall j v, j < 3 ->
                map Qc_of_Z [10; 12; 11; 22; 21; 20]%Z !! (b * 3 + j) = Some v ->
                (v <= m)%Qc.
Proof.
  apply (predicted_targets_give_square_matrix
           {| Torch.shape := [2; 3];
              Torch.data := map Qc_of_Z [10; 12; 11; 22; 21; 20]%Z |} 2 3).
  - reflexivity.
  - reflexivity.
  - lia.
Defined.

(** ** Standardizing raw inputs and targets *)

Section InputsExtras.
Import Torch Attributions.

Lemma comprehension_app {A B : Type} (f : A -> result B) (l1 l2 : list A) :
  comprehension f (l1 ++ l2)
  = (a <- comprehension f l1 ;; b <- comprehension f l2 ;; Ok (a ++ b)).
Proof.
  induction l1 as [|x l1 IH]; cbn [app comprehension bind].
  - destruct (comprehension f l2); reflexivity.
  - destruct (f x) as [y|e]; cbn [bind]; [|reflexivity].
    fold (comprehension f (l1 ++ l2)). fold (comprehension f l1). rewrite IH.
    destruct (comprehension f l1); cbn [bind]; [|reflexivity].
    destruct (comprehension f l2); reflexivity.
Qed.

Lemma comprehension_cons {A B : Type} (f : A -> result B) (a : A) (l : list A) :
  comprehension f (a :: l)
  = (b <- f a ;; bs <- comprehension f l ;; Ok (b :: bs)).
Proof. reflexivity. Qed.

Lemma comprehension_results {A B : Type} (f : A -> result B) (l : list A)
    (bs : list B) :
  comprehension f l = Ok bs -> Forall2 (fun a b => f a = Ok b) l bs.
Proof.
  revert bs. induction l as [|a l IH]; intros bs.
  - cbn. intros H. injection H as <-. constructor.
  - rewrite comprehension_cons. destruct (f a) as [b|e] eqn:E; cbn [bind]; [|discriminate].
    destruct (comprehension f l) as [bs'|e]; cbn [bind]; [|discriminate].
    intros H. injection H as <-. constructor; [exact E|apply IH; reflexivity].
Qed.

Lemma comprehension_all {A B : Type} (f : A -> result B) (g : A -> B) (l : list A) :
  Forall (fun a => f a = Ok (g a)) l -> comprehension f l = Ok (map g l).
Proof.
  induction 1 as [|a l Ha _ IH]; [reflexivity|].
  rewrite comprehension_cons, Ha, IH. reflexivity.
Qed.

Lemma comprehension_raises {A B : Type} (f : A -> result B) (l : list A) (e : exn) :
  comprehension f l = Raise e -> Exists (fun a => f a = Raise e) l.
Proof.
  induction l as [|a l IH]; [discriminate|].
  rewrite comprehension_cons. destruct (f a) as [b|e'] eqn:E; cbn [bind].
  - destruct (comprehension f l) as [bs|e']; cbn [bind]; [discriminate|].
    intros H. injection H as <-. apply Exists_cons_tl, IH. reflexivity.
  - intros H. injection H as <-. apply Exists_cons_hd. exact E.
Qed.

Lemma sample_row (i k : nat) (s : list nat) (v : tensor Z) :
  shape v = k :: s -> i < k ->
  sample i v = Ok {| shape := 1 :: s; data := chunk (numel s) i (data v) |}.
Proof.
  intros Hs Hi. unfold sample, select. rewrite Hs. cbv zeta.
  assert (Hneg : (Z.of_nat i <? 0)%Z = false) by (apply Z.ltb_ge; lia).
  assert (Hin : (Z.of_nat k <=? Z.of_nat i)%Z = false) by (apply Z.leb_gt; lia).
  rewrite Hneg. cbv iota. rewrite Hneg, Hin. cbn [orb bind].
  rewrite unsqueeze_front, Nat2Z.id. reflexivity.
Qed.

Lemma sample_without_row (i : nat) (v : tensor Z) :
  lacks_row i v -> sample i v = Raise IndexError.
Proof.
  unfold lacks_row, sample, select. destruct (shape v) as [|k s]; [reflexivity|].
  intros Hk. cbv zeta.
  assert (Hneg : (Z.of_nat i <? 0)%Z = false) by (apply Z.ltb_ge; lia).
  assert (Hout : (Z.of_nat k <=? Z.of_nat i)%Z = true) by (apply Z.leb_le; lia).
  rewrite Hneg. cbv iota. rewrite Hneg, Hout. reflexivity.
Qed.

Lemma sample_cases (i : nat) (v : tensor Z) :
  (exists k s, shape v = k :: s /\ i < k) \/ lacks_row i v.
Proof.
  unfold lacks_row. destruct (shape v) as [|k s]; [right; exact I|].
  destruct (decide (i < k)); [left; eauto|right; lia].
Qed.

Lemma sample_raises (i : nat) (v : tensor Z) (e : exn) :
  sample i v = Raise e -> e = IndexError.
Proof.
  destruct (sample_cases i v) as [(k & s & Hs & Hi)|Hl].
  - rewrite (sample_row i k s v Hs Hi). discriminate.
  - rewrite (sample_without_row i v Hl). congruence.
Qed.

Lemma sample_mapping_raises (m : mapping) (i : nat) (e : exn) :
  sample_mapping m i = Raise e -> e = IndexError.
Proof.
  unfold sample_mapping.
  destruct (sample i (attention_mask m)) as [mask|e'] eqn:E; cbn [bind].
  - destruct (comprehension _ (entries m)) as [others|e'] eqn:E'; cbn [bind];
      [discriminate|].
    intros H. injection H as <-. apply comprehension_raises in E'.
    apply Exists_exists in E'. destruct E' as (kv & _ & Hkv).
    destruct (sample i (snd kv)) as [v|e''] eqn:E''; cbn [bind] in Hkv; [discriminate|].
    injection Hkv as <-. apply (sample_raises i (snd kv)), E''.
  - intros H. injection H as <-. apply (sample_raises i _ _ E).
Qed.

Lemma sample_mapping_rows (m : mapping) (i n : nat) (rest : list nat) :
  shape (attention_mask m) = n :: rest -> i < n ->
  Forall (fun kv => exists k s, shape (snd kv) = k :: s /\ n <= k) (entries m) ->
  exists r,
    sample_mapping m i = Ok r
    /\ shape (attention_mask r) = 1 :: rest
    /\ data (attention_mask r) = chunk (numel rest) i (data (attention_mask m))
    /\ Forall2 (sample_of i) (entries m) (entries r).
Proof.
  intros Hs Hi Hall. unfold sample_mapping.
  rewrite (sample_row i n rest _ Hs Hi). cbn [bind].
  rewrite (comprehension_all _
             (fun kv : string * tensor Z =>
                (fst kv, {| shape := 1 :: tl (shape (snd kv));
                            data := chunk (numel (tl (shape (snd kv)))) i
                                          (data (snd kv)) |}))).
  - cbn [bind]. eexists. split; [reflexivity|]. cbn [attention_mask entries].
    split; [reflexivity|]. split; [reflexivity|].
    apply Forall2_fmap_r, Forall_Forall2_diag, Forall_forall.
    intros kv _. unfold sample_of. cbn [fst snd shape data]. auto.
  - eapply Forall_impl; [|exact Hall]. cbn beta. intros kv (k & s & Hk & Hle).
    rewrite (sample_row i k s _ Hk) by lia. cbn [bind]. rewrite Hk. reflexivity.
Qed.

Section Standardized.
Variable tokenizer : string -> mapping.

Lemma model_inputs_nested_ind (P : model_inputs -> Prop) :
  (forall s, P (InStr s)) ->
  (forall m, P (InMapping m)) ->
  (forall items, Forall P items -> P (InIterable items)) ->
  P InOther ->
  forall x, P x.
Proof.
  intros Hs Hm Hi Ho. fix IH 1. intros [s|m|items|].
  - apply Hs.
  - apply Hm.
  - apply Hi. induction items as [|a items IHl]; constructor; [apply IH|exact IHl].
  - exact Ho.
Qed.

Lemma process_iterable (items : list model_inputs) :
  process_model_inputs tokenizer (InIterable items)
  = (parts <- comprehension (process_model_inputs tokenizer) items ;;
     Ok (concat parts)).
Proof. reflexivity. Qed.

Lemma process_mapping (m : mapping) :
  process_model_inputs tokenizer (InMapping m)
  = match shape (attention_mask m) with
    | [] => Raise IndexError
    | n :: _ =>
        if 1 <? n then comprehension (sample_mapping m) (seq 0 n) else Ok [m]
    end.
Proof. reflexivity. Qed.

Lemma processed_are_single (x : model_inputs) :
  (forall s, exists rest, shape (attention_mask (tokenizer s)) = 1 :: rest) ->
  forall l, process_model_inputs tokenizer x = Ok l -> Forall single_sample l.
Proof.
  intros Htok. induction x as [s|m|items IH|] using model_inputs_nested_ind; intros l H.
  - cbn in H. injection H as <-. apply Forall_cons; [|apply Forall_nil].
    destruct (Htok s) as (rest & Hs). exists 1, rest. auto.
  - rewrite process_mapping in H.
    destruct (shape (attention_mask m)) as [|n rest] eqn:Hs; [discriminate|].
    destruct (Nat.ltb_spec 1 n) as [Hn|Hn].
    + apply comprehension_results in H.
      apply Forall_forall. intros r Hr.
      apply list_elem_of_In, list_elem_of_lookup in Hr. destruct Hr as (i & Hr).
      destruct (Forall2_lookup_r _ _ _ _ _ H Hr) as (k & Hk & Hrow).
      unfold sample_mapping in Hrow.
      destruct (sample k (attention_mask m)) as [mask|e] eqn:E; cbn [bind] in Hrow;
        [|discriminate].
      destruct (comprehension _ (entries m)) as [others|e]; cbn [bind] in Hrow;
        [|discriminate].
      injection Hrow as <-. cbn [attention_mask].
      destruct (sample_cases k (attention_mask m)) as [(k' & s & Hs' & Hi)|Hl].
      * rewrite (sample_row k k' s _ Hs' Hi) in E. injection E as <-.
        exists 1, s. auto.
      * rewrite (sample_without_row k _ Hl) in E. discriminate.
    + injection H as <-. apply Forall_cons; [|apply Forall_nil].
      exists n, rest. auto.
  - rewrite process_iterable in H.
    destruct (comprehension _ items) as [parts|e] eqn:E; cbn [bind] in H; [|discriminate].
    injection H as <-. apply comprehension_results in E.
    apply Forall_concat. clear -IH E.
    induction E as [|item part items parts Hitem _ IHE]; [constructor|].
    apply Forall_cons_1 in IH. destruct IH as [IHitem IHrest].
    constructor; [apply IHitem, Hitem|apply IHE, IHrest].
  - discriminate.
Qed.

Lemma single_are_kept (l : list mapping) :
  Forall single_sample l ->
  process_model_inputs tokenizer (InIterable (map InMapping l)) = Ok l.
Proof.
  intros Hl. rewrite process_iterable.
  rewrite (comprehension_all _ (fun x => match x with
                                         | InMapping m => [m]
                                         | _ => []
                                         end)).
  - cbn [bind]. f_equal. clear Hl. induction l as [|m l IH]; [reflexivity|].
    cbn [map concat app]. f_equal. exact IH.
  - apply Forall_forall. intros x Hx. apply in_map_iff in Hx.
    destruct Hx as (m & <- & Hm). rewrite Forall_forall in Hl.
    destruct (Hl m Hm) as (n & rest & Hs & Hn).
    rewrite process_mapping, Hs.
    destruct (Nat.ltb_spec 1 n) as [|_]; [lia|reflexivity].
Qed.

(** X18: standardized inputs are a fixed point of [process_model_inputs]
    when the tokenizer returns one sample per string: giving the returned
    list back returns it unchanged. *)
Theorem standardized_inputs_are_fixed (x : model_inputs) (l : list mapping) :
  (forall s, exists rest, shape (attention_mask (tokenizer s)) = 1 :: rest) ->
  process_model_inputs tokenizer x = Ok l ->
  process_model_inputs tokenizer (InIterable (map InMapping l)) = Ok l.
Proof.
  intros Htok H. apply single_are_kept. apply (processed_are_single x Htok l H).
Qed.

(** X19: a mapping that holds [n > 1] samples is split into [n] mappings
    with the same keys, the [i]-th holding row [i] of every tensor as a
    batch of one, provided every tensor has at least [n] rows; rows beyond
    the [n]-th are dropped. *)
Theorem batch_is_split_into_samples (m : mapping) (n : nat) (rest : list nat) :
  shape (attention_mask m) = n :: rest -> 1 < n ->
  Forall (fun kv => exists k s, shape (snd kv) = k :: s /\ n <= k) (entries m) ->
  exists l,
    process_model_inputs tokenizer (InMapping m) = Ok l
    /\ length l = n
    /\ forall i, i < n ->
         exists r,
           l !! i = Some r
           /\ shape (attention_mask r) = 1 :: rest
           /\ data (attention_mask r)
              = chunk (numel rest) i (data (attention_mask m))
           /\ Forall2 (sample_of i) (entries m) (entries r).
Proof.
  intros Hs Hn Hall. rewrite process_mapping, Hs.
  destruct (Nat.ltb_spec 1 n) as [_|]; [|lia].
  destruct (comprehension (sample_mapping m) (seq 0 n)) as [l|e] eqn:E.
  - apply comprehension_results in E. exists l. split; [reflexivity|].
    pose proof (Forall2_length E) as Hlen. rewrite length_seq in Hlen.
    split; [lia|]. intros i Hi.
    destruct (sample_mapping_rows m i n rest Hs Hi Hall) as (r & Hr & Hrest).
    exists r. split; [|exact Hrest].
    destruct (Forall2_lookup_l _ _ _ i i E) as (r' & Hr' & Hrow).
    { apply lookup_seq. split; [reflexivity|exact Hi]. }
    rewrite Hr in Hrow. injection Hrow as <-. exact Hr'.
  - exfalso. apply comprehension_raises in E. apply Exists_exists in E.
    destruct E as (i & Hi & Hraise). apply in_seq in Hi.
    destruct (sample_mapping_rows m i n rest Hs) as (r & Hr & _); [lia|exact Hall|].
    rewrite Hr in Hraise. discriminate.
Qed.

(** X20: when a tensor of the mapping has fewer rows than the attention
    mask, which has [n > 1], [process_model_inputs] raises [IndexError]. *)
Theorem ragged_batch_raises_index_error (m : mapping) (n : nat) (rest : list nat) :
  shape (attention_mask m) = n :: rest -> 1 < n ->
  Exists (fun kv => lacks_row (n - 1) (snd kv)) (entries m) ->
  process_model_inputs tokenizer (InMapping m) = Raise IndexError.
Proof.
  intros Hs Hn Hbad. rewrite process_mapping, Hs.
  destruct (Nat.ltb_spec 1 n) as [_|]; [|lia].
  destruct (comprehension (sample_mapping m) (seq 0 n)) as [l|e] eqn:E.
  - exfalso. apply comprehension_results in E.
    destruct (Forall2_lookup_l _ _ _ (n - 1) (n - 1) E) as (r & _ & Hrow).
    { apply lookup_seq. split; [reflexivity|lia]. }
    unfold sample_mapping in Hrow.
    destruct (sample (n - 1) (attention_mask m)) as [mask|e]; cbn [bind] in Hrow;
      [|discriminate].
    destruct (comprehension _ (entries m)) as [others|e] eqn:E'; cbn [bind] in Hrow;
      [|discriminate].
    apply comprehension_results in E'. apply Exists_exists in Hbad.
    destruct Hbad as (kv & Hkv & Hlack).
    apply list_elem_of_In, list_elem_of_lookup in Hkv. destruct Hkv as (j & Hj).
    destruct (Forall2_lookup_l _ _ _ j kv E' Hj) as (kv' & _ & Hsample).
    rewrite (sample_without_row _ _ Hlack) in Hsample. discriminate.
  - f_equal. apply comprehension_raises in E. apply Exists_exists in E.
    destruct E as (i & _ & Hraise). apply (sample_mapping_raises m i e Hraise).
Qed.

(** X21: nesting is flattened: an iterable inside an iterable gives the
    same result, or the same exception, as its items in its place. *)
Theorem nested_iterables_are_flattened (before inner after : list model_inputs) :
  process_model_inputs tokenizer (InIterable (before ++ InIterable inner :: after))
  = process_model_inputs tokenizer (InIterable (before ++ inner ++ after)).
Proof.
  rewrite !process_iterable, !comprehension_app, comprehension_cons, process_iterable.
  destruct (comprehension _ before) as [pb|e]; cbn [bind]; [|reflexivity].
  destruct (comprehension _ inner) as [pi|e]; cbn [bind]; [|reflexivity].
  destruct (comprehension _ after) as [pa|e]; cbn [bind]; [|reflexivity].
  rewrite !concat_app. reflexivity.
Qed.

End Standardized.

Section TargetsExtras.
Variable tokenize_ids : string -> tensor Z.

(** X22: a target of [n > 1] rows is split into its [n] rows when it comes
    as the [input_ids] of a mapping, and is kept as one target when it
    comes as a tensor; the rows put together are the tensor. *)
Theorem mapping_target_is_split_tensor_is_not (t : tensor Z) (n : nat)
    (rest : list nat) :
  shape t = n :: rest -> well_formed t -> 1 < n ->
  process_targets tokenize_ids (TgTensor t) = Ok [t]
  /\ exists rows,
       process_targets tokenize_ids (TgMapping t) = Ok rows
       /\ length rows = n
       /\ Forall (fun row => shape row = 1 :: rest /\ well_formed row) rows
       /\ concat (map data rows) = data t.
Proof.
  intros Hs Hwf Hn. split; [reflexivity|].
  unfold well_formed in Hwf. rewrite Hs, numel_cons in Hwf.
  cbn [process_targets]. rewrite Hs.
  destruct (Nat.ltb_spec 1 n) as [_|]; [|lia].
  eexists. split; [reflexivity|]. unfold split_rows. split.
  - rewrite length_map, length_seq. reflexivity.
  - split.
    + apply Forall_forall. intros row Hrow. apply in_map_iff in Hrow.
      destruct Hrow as (i & <- & Hi). apply in_seq in Hi. cbn [shape].
      split; [reflexivity|]. unfold well_formed. cbn [shape data].
      rewrite numel_cons, length_chunk by nia. lia.
    + rewrite map_map. cbn [data].
      change (map (fun i => chunk (numel rest) i (data t)) (seq 0 n))
        with (chunks (numel rest) n (data t)).
      apply concat_chunks. exact Hwf.
Qed.

End TargetsExtras.

End InputsExtras.

Lemma standardized_inputs_are_fixed_witness :
  Attributions.process_model_inputs character_mapping
    (Attributions.InIterable
       (map Attributions.InMapping
            [ character_mapping "ab";
              {| Attributions.attention_mask :=
                   {| Torch.shape := [1; 2]; Torch.data := [1; 1]%Z |};
                 Attributions.entries :=
                   [("input_ids"%string,
                     {| Torch.shape := [1; 2]; Torch.data := [5; 6]%Z |})] |};
              {| Attributions.attention_mask :=
                   {| Torch.shape := [1; 2]; Torch.data := [1; 0]%Z |};
                 Attributions.entries :=
                   [("input_ids"%string,
                     {| Torch.shape := [1; 2]; Torch.data := [7; 0]%Z |})] |} ]))
  = Ok [ character_mapping "ab";
         {| Attributions.attention_mask :=
              {| Torch.shape := [1; 2]; Torch.data := [1; 1]%Z |};
            Attributions.entries :=
              [("input_ids"%string,
                {| Torch.shape := [1; 2]; Torch.data := [5; 6]%Z |})] |};
         {| Attributions.attention_mask :=
              {| Torch.shape := [1; 2]; Torch.data := [1; 0]%Z |};
            Attributions.entries :=
              [("input_ids"%string,
                {| Torch.shape := [1; 2]; Torch.data := [7; 0]%Z |})] |} ].
Proof.
  apply (standardized_inputs_are_fixed character_mapping
           (Attributions.InIterable
              [Attributions.InStr "ab"; Attributions.InMapping two_samples])).
  - intros s. eexists. reflexivity.
  - reflexivity.
Defined.

Lemma batch_is_split_into_samples_witness :
  exists l,
    Attributions.process_model_inputs character_mapping
      (Attributions.InMapping two_samples) = Ok l
    /\ length l = 2
    /\ forall i, i < 2 ->
         exists r,
           l !! i = Some r
           /\ Torch.shape (Attributions.attention_mask r) = [1; 2]
           /\ Torch.data (Attributions.attention_mask r)
              = Torch.chunk (Torch.numel [2]) i [1; 1; 1; 0]%Z
           /\ Forall2 (sample_of i) (Attributions.entries two_samples)
                      (Attributions.entries r).
Proof.
  apply (batch_is_split_into_samples character_mapping two_samples 2 [2]).
  - reflexivity.
  - lia.
  - apply Forall_cons; [|apply Forall_nil]. exists 2, [2]. split; [reflexivity|lia].
Defined.

Lemma ragged_batch_raises_index_error_witness :
  Attributions.process_model_inputs character_mapping
    (Attributions.InMapping ragged_samples) = Raise IndexError.
Proof.
  apply (ragged_batch_raises_index_error character_mapping ragged_samples 2 [2]).
  - reflexivity.
  - lia.
  - apply Exists_cons_hd. cbn. lia.
Defined.

Lemma mapping_target_is_split_tensor_is_not_witness :
  Attributions.process_targets
    (fun s => Torch.vector (map (fun c => Z.of_N (N_of_ascii c))
                                (list_ascii_of_string s)))
    (Attributions.TgTensor {| Torch.shape := [2; 2]; Torch.data := [5; 6; 7; 0]%Z |})
  = Ok [ {| Torch.shape := [2; 2]; Torch.data := [5; 6; 7; 0]%Z |} ]
  /\ exists rows,
       Attributions.process_targets
         (fun s => Torch.vector (map (fun c => Z.of_N (N_of_ascii c))
                                     (list_ascii_of_string s)))
         (Attributions.TgMapping
            {| Torch.shape := [2; 2]; Torch.data := [5; 6; 7; 0]%Z |})
       = Ok rows
       /\ length rows = 2
       /\ Forall (fun row => Torch.shape row = [1; 2] /\ Torch.well_formed row) rows
       /\ concat (map Torch.data rows) = [5; 6; 7; 0]%Z.
Proof.
  apply (mapping_target_is_split_tensor_is_not _
           {| Torch.shape := [2; 2]; Torch.data := [5; 6; 7; 0]%Z |} 2 [2]).
  - reflexivity.
  - reflexivity.
  - lia.
Defined.

(** ** The replacement token and the generated classes *)

Section SobolExtras.
Import SobolAttribution.

(** X23: when every id of the vocabulary is below its size and the
    embedding table has a row for each, [__init__] keeps this so, keeps the
    id of every known token, and returns an id that is a row of the table
    and, when it was added, the id of no other token. *)
Theorem replace_token_id_is_a_fresh_row (tk : tokenizer) (m : model) :
  (forall tok i, vocab tk !! tok = Some i -> i < len tk) ->
  len tk <= embedding_rows m ->
  let '(tk1, m1, id1) := init tk m in
  (forall tok i, vocab tk !! tok = Some i -> vocab tk1 !! tok = Some i)
  /\ (forall tok i, vocab tk1 !! tok = Some i -> i < len tk1)
  /\ len tk1 <= embedding_rows m1
  /\ exists i,
       id1 = Some i
       /\ i < embedding_rows m1
       /\ (replace_token ∉ dom (vocab tk) ->
           forall tok, tok <> replace_token -> vocab tk1 !! tok <> Some i).
Proof.
  intros Hdense Hrows. destruct (vocab tk !! replace_token) as [i|] eqn:E.
  - rewrite (init_known tk m i E).
    split; [auto|]. split; [exact Hdense|]. split; [exact Hrows|].
    exists i. split; [reflexivity|]. split.
    + specialize (Hdense _ _ E). lia.
    + intros Hnot. exfalso. apply Hnot. apply elem_of_dom. eauto.
  - rewrite (init_unknown tk m E).
    assert (Hlen : len {| vocab := <[replace_token := len tk]> (vocab tk) |}
                   = S (len tk)).
    { unfold len. cbn [vocab]. apply map_size_insert_None, E. }
    split.
    { intros tok i Hi. cbn [vocab]. rewrite lookup_insert_ne; [exact Hi|].
      intros <-. congruence. }
    split.
    { intros tok i Hi. rewrite Hlen. cbn [vocab] in Hi.
      apply lookup_insert_Some in Hi. destruct Hi as [[_ <-]|[_ Hi]]; [lia|].
      specialize (Hdense _ _ Hi). lia. }
    split; [rewrite Hlen; cbn [embedding_rows]; lia|].
    exists (len tk). split; [reflexivity|]. split; [cbn [embedding_rows]; lia|].
    intros _ tok Htok Hi. cbn [vocab] in Hi.
    rewrite lookup_insert_ne in Hi by congruence.
    specialize (Hdense _ _ Hi). lia.
Qed.

End SobolExtras.

Lemma replace_token_id_is_a_fresh_row_witness :
  let '(tk1, m1, id1) :=
    SobolAttribution.init
      {| SobolAttribution.vocab := {[ "[PAD]"%string := 0; "[UNK]"%string := 1 ]} |}
      {| SobolAttribution.embedding_rows := 2 |} in
  (forall tok i,
     ({[ "[PAD]"%string := 0; "[UNK]"%string := 1 ]} : gmap string nat) !! tok = Some i ->
     SobolAttribution.vocab tk1 !! tok = Some i)
  /\ (forall tok i, SobolAttribution.vocab tk1 !! tok = Some i ->
                    i < SobolAttribution.len tk1)
  /\ SobolAttribution.len tk1 <= SobolAttribution.embedding_rows m1
  /\ exists i,
       id1 = Some i
       /\ i < SobolAttribution.embedding_rows m1
       /\ (SobolAttribution.replace_token
             ∉ dom ({[ "[PAD]"%string := 0; "[UNK]"%string := 1 ]} : gmap string nat) ->
           forall tok, tok <> SobolAttribution.replace_token ->
                       SobolAttribution.vocab tk1 !! tok <> Some i).
Proof.
  pose proof (replace_token_id_is_a_fresh_row
                {| SobolAttribution.vocab :=
                     {[ "[PAD]"%string := 0; "[UNK]"%string := 1 ]} |}
                {| SobolAttribution.embedding_rows := 2 |}) as H.
  cbn [SobolAttribution.vocab] in H. apply H; clear H.
  - intros tok i H. cbn [SobolAttribution.vocab] in H.
    replace (SobolAttribution.len _) with 2 by reflexivity.
    apply lookup_insert_Some in H. destruct H as [[_ <-]|[_ H]]; [lia|].
    apply lookup_singleton_Some in H. destruct H as [_ <-]. lia.
  - replace (SobolAttribution.len _) with 2 by reflexivity. cbn. lia.
Defined.

Section DispatchExtras.
Import Attributions.

(** X24: the class [__new__] generates is not dispatched again: building
    from the class of the explainer it returned gives an explainer of the
    same class whatever the model, an unsupported one included. *)
Theorem generated_class_is_not_dispatched_again (cls : pyclass)
    (name other : string) (e : explainer) :
  new cls name = Ok e -> new (class_of e) other = Ok e.
Proof.
  unfold new. destruct (factory_generated cls) eqn:Hg.
  - intros H. injection H as <-. cbn [class_of]. rewrite Hg. reflexivity.
  - destruct (endswith name "ForSequenceClassification").
    + intros H. injection H as <-. reflexivity.
    + destruct (endswith name "ForCausalLM" || endswith name "LMHeadModel").
      * intros H. injection H as <-. reflexivity.
      * discriminate.
Qed.

End DispatchExtras.

Lemma generated_class_is_not_dispatched_again_witness :
  Attributions.new
    (Attributions.FactoryGeneratedMeta "ClassificationSobolAttribution"
       ["SobolAttribution"; "ClassificationAttributionExplainer"])
    "BertModel"
  = Ok {| Attributions.class_of :=
            Attributions.FactoryGeneratedMeta "ClassificationSobolAttribution"
              ["SobolAttribution"; "ClassificationAttributionExplainer"] |}.
Proof.
  apply (generated_class_is_not_dispatched_again
           {| Attributions.cls_name := "SobolAttribution";
              Attributions.cls_bases := ["MultitaskExplainerMixin"; "AttributionExplainer"];
              Attributions.factory_generated := false |}
           "BertForSequenceClassification" "BertModel"
           {| Attributions.class_of :=
                Attributions.FactoryGeneratedMeta "ClassificationSobolAttribution"
                  ["SobolAttribution"; "ClassificationAttributionExplainer"] |}).
  reflexivity.
Defined.

(** ** Gradients, input by input *)

Section GradientsExtras.
Import Torch ClassificationInferenceWrapper.
Context {I G : Type}.

Lemma zip_strict_all (g : I -> tensor Z -> G) (xs : list I) (ts : list (tensor Z)) :
  fst (zip_strict (fun x t => Ok (g x t)) xs ts) = zip_with g xs ts
  /\ (length xs = length ts ->
      snd (zip_strict (fun x t => Ok (g x t)) xs ts) = None)
  /\ (length xs <> length ts ->
      exists message,
        snd (zip_strict (fun x t => Ok (g x t)) xs ts)
        = Some (ValueError message)).
Proof.
  revert ts. induction xs as [|x xs IH]; intros [|t ts]; cbn [zip_strict zip_with].
  - split; [reflexivity|]. split; [reflexivity|]. intros H. exfalso. apply H. reflexivity.
  - split; [reflexivity|]. split; [discriminate|]. intros _. eexists. reflexivity.
  - split; [reflexivity|]. split; [discriminate|]. intros _. eexists. reflexivity.
  - destruct (IH ts) as (Hfst & Hsame & Hdiff).
    destruct (zip_strict _ xs ts) as [gs e]. cbn [fst snd length] in *.
    split; [f_equal; exact Hfst|]. split.
    + intros H. apply Hsame. lia.
    + intros H. apply Hdiff. lia.
Qed.

(** X25: the gradients of an iterable of inputs pair input [i] with row
    [i] of the targets and never share a row: when every call succeeds,
    the generator yields one result for each pair there is and ends
    normally only if there are as many inputs as rows; otherwise it stops
    with [ValueError]. *)
Theorem gradients_pair_inputs_with_rows (g : I -> tensor Z -> G)
    (model_inputs : list I) (targets : tensor Z) (r : nat) (rest : list nat) :
  shape targets = r :: rest ->
  let out := _get_gradients_from_iterable (fun x t => Ok (g x t))
               model_inputs targets in
  length (fst out) = Nat.min (length model_inputs) r
  /\ (forall i x, i < r -> model_inputs !! i = Some x ->
        fst out !! i
        = Some (g x {| shape := rest;
                       data := chunk (numel rest) i (data targets) |}))
  /\ (length model_inputs = r -> snd out = None)
  /\ (length model_inputs <> r ->
      exists message, snd out = Some (ValueError message)).
Proof.
  intros Hs out. subst out. unfold _get_gradients_from_iterable, rows. rewrite Hs.
  set (ts := map _ (seq 0 r)).
  assert (Hts : length ts = r) by (unfold ts; rewrite length_map, length_seq; reflexivity).
  destruct (zip_strict_all g model_inputs ts) as (Hfst & Hsame & Hdiff).
  rewrite Hfst, Hts in *. split.
  - rewrite length_zip_with, Hts. reflexivity.
  - split; [|split; assumption].
    intros i x Hi Hx. rewrite lookup_zip_with, Hx. cbn [mbind option_bind].
    unfold ts. rewrite list_lookup_fmap.
    rewrite (proj2 (lookup_seq 0 r i i)) by (split; [reflexivity|exact Hi]).
    reflexivity.
Qed.

End GradientsExtras.

Lemma gradients_pair_inputs_with_rows_witness :
  let out :=
    ClassificationInferenceWrapper._get_gradients_from_iterable
      (fun (x : nat) t => Ok (x, Torch.data t))
      [7; 8]
      {| Torch.shape := [1; 2]; Torch.data := [0; 2]%Z |} in
  length (fst out) = Nat.min 2 1
  /\ (forall i x, i < 1 -> [7; 8] !! i = Some x ->
        fst out !! i
        = Some (x, Torch.chunk (Torch.numel [2]) i [0; 2]%Z))
  /\ (2 = 1 -> snd out = None)
  /\ (2 <> 1 -> exists message, snd out = Some (ValueError message)).
Proof.
  apply (gradients_pair_inputs_with_rows
           (fun (x : nat) t => (x, Torch.data t)) [7; 8]
           {| Torch.shape := [1; 2]; Torch.data := [0; 2]%Z |} 1 [2]).
  reflexivity.
Defined.
